(** * GithubNotifier: the polling / dedup / notify pipeline

    A shallow embedding of the Go sources of the notifier:

    - [main.go] (type [NotificationService]) and the package
      [internal/notification] (type [Service]) are the same code, the second
      one reading its constants from the package [config]; both are embedded
      once, in the module [Notification];
    - [internal/repository/repo.go] is embedded in the module [Repository];
    - the package [internal/notifier] in the module [Notifier];
    - the package [internal/service] in the module [Service].

    Go's [int] values are modelled as [Z] (they are only compared and
    copied, never added), Go strings as [string], whose [length] is the
    number of bytes, as Go's [len] is.  The outside world (the HTTP client,
    the clock, the commands that display a notification) is modelled by
    oracles that give the answer of each call, and by a record [World] that
    holds the clock and the log of the calls that were made. *)

From Stdlib Require Import ZArith List String Ascii Bool Lia.
From Stdlib Require Import DecimalString.
Import ListNotations.

Local Open Scope string_scope.
Local Open Scope Z_scope.

(** ** Go primitives *)

Module Go.

(** [len(s)] on a string: the number of bytes. *)
Definition len (s : string) : Z := Z.of_nat (String.length s).

(** [s[:n]] on a string.  Go panics when [n] is out of range; the callers
    below only slice under a guard that excludes it. *)
Definition slice_to (s : string) (n : Z) : string :=
  String.substring 0 (Z.to_nat n) s.

(** The verb [%d] of [fmt.Sprintf] on an [int]. *)
Definition itoa (n : Z) : string :=
  NilZero.string_of_int (Z.to_int n).

(** The line feed of the Go literal ["\n"]. *)
Definition nl : string := String "010"%char EmptyString.

(** Durations are nanosecond counts held in an [int64]. *)
Definition Duration := Z.
Definition Millisecond : Duration := 1000000.
Definition Second : Duration := 1000000000.
Definition Minute : Duration := 60 * Second.
Definition maxDuration : Duration := 2 ^ 63 - 1.
Definition minDuration : Duration := - 2 ^ 63.

(** A [time.Time] is modelled by the number of nanoseconds since the zero
    [Time] (January 1, year 1), so that the zero value of a struct field of
    that type is [0]. *)
Definition Time := Z.
Definition zeroTime : Time := 0.

(** [t.Sub(u)]: the difference, saturated to the range of a [Duration]. *)
Definition Sub (t u : Time) : Duration :=
  let d := t - u in
  if d <? minDuration then minDuration
  else if maxDuration <? d then maxDuration
  else d.

(** [time.Since(t)] is [time.Now().Sub(t)]. *)
Definition Since (now t : Time) : Duration := Sub now t.

Definition StatusOK : Z := 200.
Definition StatusUnauthorized : Z := 401.

(** The values of the interface [error] that the program builds or passes
    on.  The constructors follow the [fmt.Errorf] calls of the sources; the
    arguments are the values formatted into the message. *)
Inductive error :=
| ErrRateLimit (cause : string)
| ErrCreatingRequest (cause : string)
| ErrFetchingAfter (attempt : Z) (cause : string)
| ErrFetching (cause : string)
| ErrAuthenticationFailed
| ErrStatusCode (code : Z)
| ErrDecoding (cause : string)
| ErrTerminalNotifierNotInstalled
| ErrUnsupportedOS (goos : string)
| ErrForeign (msg : string).

End Go.

(** ** package config *)

Module config.
Definition MaxNotificationLength : Z := 100.
Definition MinPollInterval : Go.Duration := 1 * Go.Minute.
Definition DefaultPollInterval : Go.Duration := 5 * Go.Minute.
Definition MaxRetries : Z := 3.
Definition RetryDelay : Go.Duration := 5 * Go.Second.
Definition HTTPTimeout : Go.Duration := 10 * Go.Second.
Definition NotifyDelay : Go.Duration := 500 * Go.Millisecond.
End config.

(** ** package issue *)

Module issue.

Record PullRequest := { URL : string }.

(** The field [PullRequest] is a pointer in the source: [None] is [nil].
    The struct [Issue] of main.go has the same fields but this one. *)
Record Issue := {
  ID : Z;
  Number : Z;
  Title : string;
  CreatedAt : Go.Time;
  HTMLURL : string;
  State : string;
  PullRequest_ : option PullRequest
}.

End issue.
Export issue.

(** ** The outside world *)

(** What a response of the GitHub API holds for this program: the status
    code and what [json.NewDecoder(resp.Body).Decode(&issues)] makes of the
    body. *)
Inductive Body :=
| BadBody (cause : string)
| JSON (issues : list Issue).

(** The two results of [client.Do(req)]. *)
Inductive HttpOutcome :=
| TransportError (cause : string)
| Response (StatusCode : Z) (body : Body).

(** The three results of [cmd.Run()] that the sources tell apart: [nil], an
    [*exec.ExitError], any other error. *)
Inductive RunResult :=
| RunOk
| RunExitError (msg : string)
| RunError (msg : string).

(** Every call that leaves the process is logged.  A call that displays a
    notification carries the time at which it was made. *)
Inductive Event :=
| EvLimiterWait
| EvSleep (d : Go.Duration)
| EvHTTP (attempt : Z)
| EvExec (at_ : Go.Time) (name : string) (args : list string)
| EvBeeep (at_ : Go.Time) (title body : string)
| EvTick.

(** The clock, the log of the calls made so far, and the number of HTTP
    requests sent so far. *)
Record World := {
  now : Go.Time;
  events : list Event;
  requests : nat
}.

(** The answers of the outside world.  [clientDo] is indexed by the number
    of the request, the other oracles by the number of the call (the length
    of the log when the call is made).  [elapse] is the time that a call
    takes, on top of the duration asked for when the call is a sleep. *)
Record Env := {
  GOOS : string;
  elapse : nat -> Go.Duration;
  limiterWait : nat -> option string;
  newRequest : string -> option string;
  clientDo : nat -> HttpOutcome;
  run : nat -> RunResult;
  beeepNotify : nat -> option string
}.

(** One call from the process to the outside: the event is logged and the
    clock moves by [d] and by the time that the call takes. *)
Definition call (env : Env) (ev : Event) (d : Go.Duration) (w : World)
  : World :=
  {| now := now w + d + elapse env (List.length (events w));
     events := (events w ++ [ev])%list;
     requests := requests w |}.

(** [time.Sleep(d)] *)
Definition timeSleep (env : Env) (d : Go.Duration) (w : World) : World :=
  call env (EvSleep d) d w.

(** [limiter.Wait(ctx)] *)
Definition limiterWaitCall (env : Env) (w : World) : World * option string :=
  (call env EvLimiterWait 0 w, limiterWait env (List.length (events w))).

(** [client.Do(req)], in the iteration [attempt] of the caller. *)
Definition clientDoCall (env : Env) (attempt : Z) (w : World)
  : World * HttpOutcome :=
  let w' := call env (EvHTTP attempt) 0 w in
  ({| now := now w'; events := events w'; requests := S (requests w) |},
   clientDo env (requests w)).

(** [exec.Command(name, args...).Run()] *)
Definition cmdRun (env : Env) (name : string) (args : list string)
  (w : World) : World * RunResult :=
  (call env (EvExec (now w) name args) 0 w,
   run env (List.length (events w))).

(** [beeep.Notify(title, body, icon)], the icon being empty. *)
Definition beeepNotifyCall (env : Env) (title body : string) (w : World)
  : World * option Go.error :=
  (call env (EvBeeep (now w) title body) 0 w,
   option_map Go.ErrForeign (beeepNotify env (List.length (events w)))).

(** The [error] that a [cmd.Run()] result is, when it is passed on. *)
Definition runError (r : RunResult) : option Go.error :=
  match r with
  | RunOk => None
  | RunExitError msg => Some (Go.ErrForeign msg)
  | RunError msg => Some (Go.ErrForeign msg)
  end.

(** The URL of the issues endpoint, as both fetchers build it, up to the
    last query parameter. *)
Definition issuesURL (owner repo : string) : string :=
  "https://api.github.com/repos/" ++ owner ++ "/" ++ repo
  ++ "/issues?state=open&sort=created&direction=desc&per_page=10".

(** ** package notification (and main.go) *)

Module Notification.

(** The struct [Service] ([NotificationService] in main.go), without the
    fields that hold a handle on the outside world ([limiter], [client],
    [shutdownChan], [wg], [notifyMutex]). *)
Record Service := {
  lastCheckID : Z;
  pollInterval : Go.Duration;
  lastNotifyTime : Go.Time;
  retryAttempts : Z;
  maxRetries : Z;
  owner : string;
  repo : string
}.

Definition NewService (owner repo : string) (pollInterval : Go.Duration)
  : Service :=
  {| lastCheckID := 0;
     pollInterval := pollInterval;
     lastNotifyTime := Go.zeroTime;
     retryAttempts := 0;
     maxRetries := config.MaxRetries;
     owner := owner;
     repo := repo |}.

Definition setLastCheckID (id : Z) (s : Service) : Service :=
  {| lastCheckID := id;
     pollInterval := pollInterval s;
     lastNotifyTime := lastNotifyTime s;
     retryAttempts := retryAttempts s;
     maxRetries := maxRetries s;
     owner := owner s;
     repo := repo s |}.

Definition setLastNotifyTime (t : Go.Time) (s : Service) : Service :=
  {| lastCheckID := lastCheckID s;
     pollInterval := pollInterval s;
     lastNotifyTime := t;
     retryAttempts := retryAttempts s;
     maxRetries := maxRetries s;
     owner := owner s;
     repo := repo s |}.

(** The values that [attempt] takes in
    [for attempt := 0; attempt <= s.maxRetries; attempt++]. *)
Definition attemptRange (maxRetries : Z) : list Z :=
  List.map Z.of_nat (List.seq 0 (Z.to_nat (maxRetries + 1))).

(** The retry loop of [fetchLatestIssues], over the values of [attempt]
    that are left.  The result is what the function returns: from a
    [return] inside the loop, or from the [return issues, nil] after it,
    which is reached by [break] or with the loop condition false, [issues]
    being [nil] then. *)
Fixpoint retryLoop (env : Env) (maxRetries : Z) (attempts : list Z)
  (w : World) : World * (list Issue * option Go.error) :=
  match attempts with
  | [] => (w, ([], None))
  | attempt :: rest =>
      let (w, resp) := clientDoCall env attempt w in
      match resp with
      | TransportError cause =>
          if attempt =? maxRetries
          then (w, ([], Some (Go.ErrFetchingAfter attempt cause)))
          else retryLoop env maxRetries rest
                 (timeSleep env config.RetryDelay w)
      | Response StatusCode body =>
          if StatusCode =? Go.StatusUnauthorized
          then (w, ([], Some Go.ErrAuthenticationFailed))
          else if negb (StatusCode =? Go.StatusOK)
          then
            if attempt =? maxRetries
            then (w, ([], Some (Go.ErrStatusCode StatusCode)))
            else retryLoop env maxRetries rest
                   (timeSleep env config.RetryDelay w)
          else
            match body with
            | BadBody cause => (w, ([], Some (Go.ErrDecoding cause)))
            | JSON issues => (w, (issues, None))
            end
      end
  end.

Definition fetchLatestIssues (env : Env) (s : Service) (w : World)
  : World * (list Issue * option Go.error) :=
  let (w, err) := limiterWaitCall env w in
  match err with
  | Some cause => (w, ([], Some (Go.ErrRateLimit cause)))
  | None =>
      match newRequest env (issuesURL (owner s) (repo s)) with
      | Some cause => (w, ([], Some (Go.ErrCreatingRequest cause)))
      | None => retryLoop env (maxRetries s) (attemptRange (maxRetries s)) w
      end
  end.

(** The value of the local variable [message] of [sendNotification] before
    the truncation: [fmt.Sprintf("#%d: %s", issue.Number, issue.Title)]. *)
Definition formatMessage (issue : Issue) : string :=
  "#" ++ Go.itoa (Number issue) ++ ": " ++ Title issue.

(** The value of [message] when it is handed over. *)
Definition notificationMessage (issue : Issue) : string :=
  let message := formatMessage issue in
  if Go.len message >? config.MaxNotificationLength
  then Go.slice_to message (config.MaxNotificationLength - 3) ++ "..."
  else message.

Definition clickToOpen (message url : string) : string :=
  message ++ Go.nl ++ Go.nl ++ "Click to open: " ++ url.

Definition sendNotification (env : Env) (s : Service) (w : World)
  (issue : Issue) : Service * World * option Go.error :=
  let w :=
    if Go.Since (now w) (lastNotifyTime s) <? config.NotifyDelay
    then timeSleep env config.NotifyDelay w
    else w in
  let title := "New GitHub Issue" in
  let message := notificationMessage issue in
  if String.eqb (GOOS env) "darwin" then
    let (w, r) :=
      cmdRun env "terminal-notifier"
        ["-title"; title; "-message"; message;
         "-open"; HTMLURL issue; "-sound"; "default"] w in
    match r with
    | RunExitError _ => (s, w, Some Go.ErrTerminalNotifierNotInstalled)
    | _ => (setLastNotifyTime (now w) s, w, runError r)
    end
  else if String.eqb (GOOS env) "windows" then
    let (w, err) :=
      beeepNotifyCall env title (clickToOpen message (HTMLURL issue)) w in
    (setLastNotifyTime (now w) s, w, err)
  else if String.eqb (GOOS env) "linux" then
    let (w, r) := cmdRun env "notify-send" [title; message] w in
    match r with
    | RunOk => (setLastNotifyTime (now w) s, w, None)
    | _ =>
        let (w, err) :=
          beeepNotifyCall env title (clickToOpen message (HTMLURL issue)) w in
        (setLastNotifyTime (now w) s, w, err)
    end
  else
    (setLastNotifyTime (now w) s, w, Some (Go.ErrUnsupportedOS (GOOS env))).

(** The body of the loop [for _, issue := range issues] of
    [checkForNewIssues]. *)
Definition processIssue (env : Env) (sw : Service * World) (issue : Issue)
  : Service * World :=
  let (s, w) := sw in
  if ID issue >? lastCheckID s then
    match sendNotification env s w issue with
    | (s, w, Some _) => (s, w)
    | (s, w, None) =>
        if ID issue >? lastCheckID s
        then (setLastCheckID (ID issue) s, w)
        else (s, w)
    end
  else (s, w).

Definition processIssues (env : Env) (issues : list Issue)
  (sw : Service * World) : Service * World :=
  List.fold_left (processIssue env) issues sw.

Definition checkForNewIssues (env : Env) (s : Service) (w : World)
  : Service * World * option Go.error :=
  match fetchLatestIssues env s w with
  | (w, (_, Some err)) => (s, w, Some err)
  | (w, (issues, None)) =>
      let (s, w) := processIssues env issues (s, w) in
      (s, w, None)
  end.

(** One turn of the scheduler: a check, whose error is logged and dropped. *)
Definition cycle (env : Env) (sw : Service * World) : Service * World :=
  let '(s, w, _) := checkForNewIssues env (fst sw) (snd sw) in (s, w).

(** [Start], run until the loop leaves after [ticks] ticks of the ticker:
    the initial check, then one wait and one check per tick. *)
Fixpoint onTicks (env : Env) (ticks : nat) (sw : Service * World)
  : Service * World :=
  match ticks with
  | O => sw
  | S n =>
      let (s, w) := sw in
      onTicks env n (cycle env (s, call env EvTick 0 w))
  end.

Definition Start (env : Env) (ticks : nat) (s : Service) (w : World)
  : Service * World :=
  onTicks env ticks (cycle env (s, w)).

End Notification.

(** ** package repository *)

Module repository.

(** The interface [IssueRepository]. *)
Class IssueRepository (R : Type) := {
  FetchLatestIssues :
    Env -> R -> World -> World * (list Issue * option Go.error)
}.

(** The struct [Repository], without its HTTP client. *)
Record Repository := {
  owner : string;
  repo : string;
  token : string
}.

Definition NewRepository (owner repo token : string) : Repository :=
  {| owner := owner; repo := repo; token := token |}.

(** The loop that builds [filteredIssues], one [append] per kept entry. *)
Definition filterIssues (issues : list Issue) : list Issue :=
  List.fold_left
    (fun filteredIssues issue =>
       match PullRequest_ issue with
       | None => (filteredIssues ++ [issue])%list
       | Some _ => filteredIssues
       end)
    issues [].

Definition Repository_FetchLatestIssues (env : Env) (r : Repository)
  (w : World) : World * (list Issue * option Go.error) :=
  match newRequest env (issuesURL (owner r) (repo r) ++ "&is=issue") with
  | Some cause => (w, ([], Some (Go.ErrCreatingRequest cause)))
  | None =>
      let (w, resp) := clientDoCall env 0 w in
      match resp with
      | TransportError cause => (w, ([], Some (Go.ErrFetching cause)))
      | Response StatusCode body =>
          if StatusCode =? Go.StatusUnauthorized
          then (w, ([], Some Go.ErrAuthenticationFailed))
          else if negb (StatusCode =? Go.StatusOK)
          then (w, ([], Some (Go.ErrStatusCode StatusCode)))
          else
            match body with
            | BadBody cause => (w, ([], Some (Go.ErrDecoding cause)))
            | JSON issues => (w, (filterIssues issues, None))
            end
      end
  end.

#[export] Instance Repository_IssueRepository : IssueRepository Repository :=
  {| FetchLatestIssues := Repository_FetchLatestIssues |}.

End repository.

(** ** package notifier and package platform *)

Module notifier.

(** The interface [Notifier]. *)
Class Notifier (N : Type) := {
  Notify : Env -> N -> string -> string -> string -> World
           -> World * option Go.error
}.

Record IssueNotifier (N : Type) := { notifier_ : N }.
Arguments notifier_ {N} _.

Definition NewIssueNotifier {N : Type} (n : N) : IssueNotifier N :=
  {| notifier_ := n |}.

Definition formatIssueMessage (issue : Issue) : string :=
  "#" ++ Go.itoa (Number issue) ++ ": " ++ Title issue.

Definition NotifyNewIssue {N : Type} `{Notifier N} (env : Env)
  (n : IssueNotifier N) (issue : Issue) (w : World)
  : World * option Go.error :=
  let title := "New GitHub Issue" in
  let message := formatIssueMessage issue in
  Notify env (notifier_ n) title message (HTMLURL issue) w.

End notifier.

Module platform.

Inductive WindowsNotifier := mkWindowsNotifier.
Inductive MacOSNotifier := mkMacOSNotifier.
Inductive LinuxNotifier := mkLinuxNotifier.

Definition WindowsNotifier_Notify (env : Env) (n : WindowsNotifier)
  (title message url : string) (w : World) : World * option Go.error :=
  beeepNotifyCall env title
    (message ++ Go.nl ++ Go.nl ++ "Click to open: " ++ url) w.

Definition MacOSNotifier_Notify (env : Env) (n : MacOSNotifier)
  (title message url : string) (w : World) : World * option Go.error :=
  let (w, r) :=
    cmdRun env "terminal-notifier"
      ["-title"; title; "-message"; message; "-open"; url;
       "-sound"; "default"] w in
  match r with
  | RunOk => (w, None)
  | RunExitError _ => (w, Some Go.ErrTerminalNotifierNotInstalled)
  | RunError msg => (w, Some (Go.ErrForeign msg))
  end.

Definition LinuxNotifier_Notify (env : Env) (n : LinuxNotifier)
  (title message url : string) (w : World) : World * option Go.error :=
  let (w, r) := cmdRun env "notify-send" [title; message ++ Go.nl ++ url] w in
  match r with
  | RunOk => (w, None)
  | _ =>
      beeepNotifyCall env title
        (message ++ Go.nl ++ Go.nl ++ "Click to open: " ++ url) w
  end.

#[export] Instance WindowsNotifier_Notifier
  : notifier.Notifier WindowsNotifier :=
  {| notifier.Notify := WindowsNotifier_Notify |}.
#[export] Instance MacOSNotifier_Notifier : notifier.Notifier MacOSNotifier :=
  {| notifier.Notify := MacOSNotifier_Notify |}.
#[export] Instance LinuxNotifier_Notifier : notifier.Notifier LinuxNotifier :=
  {| notifier.Notify := LinuxNotifier_Notify |}.

End platform.

(** ** package service *)

Module Service.
Import repository notifier.

Section WithCollaborators.

Context {R N : Type} `{IssueRepository R} `{Notifier N}.

(** The struct [Service], without [limiter], [shutdownChan], [wg] and
    [notifyMutex]. *)
Record Service := {
  repo : R;
  issueNotifier : IssueNotifier N;
  lastCheckID : Z;
  pollInterval : Go.Duration;
  lastNotifyTime : Go.Time
}.

(** The fields that the composite literal of [NewService] leaves out take
    their zero value. *)
Definition NewService (repo : R) (n : N) (pollInterval : Go.Duration)
  : Service :=
  {| repo := repo;
     issueNotifier := NewIssueNotifier n;
     lastCheckID := 0;
     pollInterval := pollInterval;
     lastNotifyTime := Go.zeroTime |}.

Definition setLastCheckID (id : Z) (s : Service) : Service :=
  {| repo := repo s;
     issueNotifier := issueNotifier s;
     lastCheckID := id;
     pollInterval := pollInterval s;
     lastNotifyTime := lastNotifyTime s |}.

(** The body of the loop [for _, issue := range issues] of
    [checkForNewIssues]. *)
Definition processIssue (env : Env) (sw : Service * World) (issue : Issue)
  : Service * World :=
  let (s, w) := sw in
  if ID issue >? lastCheckID s then
    match NotifyNewIssue env (issueNotifier s) issue w with
    | (w, Some _) => (s, w)
    | (w, None) =>
        if ID issue >? lastCheckID s
        then (setLastCheckID (ID issue) s, w)
        else (s, w)
    end
  else (s, w).

Definition processIssues (env : Env) (issues : list Issue)
  (sw : Service * World) : Service * World :=
  List.fold_left (processIssue env) issues sw.

Definition checkForNewIssues (env : Env) (s : Service) (w : World)
  : Service * World * option Go.error :=
  let (w, err) := limiterWaitCall env w in
  match err with
  | Some cause => (s, w, Some (Go.ErrRateLimit cause))
  | None =>
      match FetchLatestIssues env (repo s) w with
      | (w, (_, Some err)) => (s, w, Some err)
      | (w, (issues, None)) =>
          let (s, w) := processIssues env issues (s, w) in
          (s, w, None)
      end
  end.

Definition cycle (env : Env) (sw : Service * World) : Service * World :=
  let '(s, w, _) := checkForNewIssues env (fst sw) (snd sw) in (s, w).

Fixpoint onTicks (env : Env) (ticks : nat) (sw : Service * World)
  : Service * World :=
  match ticks with
  | O => sw
  | S n =>
      let (s, w) := sw in
      onTicks env n (cycle env (s, call env EvTick 0 w))
  end.

Definition Start (env : Env) (ticks : nat) (s : Service) (w : World)
  : Service * World :=
  onTicks env ticks (cycle env (s, w)).

End WithCollaborators.

Arguments Service R N : clear implicits.

End Service.

(** ** Vocabulary of the statements *)

(** What a call has added to the log. *)
Definition newEvents (w w' : World) : list Event :=
  List.skipn (List.length (events w)) (events w').

(** The time of a call that displays a notification. *)
Definition handoffTime (ev : Event) : option Go.Time :=
  match ev with
  | EvExec t _ _ => Some t
  | EvBeeep t _ _ => Some t
  | _ => None
  end.

Definition handoffTimes (evs : list Event) : list Go.Time :=
  List.flat_map
    (fun ev => match handoffTime ev with Some t => [t] | None => [] end) evs.

Definition isSleep (ev : Event) : bool :=
  match ev with EvSleep _ => true | _ => false end.

Definition isHTTP (ev : Event) : bool :=
  match ev with EvHTTP _ => true | _ => false end.

(** An event that displays a notification carries the message [message] of
    [sendNotification], for the link [url]. *)
Definition carries (message url : string) (ev : Event) : Prop :=
  match ev with
  | EvExec _ name args =>
      (name = "terminal-notifier"
       /\ args = ["-title"; "New GitHub Issue"; "-message"; message;
                  "-open"; url; "-sound"; "default"])
      \/ (name = "notify-send" /\ args = ["New GitHub Issue"; message])
  | EvBeeep _ title body =>
      title = "New GitHub Issue"
      /\ body = Notification.clickToOpen message url
  | _ => True
  end.

(** The world in which [sendNotification] hands the notification over:
    after the flood-prevention sleep, when there is one. *)
Definition awaited (env : Env) (s : Notification.Service) (w : World)
  : World :=
  if Go.Since (now w) (Notification.lastNotifyTime s) <? config.NotifyDelay
  then timeSleep env config.NotifyDelay w
  else w.

(** An entry of the response that is a pull request: its field
    [pull_request] is not null. *)
Definition isPullRequest (issue : Issue) : bool :=
  match PullRequest_ issue with
  | Some _ => true
  | None => false
  end.

(** The classes of the retry policy.  A result of [client.Do] is retryable
    when no response came or when the status is neither 401 nor 200; it is
    terminal, with the error given, when the status is 401 or when the
    status is 200 and the body does not decode. *)
Definition retryable (o : HttpOutcome) : bool :=
  match o with
  | TransportError _ => true
  | Response code _ =>
      negb (code =? Go.StatusUnauthorized) && negb (code =? Go.StatusOK)
  end.

Definition terminalError (o : HttpOutcome) : option Go.error :=
  match o with
  | TransportError _ => None
  | Response code body =>
      if code =? Go.StatusUnauthorized then Some Go.ErrAuthenticationFailed
      else if code =? Go.StatusOK then
        match body with
        | BadBody cause => Some (Go.ErrDecoding cause)
        | JSON _ => None
        end
      else None
  end.

(** The error that carries the cause of a retryable result, once the
    attempts are used up at the iteration [attempt]. *)
Definition exhaustedError (attempt : Z) (o : HttpOutcome) : Go.error :=
  match o with
  | TransportError cause => Go.ErrFetchingAfter attempt cause
  | Response code _ => Go.ErrStatusCode code
  end.

(** What [fetchLatestIssues] returns on a result of [client.Do] that is
    not retryable: the terminal error, or the decoded list. *)
Definition settles (o : HttpOutcome) : list Issue * option Go.error :=
  match terminalError o with
  | Some err => ([], Some err)
  | None =>
      match o with
      | Response _ (JSON issues) => (issues, None)
      | _ => ([], None)
      end
  end.

(** The log of the attempts [a] to [a + k]: one [client.Do] per attempt,
    and one sleep of [RetryDelay] between two of them. *)
Fixpoint retrySteps (a k : nat) : list Event :=
  match k with
  | O => [EvHTTP (Z.of_nat a)]
  | S k' =>
      EvHTTP (Z.of_nat a) :: EvSleep config.RetryDelay :: retrySteps (S a) k'
  end.

(** The log of a fetch whose last attempt is the iteration [k]. *)
Definition retryTrace (k : nat) : list Event := retrySteps 0 k.

(** A fetch started in the world [w] and ended in the world [w'] has made
    the attempts [0] to [k], with one sleep of [RetryDelay] between two of
    them, and nothing after the attempt [k]. *)
Definition stoppedAfter (w : World) (k : nat) (w' : World) : Prop :=
  events w' = (events w ++ EvLimiterWait :: retryTrace k)%list
  /\ requests w' = (requests w + S k)%nat
  /\ List.last (events w') EvTick = EvHTTP (Z.of_nat k)
  /\ List.filter isSleep (newEvents w w')
     = List.repeat (EvSleep config.RetryDelay) k.

(** The statement of the spec on the flood-prevention wait: a dispatch
    that comes less than [NotifyDelay] after [lastNotifyTime] sleeps for what
    is left of the delay. *)
Definition waits_remaining_delay : Prop :=
  forall env s w issue,
    let elapsed := Go.Since (now w) (Notification.lastNotifyTime s) in
    elapsed < config.NotifyDelay ->
    exists rest,
      newEvents w (snd (fst (Notification.sendNotification env s w issue)))
      = EvSleep (config.NotifyDelay - elapsed) :: rest.

(** ** Scenarios *)

(** Concrete inputs on which the statements below are run. *)
Module Scenario.

(** An instant of the year 2026, in nanoseconds since the zero [Time]. *)
Definition startTime : Go.Time := 63900000000 * Go.Second.

Definition startWorld : World :=
  {| now := startTime; events := []; requests := 0 |}.

Definition anIssue (id : Z) (title : string) : Issue :=
  {| ID := id;
     Number := id;
     Title := title;
     CreatedAt := startTime;
     HTMLURL := "https://github.com/o/r/issues/" ++ Go.itoa id;
     State := "open";
     PullRequest_ := None |}.

Definition aPullRequest (id : Z) (title : string) : Issue :=
  {| ID := id;
     Number := id;
     Title := title;
     CreatedAt := startTime;
     HTMLURL := "https://github.com/o/r/pull/" ++ Go.itoa id;
     State := "open";
     PullRequest_ :=
       Some {| URL := "https://api.github.com/repos/o/r/pulls/"
                      ++ Go.itoa id |} |}.

(** A world in which every call succeeds at once and the API answers
    [answers], one after the other, then an empty list. *)
Definition calmEnv (goos : string) (answers : list HttpOutcome) : Env :=
  {| GOOS := goos;
     elapse := fun _ => 0;
     limiterWait := fun _ => None;
     newRequest := fun _ => None;
     clientDo := fun n => List.nth n answers (Response Go.StatusOK (JSON []));
     run := fun _ => RunOk;
     beeepNotify := fun _ => None |}.

(** A world in which the API rejects the token. *)
Definition unauthorizedEnv : Env :=
  calmEnv "linux" [Response Go.StatusUnauthorized (JSON [])].

(** A world in which the first two requests get no response. *)
Definition flakyEnv : Env :=
  calmEnv "linux"
    [TransportError "dial tcp: i/o timeout";
     TransportError "dial tcp: i/o timeout";
     Response Go.StatusOK (JSON [anIssue 31 "Crash on start"])].

(** A world in which the API answers with an issue and a pull request. *)
Definition mixedEnv : Env :=
  calmEnv "linux"
    [Response Go.StatusOK
       (JSON [anIssue 8 "Crash on start"; aPullRequest 9 "Fix the crash"])].

(** A service that has sent a notification 200ms before [startTime]. *)
Definition recentService : Notification.Service :=
  Notification.setLastNotifyTime (startTime - 200 * Go.Millisecond)
    (Notification.NewService "o" "r" config.DefaultPollInterval).

(** A Mac on which the first run of [terminal-notifier] leaves with a
    non-zero status after 10ms, the API having answered with two issues. *)
Definition brokenNotifierEnv : Env :=
  {| GOOS := "darwin";
     elapse := fun n => if Nat.eqb n 2 then 10 * Go.Millisecond else 0;
     limiterWait := fun _ => None;
     newRequest := fun _ => None;
     clientDo := fun _ =>
       Response Go.StatusOK
         (JSON [anIssue 20 "Crash on save"; anIssue 10 "Typo in README"]);
     run := fun n => if Nat.eqb n 2 then RunExitError "exit status 1"
                     else RunOk;
     beeepNotify := fun _ => None |}.

(** A Linux desktop without a notification daemon: [notify-send] and the
    fallback both fail. *)
Definition noDisplayEnv : Env :=
  {| GOOS := "linux";
     elapse := fun _ => 0;
     limiterWait := fun _ => None;
     newRequest := fun _ => None;
     clientDo := fun _ => Response Go.StatusOK (JSON []);
     run := fun _ => RunError "exec: notify-send: not found";
     beeepNotify := fun _ => Some "dbus: no session bus" |}.

(** A notifier of the package [service] that always fails. *)
Inductive FailingNotifier := mkFailingNotifier.

#[export] Instance FailingNotifier_Notifier
  : notifier.Notifier FailingNotifier :=
  {| notifier.Notify := fun env n title message url w =>
       (call env (EvBeeep (now w) title message) 0 w,
        Some (Go.ErrForeign "no display")) |}.

Definition aRepository : repository.Repository :=
  repository.NewRepository "o" "r" "ghp_token".

Definition aService : Notification.Service :=
  Notification.NewService "o" "r" config.DefaultPollInterval.

Definition longTitle : string :=
  "The notifier crashes when the title of an issue is much longer than "
  ++ "what fits in one desktop notification bubble.".

End Scenario.

(** ** package strings *)

(** The functions of Go's package [strings] that the sources call, on
    strings as sequences of bytes. *)
Module strings.

Definition byteIs (c : ascii) (n : N) : bool := N.eqb (N_of_ascii c) n.

(** The white space of ASCII: tab, line feed, vertical tab, form feed,
    carriage return, space. *)
Definition asciiSpace (c : ascii) : bool :=
  (N.leb 9 (N_of_ascii c) && N.leb (N_of_ascii c) 13) || byteIs c 32.

(** The UTF-8 encodings on two bytes of a white space rune: U+0085 and
    U+00A0. *)
Definition space2 (c d : ascii) : bool :=
  byteIs c 194 && (byteIs d 133 || byteIs d 160).

(** The UTF-8 encodings on three bytes of a white space rune: U+1680,
    U+2000 to U+200A, U+2028, U+2029, U+202F, U+205F and U+3000. *)
Definition space3 (c d e : ascii) : bool :=
  (byteIs c 225 && byteIs d 154 && byteIs e 128)
  || (byteIs c 226 && byteIs d 128
      && ((N.leb 128 (N_of_ascii e) && N.leb (N_of_ascii e) 138)
          || byteIs e 168 || byteIs e 169 || byteIs e 175))
  || (byteIs c 226 && byteIs d 129 && byteIs e 159)
  || (byteIs c 227 && byteIs d 128 && byteIs e 128).

(** [TrimLeftFunc(s, unicode.IsSpace)] *)
Fixpoint trimLeftSpace (s : string) : string :=
  match s with
  | EmptyString => EmptyString
  | String c rest =>
      if asciiSpace c then trimLeftSpace rest
      else
        match rest with
        | String d rest2 =>
            if space2 c d then trimLeftSpace rest2
            else
              match rest2 with
              | String e rest3 =>
                  if space3 c d e then trimLeftSpace rest3 else s
              | EmptyString => s
              end
        | EmptyString => s
        end
  end.

(** The same from the end, on the bytes in reverse order. *)
Fixpoint dropSpacesReversed (l : list ascii) : list ascii :=
  match l with
  | [] => []
  | c :: rest =>
      if asciiSpace c then dropSpacesReversed rest
      else
        match rest with
        | d :: rest2 =>
            if space2 d c then dropSpacesReversed rest2
            else
              match rest2 with
              | e :: rest3 =>
                  if space3 e d c then dropSpacesReversed rest3 else l
              | [] => l
              end
        | [] => l
        end
  end.

(** [TrimRightFunc(s, unicode.IsSpace)] *)
Definition trimRightSpace (s : string) : string :=
  string_of_list_ascii
    (List.rev (dropSpacesReversed (List.rev (list_ascii_of_string s)))).

(** [strings.TrimSpace(s)]: [s] without the white space runes, as Unicode
    defines them, that it starts and ends with. *)
Definition TrimSpace (s : string) : string :=
  trimRightSpace (trimLeftSpace s).

(** [strings.HasPrefix(s, prefix)] *)
Definition HasPrefix (s prefix : string) : bool :=
  Nat.leb (String.length prefix) (String.length s)
  && String.eqb (String.substring 0 (String.length prefix) s) prefix.

(** [strings.HasSuffix(s, suffix)] *)
Definition HasSuffix (s suffix : string) : bool :=
  Nat.leb (String.length suffix) (String.length s)
  && String.eqb
       (String.substring (String.length s - String.length suffix)
          (String.length suffix) s)
       suffix.

(** [strings.TrimPrefix(s, prefix)] *)
Definition TrimPrefix (s prefix : string) : string :=
  if HasPrefix s prefix
  then String.substring (String.length prefix)
         (String.length s - String.length prefix) s
  else s.

(** [strings.TrimSuffix(s, suffix)] *)
Definition TrimSuffix (s suffix : string) : string :=
  if HasSuffix s suffix
  then String.substring 0 (String.length s - String.length suffix) s
  else s.

(** [strings.Split(s, sep)] for a separator [sep] of one byte: the pieces
    of [s] between the separators, one more than there are separators. *)
Fixpoint Split (s : string) (sep : ascii) : list string :=
  match s with
  | EmptyString => [EmptyString]
  | String c rest =>
      if Ascii.eqb c sep then EmptyString :: Split rest sep
      else
        match Split rest sep with
        | part :: parts => String c part :: parts
        | [] => [String c EmptyString]
        end
  end.

End strings.

(** ** package github (and [parseGitHubURL] of main.go) *)

Module github.

Definition gitHubPrefix : string := "https://github.com/".

Definition errMustStartWith : string :=
  "invalid GitHub URL format. URL must start with 'https://github.com/'".

Definition errExpectedFull : string :=
  "invalid GitHub URL format. Expected 'https://github.com/owner/repo'".

Definition errExpectedEither : string :=
  "invalid GitHub URL format. Expected 'owner/repo' or "
  ++ "'https://github.com/owner/repo'".

Definition errEmpty : string := "owner and repo cannot be empty".

(** What both functions do with [parts], [invalid] being the message of
    the first error: the tests on [len(parts)] and on the two parts. *)
Definition ownerAndRepo (parts : list string) (invalid : string)
  : string * string * option string :=
  if negb (Nat.eqb (List.length parts) 2)
  then (EmptyString, EmptyString, Some invalid)
  else
    let owner := List.nth 0 parts EmptyString in
    let repo := List.nth 1 parts EmptyString in
    if String.eqb owner EmptyString || String.eqb repo EmptyString
    then (EmptyString, EmptyString, Some errEmpty)
    else (owner, repo, None).

(** [ParseGitHubURL] of internal/github/parser.go, which only accepts a
    full URL. *)
Definition ParseGitHubURL (url : string) : string * string * option string :=
  let url := strings.TrimSpace url in
  let url := strings.TrimSuffix url "/" in
  let url := strings.TrimSuffix url "/issues" in
  if negb (strings.HasPrefix url gitHubPrefix)
  then (EmptyString, EmptyString, Some errMustStartWith)
  else
    let repoPath := strings.TrimPrefix url gitHubPrefix in
    let parts := strings.Split repoPath "/"%char in
    ownerAndRepo parts errExpectedFull.

(** [parseGitHubURL] of main.go, and the other [ParseGitHubURL] of the
    package github, which is the same code: the prefix is optional. *)
Definition parseGitHubURL (url : string) : string * string * option string :=
  let url := strings.TrimSpace url in
  let url := strings.TrimSuffix url "/" in
  let url := strings.TrimSuffix url "/issues" in
  let url :=
    if strings.HasPrefix url gitHubPrefix
    then strings.TrimPrefix url gitHubPrefix
    else url in
  let parts := strings.Split url "/"%char in
  ownerAndRepo parts errExpectedEither.

End github.

(** ** Start-up: [NewNotificationService] of main.go and [main] *)

Module startup.

(** What the start-up reads from outside: [os.Getenv], and
    [time.ParseDuration], whose result is [None] when it returns an
    error. *)
Record Process := {
  Getenv : string -> string;
  ParseDuration : string -> option Go.Duration
}.

(** The lines that both start-ups have on [POLL_INTERVAL]: the value of
    [pollInterval] after them. *)
Definition pollIntervalOf (p : Process) : Go.Duration :=
  let pollInterval := config.DefaultPollInterval in
  let envInterval := Getenv p "POLL_INTERVAL" in
  if negb (String.eqb envInterval EmptyString) then
    match ParseDuration p envInterval with
    | Some d =>
        let d := if d <? config.MinPollInterval
                 then config.MinPollInterval else d in
        d
    | None => pollInterval
    end
  else pollInterval.

Definition errRepoURLNotSet : string :=
  "GITHUB_REPO_URL environment variable is not set".

(** [NewNotificationService] of main.go. *)
Definition NewNotificationService (p : Process)
  : option Notification.Service * option string :=
  let repoURL := Getenv p "GITHUB_REPO_URL" in
  if String.eqb repoURL EmptyString then (None, Some errRepoURLNotSet)
  else
    match github.parseGitHubURL repoURL with
    | (_, _, Some err) => (None, Some ("invalid repository URL: " ++ err))
    | (owner, repo, None) =>
        (Some {| Notification.lastCheckID := 0;
                 Notification.pollInterval := pollIntervalOf p;
                 Notification.lastNotifyTime := Go.zeroTime;
                 Notification.retryAttempts := 0;
                 Notification.maxRetries := config.MaxRetries;
                 Notification.owner := owner;
                 Notification.repo := repo |},
         None)
    end.

(** [main] of the command that uses the package notification, up to the
    call of [Start]: the service that it starts, or the message of the
    [log.Fatal] that ends it. *)
Definition mainService (p : Process) : Notification.Service + string :=
  let repoURL := Getenv p "GITHUB_REPO_URL" in
  if String.eqb repoURL EmptyString then inr errRepoURLNotSet
  else
    match github.ParseGitHubURL repoURL with
    | (_, _, Some err) => inr ("Invalid repository URL: " ++ err)
    | (owner, repo, None) =>
        inl (Notification.NewService owner repo (pollIntervalOf p))
    end.

End startup.

(** ** [NewPlatformNotifier] of the package notifier *)

Module platformNotifier.

(** The value of the interface [Notifier] that [NewPlatformNotifier]
    returns: one of the three notifiers of the package platform. *)
Inductive PlatformNotifier :=
| MacOS (n : platform.MacOSNotifier)
| Windows (n : platform.WindowsNotifier)
| Linux (n : platform.LinuxNotifier).

Definition PlatformNotifier_Notify (env : Env) (n : PlatformNotifier)
  (title message url : string) (w : World) : World * option Go.error :=
  match n with
  | MacOS n => platform.MacOSNotifier_Notify env n title message url w
  | Windows n => platform.WindowsNotifier_Notify env n title message url w
  | Linux n => platform.LinuxNotifier_Notify env n title message url w
  end.

#[export] Instance PlatformNotifier_Notifier
  : notifier.Notifier PlatformNotifier :=
  {| notifier.Notify := PlatformNotifier_Notify |}.

Definition NewPlatformNotifier (goos : string)
  : option PlatformNotifier * option Go.error :=
  if String.eqb goos "darwin"
  then (Some (MacOS platform.mkMacOSNotifier), None)
  else if String.eqb goos "windows"
  then (Some (Windows platform.mkWindowsNotifier), None)
  else if String.eqb goos "linux"
  then (Some (Linux platform.mkLinuxNotifier), None)
  else (None, Some (Go.ErrUnsupportedOS goos)).

End platformNotifier.

(** ** More vocabulary *)

(** The string [s] holds no byte [c]. *)
Fixpoint without (c : ascii) (s : string) : bool :=
  match s with
  | EmptyString => true
  | String x rest => negb (Ascii.eqb x c) && without c rest
  end.

(** A name of owner or of repository, as the parsers return them: not
    empty, and without [/]. *)
Definition isName (s : string) : Prop :=
  s <> EmptyString /\ without "/"%char s = true.

(** The value of [url] after the first three lines of both parsers. *)
Definition trimmedURL (url : string) : string :=
  strings.TrimSuffix (strings.TrimSuffix (strings.TrimSpace url) "/")
    "/issues".

(** The full URL of the repository [repo] of [owner]. *)
Definition repoURL (owner repo : string) : string :=
  github.gitHubPrefix ++ owner ++ "/" ++ repo.

(** A start-up environment for the scenarios: [GITHUB_REPO_URL] and
    [POLL_INTERVAL] are set, the second one to ten seconds. *)
Definition hastyProcess : startup.Process :=
  {| startup.Getenv := fun name =>
       if String.eqb name "GITHUB_REPO_URL"
       then "https://github.com/golang/go"
       else if String.eqb name "POLL_INTERVAL" then "10s"
       else EmptyString;
     startup.ParseDuration := fun s =>
       if String.eqb s "10s" then Some (10 * Go.Second) else None |}.

(** The time asked from [time.Sleep] by the calls of a log. *)
Definition sleepTotal (evs : list Event) : Go.Duration :=
  List.fold_right
    (fun ev total => match ev with EvSleep d => d + total | _ => total end)
    0 evs.

(** A world in which the API is down: no request gets a response. *)
Definition downEnv : Env :=
  {| GOOS := "linux";
     elapse := fun _ => 0;
     limiterWait := fun _ => None;
     newRequest := fun _ => None;
     clientDo := fun _ => TransportError "connection refused";
     run := fun _ => RunOk;
     beeepNotify := fun _ => None |}.

Definition isLimiterWait (ev : Event) : bool :=
  match ev with EvLimiterWait => true | _ => false end.

Definition isTick (ev : Event) : bool :=
  match ev with EvTick => true | _ => false end.

(** A call that displays a notification. *)
Definition isDisplay (ev : Event) : bool :=
  match handoffTime ev with Some _ => true | None => false end.

(** From the world [w] to the world [w'] the log has only grown, by calls
    of the kinds [kinds]. *)
Definition adds (kinds : Event -> bool) (w w' : World) : Prop :=
  exists evs,
    events w' = (events w ++ evs)%list
    /\ List.forallb kinds evs = true.

Definition httpOrSleep (ev : Event) : bool := isHTTP ev || isSleep ev.

Definition sleepOrDisplay (ev : Event) : bool := isSleep ev || isDisplay ev.

Definition anyButTickOrWait (ev : Event) : bool :=
  negb (isTick ev) && negb (isLimiterWait ev).

(** The largest of [bound] and of the IDs of a batch. *)
Definition maxID (bound : Z) (issues : list Issue) : Z :=
  List.fold_left (fun m issue => Z.max m (ID issue)) issues bound.

(** The operating systems for which the sources have a notifier. *)
Definition supportedOS (goos : string) : bool :=
  String.eqb goos "darwin" || String.eqb goos "windows"
  || String.eqb goos "linux".

Definition notDisplay (ev : Event) : bool := negb (isDisplay ev).

(** A system for which the sources have no notifier, the API answering
    with one issue at each check. *)
Definition plan9Env : Env :=
  {| GOOS := "plan9";
     elapse := fun _ => 0;
     limiterWait := fun _ => None;
     newRequest := fun _ => None;
     clientDo := fun _ =>
       Response Go.StatusOK (JSON [Scenario.anIssue 5 "Hello"]);
     run := fun _ => RunOk;
     beeepNotify := fun _ => None |}.

(** ** Vocabulary of the truncation *)








(** A start-up environment in which [POLL_INTERVAL] is ten minutes. *)
Definition patientProcess : startup.Process :=
  {| startup.Getenv := fun name =>
       if String.eqb name "GITHUB_REPO_URL"
       then "https://github.com/golang/go"
       else if String.eqb name "POLL_INTERVAL" then "10m"
       else EmptyString;
     startup.ParseDuration := fun s =>
       if String.eqb s "10m" then Some (10 * Go.Minute) else None |}.

(** * Properties *)

(** ** The log and the clock *)

Lemma events_call env ev d w :
  events (call env ev d w) = (events w ++ [ev])%list.
Proof. reflexivity. Qed.

Lemma newEvents_app w w' evs :
  events w' = (events w ++ evs)%list -> newEvents w w' = evs.
Proof.
  intros E. unfold newEvents. rewrite E.
  rewrite List.skipn_app, List.skipn_all, Nat.sub_diag. reflexivity.
Qed.

Lemma newEvents_same w w' :
  events w' = events w -> newEvents w w' = [].
Proof.
  intros E. apply newEvents_app. rewrite E, List.app_nil_r. reflexivity.
Qed.

(** ** The tracker of main.go and of the package notification *)

Section NotificationTracker.

Import Notification.
Variable env : Env.

Lemma setLastNotifyTime_lastCheckID t s :
  lastCheckID (setLastNotifyTime t s) = lastCheckID s.
Proof. reflexivity. Qed.

(** [sendNotification] does not write [lastCheckID]. *)
Lemma sendNotification_lastCheckID s w issue :
  lastCheckID (fst (fst (sendNotification env s w issue))) = lastCheckID s.
Proof.
  unfold sendNotification.
  repeat match goal with
         | |- context [if ?b then _ else _] => destruct b
         | |- context [let (_, _) := ?p in _] => destruct p
         | |- context [match ?r with RunOk => _ | _ => _ end] => destruct r
         end; reflexivity.
Qed.

Lemma processIssue_old s w issue :
  ID issue <= lastCheckID s -> processIssue env (s, w) issue = (s, w).
Proof.
  intros Hold. unfold processIssue.
  destruct (Z.gtb_spec (ID issue) (lastCheckID s)); [lia | reflexivity].
Qed.

(** What the loop body does on an issue that is new. *)
Lemma processIssue_new s w issue :
  lastCheckID s < ID issue ->
  processIssue env (s, w) issue =
  match sendNotification env s w issue with
  | (s1, w1, Some _) => (s1, w1)
  | (s1, w1, None) => (setLastCheckID (ID issue) s1, w1)
  end.
Proof.
  intros Hnew. unfold processIssue.
  destruct (Z.gtb_spec (ID issue) (lastCheckID s)); [| lia].
  pose proof (sendNotification_lastCheckID s w issue) as Hid.
  destruct (sendNotification env s w issue) as [[s1 w1] [e|]]; [reflexivity|].
  simpl in Hid.
  destruct (Z.gtb_spec (ID issue) (lastCheckID s1)); [reflexivity | lia].
Qed.

Lemma processIssue_failed s w issue s1 w1 e :
  lastCheckID s < ID issue ->
  sendNotification env s w issue = (s1, w1, Some e) ->
  processIssue env (s, w) issue = (s1, w1) /\ lastCheckID s1 = lastCheckID s.
Proof.
  intros Hnew Hsend. rewrite (processIssue_new _ _ _ Hnew), Hsend.
  split; [reflexivity|].
  pose proof (sendNotification_lastCheckID s w issue) as Hid.
  rewrite Hsend in Hid. exact Hid.
Qed.

Lemma processIssue_sent s w issue s1 w1 :
  lastCheckID s < ID issue ->
  sendNotification env s w issue = (s1, w1, None) ->
  processIssue env (s, w) issue = (setLastCheckID (ID issue) s1, w1).
Proof.
  intros Hnew Hsend. rewrite (processIssue_new _ _ _ Hnew), Hsend.
  reflexivity.
Qed.

Lemma processIssue_monotone sw issue :
  lastCheckID (fst sw) <= lastCheckID (fst (processIssue env sw issue)).
Proof.
  destruct sw as [s w]. simpl fst at 1.
  destruct (Z_lt_le_dec (lastCheckID s) (ID issue)) as [Hnew | Hold].
  - rewrite (processIssue_new _ _ _ Hnew).
    pose proof (sendNotification_lastCheckID s w issue) as Hid.
    destruct (sendNotification env s w issue) as [[s1 w1] [e|]];
      simpl in *; lia.
  - rewrite (processIssue_old _ _ _ Hold). simpl. lia.
Qed.

Lemma processIssues_cons issue issues sw :
  processIssues env (issue :: issues) sw
  = processIssues env issues (processIssue env sw issue).
Proof. reflexivity. Qed.

Lemma processIssues_app issues1 issues2 sw :
  processIssues env (issues1 ++ issues2) sw
  = processIssues env issues2 (processIssues env issues1 sw).
Proof. apply List.fold_left_app. Qed.

Lemma processIssues_monotone issues : forall sw,
  lastCheckID (fst sw) <= lastCheckID (fst (processIssues env issues sw)).
Proof.
  induction issues as [| issue issues IH]; intros sw.
  - simpl. lia.
  - rewrite processIssues_cons.
    specialize (IH (processIssue env sw issue)).
    pose proof (processIssue_monotone sw issue). lia.
Qed.

(** Only a dispatch without error moves the tracker. *)
Lemma processIssue_moves s w issue :
  lastCheckID (fst (processIssue env (s, w) issue)) <> lastCheckID s ->
  lastCheckID s < ID issue
  /\ exists s1 w1, sendNotification env s w issue = (s1, w1, None).
Proof.
  intros Hmove.
  destruct (Z_lt_le_dec (lastCheckID s) (ID issue)) as [Hnew | Hold].
  - split; [exact Hnew|].
    rewrite (processIssue_new _ _ _ Hnew) in Hmove.
    pose proof (sendNotification_lastCheckID s w issue) as Hid.
    destruct (sendNotification env s w issue) as [[s1 w1] [e|]].
    + simpl in *. congruence.
    + eauto.
  - rewrite (processIssue_old _ _ _ Hold) in Hmove. simpl in Hmove.
    congruence.
Qed.

(** The issues that are not above the tracker when the batch is taken can
    be dropped from the batch: nothing is done for them. *)
Lemma processIssues_filter_above issues : forall s w bound,
  bound <= lastCheckID s ->
  processIssues env issues (s, w)
  = processIssues env
      (List.filter (fun issue => ID issue >? bound) issues) (s, w).
Proof.
  induction issues as [| issue issues IH]; intros s w bound Hb.
  - reflexivity.
  - cbn [List.filter].
    destruct (Z.gtb_spec (ID issue) bound) as [Hgt | Hle].
    + rewrite !processIssues_cons.
      pose proof (processIssue_monotone (s, w) issue) as Hm.
      destruct (processIssue env (s, w) issue) as [s1 w1].
      simpl in Hm. apply IH. lia.
    + rewrite processIssues_cons, processIssue_old by lia.
      apply IH. exact Hb.
Qed.

Lemma cycle_monotone sw :
  lastCheckID (fst sw) <= lastCheckID (fst (cycle env sw)).
Proof.
  unfold cycle, checkForNewIssues.
  destruct (fetchLatestIssues env (fst sw) (snd sw))
    as [w1 [issues [err|]]].
  - simpl. lia.
  - pose proof (processIssues_monotone issues (fst sw, w1)) as Hm.
    destruct (processIssues env issues (fst sw, w1)) as [s2 w2].
    simpl in *. exact Hm.
Qed.

Lemma onTicks_monotone n : forall sw,
  lastCheckID (fst sw) <= lastCheckID (fst (onTicks env n sw)).
Proof.
  induction n as [| n IH]; intros [s w]; simpl.
  - lia.
  - specialize (IH (cycle env (s, call env EvTick 0 w))).
    pose proof (cycle_monotone (s, call env EvTick 0 w)). simpl in *. lia.
Qed.

Lemma onTicks_add n m : forall sw,
  onTicks env (n + m) sw = onTicks env m (onTicks env n sw).
Proof.
  induction n as [| n IH]; intros [s w]; simpl.
  - reflexivity.
  - apply IH.
Qed.

Lemma Start_monotone n m s w :
  (n <= m)%nat ->
  lastCheckID (fst (Start env n s w)) <= lastCheckID (fst (Start env m s w)).
Proof.
  intros Hnm. unfold Start.
  replace m with (n + (m - n))%nat by lia.
  rewrite onTicks_add. apply onTicks_monotone.
Qed.

End NotificationTracker.

(** ** The tracker of the package service *)

Section ServiceTracker.

Import repository notifier Service.
Context {R N : Type} `{IssueRepository R} `{Notifier N}.
Variable env : Env.

Abbreviation Svc := (Service.Service R N).

Lemma svc_processIssue_old (s : Svc) w issue :
  ID issue <= lastCheckID s -> processIssue env (s, w) issue = (s, w).
Proof.
  intros Hold. unfold processIssue.
  destruct (Z.gtb_spec (ID issue) (lastCheckID s)); [lia | reflexivity].
Qed.

Lemma svc_processIssue_new (s : Svc) w issue :
  lastCheckID s < ID issue ->
  processIssue env (s, w) issue =
  match NotifyNewIssue env (issueNotifier s) issue w with
  | (w1, Some _) => (s, w1)
  | (w1, None) => (setLastCheckID (ID issue) s, w1)
  end.
Proof.
  intros Hnew. unfold processIssue.
  destruct (Z.gtb_spec (ID issue) (lastCheckID s)); [reflexivity | lia].
Qed.

Lemma svc_processIssue_monotone (sw : Svc * World) issue :
  lastCheckID (fst sw) <= lastCheckID (fst (processIssue env sw issue)).
Proof.
  destruct sw as [s w]. simpl fst at 1.
  destruct (Z_lt_le_dec (lastCheckID s) (ID issue)) as [Hnew | Hold].
  - rewrite (svc_processIssue_new _ _ _ Hnew).
    destruct (NotifyNewIssue env (issueNotifier s) issue w) as [w1 [e|]];
      simpl; lia.
  - rewrite (svc_processIssue_old _ _ _ Hold). simpl. lia.
Qed.

Lemma svc_processIssue_moves (s : Svc) w issue :
  lastCheckID (fst (processIssue env (s, w) issue)) <> lastCheckID s ->
  lastCheckID s < ID issue
  /\ exists w1, NotifyNewIssue env (issueNotifier s) issue w = (w1, None).
Proof.
  intros Hmove.
  destruct (Z_lt_le_dec (lastCheckID s) (ID issue)) as [Hnew | Hold].
  - split; [exact Hnew|].
    rewrite (svc_processIssue_new _ _ _ Hnew) in Hmove.
    destruct (NotifyNewIssue env (issueNotifier s) issue w) as [w1 [e|]].
    + simpl in Hmove. congruence.
    + eauto.
  - rewrite (svc_processIssue_old _ _ _ Hold) in Hmove. simpl in Hmove.
    congruence.
Qed.

Lemma svc_processIssues_cons issue issues (sw : Svc * World) :
  processIssues env (issue :: issues) sw
  = processIssues env issues (processIssue env sw issue).
Proof. reflexivity. Qed.

Lemma svc_processIssues_app issues1 issues2 (sw : Svc * World) :
  processIssues env (issues1 ++ issues2) sw
  = processIssues env issues2 (processIssues env issues1 sw).
Proof. apply List.fold_left_app. Qed.

Lemma svc_processIssues_monotone issues : forall sw : Svc * World,
  lastCheckID (fst sw) <= lastCheckID (fst (processIssues env issues sw)).
Proof.
  induction issues as [| issue issues IH]; intros sw.
  - simpl. lia.
  - rewrite svc_processIssues_cons.
    specialize (IH (processIssue env sw issue)).
    pose proof (svc_processIssue_monotone sw issue). lia.
Qed.

Lemma svc_processIssues_filter_above issues : forall (s : Svc) w bound,
  bound <= lastCheckID s ->
  processIssues env issues (s, w)
  = processIssues env
      (List.filter (fun issue => ID issue >? bound) issues) (s, w).
Proof.
  induction issues as [| issue issues IH]; intros s w bound Hb.
  - reflexivity.
  - cbn [List.filter].
    destruct (Z.gtb_spec (ID issue) bound) as [Hgt | Hle].
    + rewrite !svc_processIssues_cons.
      pose proof (svc_processIssue_monotone (s, w) issue) as Hm.
      destruct (processIssue env (s, w) issue) as [s1 w1].
      simpl in Hm. apply IH. lia.
    + rewrite svc_processIssues_cons, svc_processIssue_old by lia.
      apply IH. exact Hb.
Qed.

Lemma svc_cycle_monotone (sw : Svc * World) :
  lastCheckID (fst sw) <= lastCheckID (fst (cycle env sw)).
Proof.
  unfold cycle, checkForNewIssues.
  destruct (limiterWaitCall env (snd sw)) as [w0 [cause|]].
  - simpl. lia.
  - destruct (FetchLatestIssues env (repo (fst sw)) w0)
      as [w1 [issues [err|]]].
    + simpl. lia.
    + pose proof (svc_processIssues_monotone issues (fst sw, w1)) as Hm.
      destruct (processIssues env issues (fst sw, w1)) as [s2 w2].
      simpl in *. exact Hm.
Qed.

Lemma svc_onTicks_monotone n : forall sw : Svc * World,
  lastCheckID (fst sw) <= lastCheckID (fst (onTicks env n sw)).
Proof.
  induction n as [| n IH]; intros [s w]; simpl.
  - lia.
  - specialize (IH (cycle env (s, call env EvTick 0 w))).
    pose proof (svc_cycle_monotone (s, call env EvTick 0 w)).
    simpl in *. lia.
Qed.

Lemma svc_onTicks_add n m : forall sw : Svc * World,
  onTicks env (n + m) sw = onTicks env m (onTicks env n sw).
Proof.
  induction n as [| n IH]; intros [s w]; simpl.
  - reflexivity.
  - apply IH.
Qed.

Lemma svc_Start_monotone n m (s : Svc) w :
  (n <= m)%nat ->
  lastCheckID (fst (Start env n s w)) <= lastCheckID (fst (Start env m s w)).
Proof.
  intros Hnm. unfold Start.
  replace m with (n + (m - n))%nat by lia.
  rewrite svc_onTicks_add. apply svc_onTicks_monotone.
Qed.

End ServiceTracker.

(** ** The tracker: never twice, never back *)

Lemma processIssue_sent_id env s w issue :
  Notification.lastCheckID s < ID issue ->
  snd (Notification.sendNotification env s w issue) = None ->
  Notification.lastCheckID (fst (Notification.processIssue env (s, w) issue))
  = ID issue.
Proof.
  intros Hnew Hok. rewrite (processIssue_new env _ _ _ Hnew).
  destruct (Notification.sendNotification env s w issue) as [[s1 w1] r].
  simpl in Hok. subst r. reflexivity.
Qed.

Lemma svc_processIssue_sent_id {R N : Type}
  `{repository.IssueRepository R} `{notifier.Notifier N}
  env (s : Service.Service R N) w issue :
  Service.lastCheckID s < ID issue ->
  snd (notifier.NotifyNewIssue env (Service.issueNotifier s) issue w) = None ->
  Service.lastCheckID (fst (Service.processIssue env (s, w) issue)) = ID issue.
Proof.
  intros Hnew Hok. rewrite (svc_processIssue_new env _ _ _ Hnew).
  destruct (notifier.NotifyNewIssue env (Service.issueNotifier s) issue w)
    as [w1 r].
  simpl in Hok. subst r. reflexivity.
Qed.

(** C1.  In every poll cycle, an issue of the fetched batch whose ID is less
    than or equal to [lastCheckID] when the loop comes to it is not passed to
    the notification sink: the loop body leaves the service and the world,
    and so the log of the calls, as they are.  This holds after any part
    [before] of the batch has been processed; and the issues that are not
    above [lastCheckID] when the batch is taken can be removed from the batch
    without any change to what the cycle does.  Both for main.go and the
    package notification, and for the package service. *)
Theorem old_issue_is_never_dispatched :
  (forall env before s w issue,
      let sw := Notification.processIssues env before (s, w) in
      ID issue <= Notification.lastCheckID (fst sw) ->
      Notification.processIssue env sw issue = sw
      /\ newEvents (snd sw) (snd (Notification.processIssue env sw issue)) = [])
  /\ (forall env issues s w,
         Notification.processIssues env issues (s, w)
         = Notification.processIssues env
             (List.filter
                (fun issue => ID issue >? Notification.lastCheckID s) issues)
             (s, w))
  /\ (forall (R N : Type) (HR : repository.IssueRepository R)
             (HN : notifier.Notifier N) env before
             (s : Service.Service R N) w issue,
         let sw := Service.processIssues env before (s, w) in
         ID issue <= Service.lastCheckID (fst sw) ->
         Service.processIssue env sw issue = sw
         /\ newEvents (snd sw) (snd (Service.processIssue env sw issue)) = [])
  /\ (forall (R N : Type) (HR : repository.IssueRepository R)
             (HN : notifier.Notifier N) env issues
             (s : Service.Service R N) w,
         Service.processIssues env issues (s, w)
         = Service.processIssues env
             (List.filter
                (fun issue => ID issue >? Service.lastCheckID s) issues)
             (s, w)).
Proof.
  split; [| split; [| split]].
  - intros env before s w issue sw Hold.
    destruct sw as [s' w']. simpl in Hold.
    rewrite processIssue_old by assumption.
    split; [reflexivity | now apply newEvents_same].
  - intros. apply processIssues_filter_above. lia.
  - intros R N HR HN env before s w issue sw Hold.
    destruct sw as [s' w']. simpl in Hold.
    rewrite svc_processIssue_old by assumption.
    split; [reflexivity | now apply newEvents_same].
  - intros. apply svc_processIssues_filter_above. lia.
Qed.

Lemma old_issue_is_never_dispatched_witness :
  let env := Scenario.calmEnv "linux" [] in
  let sw :=
    Notification.processIssues env [Scenario.anIssue 7 "seven"]
      (Scenario.aService, Scenario.startWorld) in
  let issue := Scenario.anIssue 5 "five" in
  ID issue <= Notification.lastCheckID (fst sw)
  /\ Notification.processIssue env sw issue = sw
  /\ List.length (events (snd sw)) = 1%nat.
Proof.
  intros env sw issue.
  assert (Hold : ID issue <= Notification.lastCheckID (fst sw))
    by (vm_compute; discriminate).
  split; [exact Hold|]. split.
  - exact (proj1 (proj1 old_issue_is_never_dispatched env
                    [Scenario.anIssue 7 "seven"] Scenario.aService
                    Scenario.startWorld issue Hold)).
  - reflexivity.
Defined.

(** C2.  After a dispatch that succeeds, [lastCheckID] is the maximum of
    its former value and of the ID of the issue, and no step of the loop
    makes it smaller.  In particular a batch whose IDs are 50, 70 and 60, in
    that order, taken with [lastCheckID] below 50 and with every dispatch
    succeeding, leaves [lastCheckID] at 70.  Both for main.go and the package
    notification, and for the package service. *)
Theorem tracker_takes_the_maximum :
  (forall env s w issue,
      Notification.lastCheckID s < ID issue ->
      snd (Notification.sendNotification env s w issue) = None ->
      Notification.lastCheckID
        (fst (Notification.processIssue env (s, w) issue))
      = Z.max (Notification.lastCheckID s) (ID issue))
  /\ (forall env sw issue,
         Notification.lastCheckID (fst sw)
         <= Notification.lastCheckID
              (fst (Notification.processIssue env sw issue)))
  /\ (forall env s w i1 i2 i3,
         ID i1 = 50 -> ID i2 = 70 -> ID i3 = 60 ->
         Notification.lastCheckID s < 50 ->
         (forall s' w' i,
             snd (Notification.sendNotification env s' w' i) = None) ->
         Notification.lastCheckID
           (fst (Notification.processIssues env [i1; i2; i3] (s, w))) = 70)
  /\ (forall (R N : Type) (HR : repository.IssueRepository R)
             (HN : notifier.Notifier N) env (s : Service.Service R N) w issue,
         Service.lastCheckID s < ID issue ->
         snd (notifier.NotifyNewIssue env (Service.issueNotifier s) issue w)
         = None ->
         Service.lastCheckID (fst (Service.processIssue env (s, w) issue))
         = Z.max (Service.lastCheckID s) (ID issue))
  /\ (forall (R N : Type) (HR : repository.IssueRepository R)
             (HN : notifier.Notifier N) env
             (sw : Service.Service R N * World) issue,
         Service.lastCheckID (fst sw)
         <= Service.lastCheckID (fst (Service.processIssue env sw issue)))
  /\ (forall (R N : Type) (HR : repository.IssueRepository R)
             (HN : notifier.Notifier N) env (s : Service.Service R N) w
             i1 i2 i3,
         ID i1 = 50 -> ID i2 = 70 -> ID i3 = 60 ->
         Service.lastCheckID s < 50 ->
         (forall n w' i, snd (notifier.NotifyNewIssue env n i w') = None) ->
         Service.lastCheckID
           (fst (Service.processIssues env [i1; i2; i3] (s, w))) = 70).
Proof.
  split; [| split; [| split; [| split; [| split]]]].
  - intros env s w issue Hnew Hok.
    rewrite processIssue_sent_id by assumption. lia.
  - intros. apply processIssue_monotone.
  - intros env s w i1 i2 i3 H1 H2 H3 Hlow Hok.
    rewrite !processIssues_cons.
    pose proof (processIssue_sent_id env s w i1) as E1.
    destruct (Notification.processIssue env (s, w) i1) as [s1 w1].
    simpl in E1. specialize (E1 ltac:(lia) (Hok _ _ _)).
    pose proof (processIssue_sent_id env s1 w1 i2) as E2.
    destruct (Notification.processIssue env (s1, w1) i2) as [s2 w2].
    simpl in E2. specialize (E2 ltac:(lia) (Hok _ _ _)).
    rewrite processIssue_old by lia. simpl. lia.
  - intros R N HR HN env s w issue Hnew Hok.
    rewrite svc_processIssue_sent_id by assumption. lia.
  - intros. apply svc_processIssue_monotone.
  - intros R N HR HN env s w i1 i2 i3 H1 H2 H3 Hlow Hok.
    rewrite !svc_processIssues_cons.
    pose proof (svc_processIssue_sent_id env s w i1) as E1.
    destruct (Service.processIssue env (s, w) i1) as [s1 w1].
    simpl in E1. specialize (E1 ltac:(lia) (Hok _ _ _)).
    pose proof (svc_processIssue_sent_id env s1 w1 i2) as E2.
    destruct (Service.processIssue env (s1, w1) i2) as [s2 w2].
    simpl in E2. specialize (E2 ltac:(lia) (Hok _ _ _)).
    rewrite svc_processIssue_old by lia. simpl. lia.
Qed.

Lemma tracker_takes_the_maximum_witness :
  let env := Scenario.calmEnv "linux" [] in
  let batch :=
    [Scenario.anIssue 50 "a"; Scenario.anIssue 70 "b";
     Scenario.anIssue 60 "c"] in
  Notification.lastCheckID Scenario.aService < 50
  /\ (forall s' w' i,
         snd (Notification.sendNotification env s' w' i) = None)
  /\ Notification.lastCheckID
       (fst (Notification.processIssues env batch
               (Scenario.aService, Scenario.startWorld))) = 70.
Proof.
  intros env batch.
  assert (Hlow : Notification.lastCheckID Scenario.aService < 50)
    by reflexivity.
  assert (Hok : forall s' w' i,
             snd (Notification.sendNotification env s' w' i) = None).
  { intros s' w' i. unfold Notification.sendNotification. simpl.
    destruct (Go.Since (now w') (Notification.lastNotifyTime s')
              <? config.NotifyDelay); reflexivity. }
  split; [exact Hlow|]. split; [exact Hok|].
  exact (proj1 (proj2 (proj2 tracker_takes_the_maximum)) env
           Scenario.aService Scenario.startWorld
           (Scenario.anIssue 50 "a") (Scenario.anIssue 70 "b")
           (Scenario.anIssue 60 "c") eq_refl eq_refl eq_refl Hlow Hok).
Defined.

(** C3.  [lastCheckID] starts at 0 and never decreases: not in one step of
    the loop over a batch, whatever the outcome of the dispatch, not from the
    start of the service to any number of ticks of the scheduler, and not
    from [n] ticks to [m] ticks later in the same run, whatever the outside
    world answers.  Both for main.go and the package notification, and for
    the package service. *)
Theorem lastCheckID_never_decreases :
  (forall owner repo interval,
      Notification.lastCheckID (Notification.NewService owner repo interval)
      = 0)
  /\ (forall env sw issue,
         Notification.lastCheckID (fst sw)
         <= Notification.lastCheckID
              (fst (Notification.processIssue env sw issue)))
  /\ (forall env n s w,
         Notification.lastCheckID s
         <= Notification.lastCheckID (fst (Notification.Start env n s w)))
  /\ (forall env n m s w,
         (n <= m)%nat ->
         Notification.lastCheckID (fst (Notification.Start env n s w))
         <= Notification.lastCheckID (fst (Notification.Start env m s w)))
  /\ (forall env n owner repo interval w,
         0 <= Notification.lastCheckID
                (fst (Notification.Start env n
                        (Notification.NewService owner repo interval) w)))
  /\ (forall (R N : Type) (HR : repository.IssueRepository R)
             (HN : notifier.Notifier N) (r : R) (n : N) interval,
         Service.lastCheckID (Service.NewService r n interval) = 0)
  /\ (forall (R N : Type) (HR : repository.IssueRepository R)
             (HN : notifier.Notifier N) env
             (sw : Service.Service R N * World) issue,
         Service.lastCheckID (fst sw)
         <= Service.lastCheckID (fst (Service.processIssue env sw issue)))
  /\ (forall (R N : Type) (HR : repository.IssueRepository R)
             (HN : notifier.Notifier N) env n (s : Service.Service R N) w,
         Service.lastCheckID s
         <= Service.lastCheckID (fst (Service.Start env n s w)))
  /\ (forall (R N : Type) (HR : repository.IssueRepository R)
             (HN : notifier.Notifier N) env n m (s : Service.Service R N) w,
         (n <= m)%nat ->
         Service.lastCheckID (fst (Service.Start env n s w))
         <= Service.lastCheckID (fst (Service.Start env m s w)))
  /\ (forall (R N : Type) (HR : repository.IssueRepository R)
             (HN : notifier.Notifier N) env n (r : R) (nt : N) interval w,
         0 <= Service.lastCheckID
                (fst (Service.Start env n
                        (Service.NewService r nt interval) w))).
Proof.
  assert (Hfrom : forall env n s w,
             Notification.lastCheckID s
             <= Notification.lastCheckID (fst (Notification.Start env n s w))).
  { intros env n s w. unfold Notification.Start.
    pose proof (cycle_monotone env (s, w)) as H1.
    pose proof (onTicks_monotone env n (Notification.cycle env (s, w))).
    simpl in H1. lia. }
  assert (Hsvc : forall (R N : Type) (HR : repository.IssueRepository R)
                        (HN : notifier.Notifier N) env n
                        (s : Service.Service R N) w,
             Service.lastCheckID s
             <= Service.lastCheckID (fst (Service.Start env n s w))).
  { intros R N HR HN env n s w. unfold Service.Start.
    pose proof (svc_cycle_monotone env (s, w)) as H1.
    pose proof (svc_onTicks_monotone env n (Service.cycle env (s, w))).
    simpl in H1. lia. }
  repeat match goal with |- _ /\ _ => split end.
  - reflexivity.
  - intros. apply processIssue_monotone.
  - exact Hfrom.
  - intros. now apply Start_monotone.
  - intros env n owner repo interval w.
    apply (Hfrom env n (Notification.NewService owner repo interval) w).
  - reflexivity.
  - intros. apply svc_processIssue_monotone.
  - exact Hsvc.
  - intros. now apply svc_Start_monotone.
  - intros R N HR HN env n r nt interval w.
    apply (Hsvc R N HR HN env n (Service.NewService r nt interval) w).
Qed.

Lemma lastCheckID_never_decreases_witness :
  let env :=
    Scenario.calmEnv "linux"
      [Response Go.StatusOK (JSON [Scenario.anIssue 50 "a"]);
       Response Go.StatusOK
         (JSON [Scenario.anIssue 40 "b"; Scenario.anIssue 50 "a"])] in
  (1 <= 2)%nat
  /\ Notification.lastCheckID
       (fst (Notification.Start env 1 Scenario.aService Scenario.startWorld))
     <= Notification.lastCheckID
          (fst (Notification.Start env 2 Scenario.aService
                  Scenario.startWorld))
  /\ Notification.lastCheckID
       (fst (Notification.Start env 2 Scenario.aService Scenario.startWorld))
     = 50.
Proof.
  intros env.
  assert (Hle : (1 <= 2)%nat) by (apply le_S, le_n).
  split; [exact Hle|]. split.
  - exact (proj1 (proj2 (proj2 (proj2 lastCheckID_never_decreases))) env
             1%nat 2%nat Scenario.aService Scenario.startWorld Hle).
  - reflexivity.
Defined.

(** C10.  When the dispatch of a new issue returns an error, the loop body
    leaves [lastCheckID] as it was, so the issue is still above it: the
    test [issue.ID > s.lastCheckID] holds on the state that is left, and
    with that state the loop body hands the issue to the dispatcher again,
    whatever the world has become.  The tracker moves only when the issue
    was new and the dispatch returned no error.  Both for main.go and the
    package notification, and for the package service. *)
Theorem failed_dispatch_leaves_issue_new :
  (forall env s w issue s1 w1 e,
      Notification.lastCheckID s < ID issue ->
      Notification.sendNotification env s w issue = (s1, w1, Some e) ->
      Notification.processIssue env (s, w) issue = (s1, w1)
      /\ Notification.lastCheckID s1 = Notification.lastCheckID s
      /\ (ID issue >? Notification.lastCheckID s1) = true
      /\ forall w2,
          Notification.processIssue env (s1, w2) issue =
          match Notification.sendNotification env s1 w2 issue with
          | (s3, w3, Some _) => (s3, w3)
          | (s3, w3, None) =>
              (Notification.setLastCheckID (ID issue) s3, w3)
          end)
  /\ (forall env s w issue,
         Notification.lastCheckID
           (fst (Notification.processIssue env (s, w) issue))
         <> Notification.lastCheckID s ->
         Notification.lastCheckID s < ID issue
         /\ exists s1 w1,
             Notification.sendNotification env s w issue = (s1, w1, None))
  /\ (forall (R N : Type) (HR : repository.IssueRepository R)
             (HN : notifier.Notifier N) env (s : Service.Service R N)
             w issue w1 e,
         Service.lastCheckID s < ID issue ->
         notifier.NotifyNewIssue env (Service.issueNotifier s) issue w
         = (w1, Some e) ->
         Service.processIssue env (s, w) issue = (s, w1)
         /\ (ID issue >? Service.lastCheckID s) = true
         /\ forall w2,
             Service.processIssue env (s, w2) issue =
             match
               notifier.NotifyNewIssue env (Service.issueNotifier s) issue w2
             with
             | (w3, Some _) => (s, w3)
             | (w3, None) => (Service.setLastCheckID (ID issue) s, w3)
             end)
  /\ (forall (R N : Type) (HR : repository.IssueRepository R)
             (HN : notifier.Notifier N) env (s : Service.Service R N)
             w issue,
         Service.lastCheckID (fst (Service.processIssue env (s, w) issue))
         <> Service.lastCheckID s ->
         Service.lastCheckID s < ID issue
         /\ exists w1,
             notifier.NotifyNewIssue env (Service.issueNotifier s) issue w
             = (w1, None)).
Proof.
  split; [| split; [| split]].
  - intros env s w issue s1 w1 e Hnew Hsend.
    destruct (processIssue_failed env s w issue s1 w1 e Hnew Hsend)
      as [Hstep Hid].
    split; [exact Hstep|]. split; [exact Hid|]. split.
    + apply Z.gtb_lt. lia.
    + intros w2. apply processIssue_new. lia.
  - intros. now apply processIssue_moves.
  - intros R N HR HN env s w issue w1 e Hnew Hsend.
    split; [| split].
    + rewrite (svc_processIssue_new env _ _ _ Hnew), Hsend. reflexivity.
    + apply Z.gtb_lt. lia.
    + intros w2. now apply svc_processIssue_new.
  - intros. now apply svc_processIssue_moves.
Qed.

Lemma failed_dispatch_leaves_issue_new_witness :
  let env := Scenario.noDisplayEnv in
  let s := Scenario.aService in
  let w := Scenario.startWorld in
  let issue := Scenario.anIssue 12 "No sound on Linux" in
  let sent := Notification.sendNotification env s w issue in
  Notification.lastCheckID s < ID issue
  /\ sent = (fst (fst sent), snd (fst sent),
             Some (Go.ErrForeign "dbus: no session bus"))
  /\ Notification.processIssue env (s, w) issue
     = (fst (fst sent), snd (fst sent))
  /\ Notification.lastCheckID
       (fst (Notification.processIssue env (s, w) issue)) = 0.
Proof.
  intros env s w issue sent.
  assert (Hnew : Notification.lastCheckID s < ID issue) by reflexivity.
  assert (Hsend : sent = (fst (fst sent), snd (fst sent),
                          Some (Go.ErrForeign "dbus: no session bus")))
    by (vm_compute; reflexivity).
  destruct (proj1 failed_dispatch_leaves_issue_new env s w issue _ _ _
              Hnew Hsend) as [Hstep [Hid _]].
  split; [exact Hnew|]. split; [exact Hsend|]. split; [exact Hstep|].
  rewrite Hstep. exact Hid.
Defined.

(** ** The retry loop of [fetchLatestIssues] *)

Section RetryLoop.

Import Notification.
Variable env : Env.
Variable M : Z.

Lemma terminal_not_retryable o err :
  terminalError o = Some err -> retryable o = false.
Proof.
  destruct o as [cause | code body]; simpl; [discriminate|].
  destruct (code =? Go.StatusUnauthorized); [reflexivity|].
  destruct (code =? Go.StatusOK); [reflexivity | discriminate].
Qed.

(** One run of the loop over the attempts [a] to [a + n], the last one
    being the iteration [maxRetries]: the attempts go on as long as the
    results are retryable, and stop at the first result that is not, or at
    the last attempt. *)
Lemma retryLoop_run : forall n a w,
  Z.of_nat (a + n) = M ->
  exists k,
    (k <= n)%nat
    /\ (forall j, (j < k)%nat ->
                  retryable (clientDo env (requests w + j)) = true)
    /\ let o := clientDo env (requests w + k) in
       let r := retryLoop env M (List.map Z.of_nat (List.seq a (S n))) w in
       events (fst r) = (events w ++ retrySteps a k)%list
       /\ requests (fst r) = (requests w + S k)%nat
       /\ (retryable o = true -> k = n)
       /\ snd r = if retryable o
                  then ([], Some (exhaustedError M o))
                  else settles o.
Proof.
  induction n as [| n IH]; intros a w HM.
  - exists 0%nat. split; [lia|]. split; [intros j Hj; lia|].
    rewrite Nat.add_0_r in *. cbn [List.seq List.map retryLoop clientDoCall].
    replace (Z.of_nat a =? M) with true by (symmetry; apply Z.eqb_eq; lia).
    destruct (clientDo env (requests w)) as [cause | code body].
    + simpl. rewrite HM. repeat split; try reflexivity. lia.
    + unfold settles. simpl.
      destruct (code =? Go.StatusUnauthorized).
      { simpl. repeat split; try reflexivity. lia. }
      destruct (code =? Go.StatusOK); simpl.
      * destruct body; simpl; repeat split; try reflexivity; lia.
      * repeat split; try reflexivity. lia.
  - cbn [List.seq List.map retryLoop clientDoCall].
    replace (Z.of_nat a =? M) with false by (symmetry; apply Z.eqb_neq; lia).
    set (w1 := {| now := now (call env (EvHTTP (Z.of_nat a)) 0 w);
                  events := events (call env (EvHTTP (Z.of_nat a)) 0 w);
                  requests := S (requests w) |}).
    assert (Hretry :
      retryable (clientDo env (requests w)) = true ->
      exists k : nat,
        (k <= S n)%nat /\
        (forall j : nat, (j < k)%nat ->
           retryable (clientDo env (requests w + j)) = true) /\
        (let o := clientDo env (requests w + k) in
         let r := retryLoop env M (List.map Z.of_nat (List.seq (S a) (S n)))
                    (timeSleep env config.RetryDelay w1) in
         events (fst r) = (events w ++ retrySteps a k)%list /\
         requests (fst r) = (requests w + S k)%nat /\
         (retryable o = true -> k = S n) /\
         snd r = (if retryable o then ([], Some (exhaustedError M o))
                  else settles o))).
    { intros Hr0.
      destruct (IH (S a) (timeSleep env config.RetryDelay w1) ltac:(lia))
        as [k (Hk & Hbefore & Hrun)].
      cbv zeta in Hrun. destruct Hrun as (Hev & Hreq & Hlast & Hres).
      change (requests (timeSleep env config.RetryDelay w1))
        with (S (requests w)) in Hbefore, Hreq, Hlast, Hres.
      change (events (timeSleep env config.RetryDelay w1))
        with ((events w ++ [EvHTTP (Z.of_nat a)])
              ++ [EvSleep config.RetryDelay])%list in Hev.
      rewrite Nat.add_succ_comm in Hreq, Hlast, Hres.
      exists (S k). split; [lia|]. split.
      - intros [| j] Hj.
        + rewrite Nat.add_0_r. exact Hr0.
        + rewrite <- Nat.add_succ_comm. apply Hbefore. lia.
      - cbv zeta. split; [| split; [| split]].
        + rewrite Hev, <- !List.app_assoc. reflexivity.
        + rewrite Hreq. lia.
        + intros Hr. specialize (Hlast Hr). lia.
        + exact Hres. }
    assert (Hstop :
      forall r0,
        retryable (clientDo env (requests w)) = false ->
        r0 = settles (clientDo env (requests w)) ->
        exists k : nat,
          (k <= S n)%nat /\
          (forall j : nat, (j < k)%nat ->
             retryable (clientDo env (requests w + j)) = true) /\
          (let o := clientDo env (requests w + k) in
           events w1 = (events w ++ retrySteps a k)%list /\
           requests w1 = (requests w + S k)%nat /\
           (retryable o = true -> k = S n) /\
           r0 = (if retryable o then ([], Some (exhaustedError M o))
                 else settles o))).
    { intros r0 Hr0 Er0. exists 0%nat. split; [lia|].
      split; [intros j Hj; lia|]. cbv zeta. rewrite Nat.add_0_r, Hr0.
      split; [reflexivity|]. split; [simpl; lia|].
      split; [discriminate | exact Er0]. }
    destruct (clientDo env (requests w)) as [cause | code body] eqn:Ho.
    + apply Hretry. reflexivity.
    + unfold settles in Hstop. simpl in Hretry, Hstop.
      destruct (code =? Go.StatusUnauthorized).
      { apply (Hstop _ eq_refl eq_refl). }
      destruct (code =? Go.StatusOK); simpl in *.
      * destruct body; apply (Hstop _ eq_refl eq_refl).
      * apply Hretry. reflexivity.
Qed.

End RetryLoop.

Section Fetch.

Import Notification.
Variable env : Env.

Lemma retrySteps_last : forall k a evs d,
  List.last (evs ++ retrySteps a k) d = EvHTTP (Z.of_nat (a + k)).
Proof.
  induction k as [| k IH]; intros a evs d.
  - rewrite Nat.add_0_r. apply List.last_last.
  - cbn [retrySteps].
    change (EvHTTP (Z.of_nat a) :: EvSleep config.RetryDelay
              :: retrySteps (S a) k)
      with ([EvHTTP (Z.of_nat a); EvSleep config.RetryDelay]
              ++ retrySteps (S a) k)%list.
    rewrite List.app_assoc, IH. f_equal. lia.
Qed.

Lemma retrySteps_sleeps : forall k a,
  List.filter isSleep (retrySteps a k)
  = List.repeat (EvSleep config.RetryDelay) k.
Proof.
  induction k as [| k IH]; intros a; simpl; [reflexivity|].
  rewrite IH. reflexivity.
Qed.

Lemma retrySteps_attempts : forall k a,
  List.filter isHTTP (retrySteps a k)
  = List.map (fun j => EvHTTP (Z.of_nat j)) (List.seq a (S k)).
Proof.
  induction k as [| k IH]; intros a; [reflexivity|].
  cbn [retrySteps List.filter isHTTP]. rewrite IH. reflexivity.
Qed.

(** A fetch that gets past the rate limiter and the construction of the
    request: it makes the attempts [0] to [k], for some [k] that is at most
    [maxRetries]; the results before [k] are retryable; the result of [k]
    decides. *)
Lemma fetch_run s w :
  0 <= maxRetries s ->
  limiterWait env (List.length (events w)) = None ->
  newRequest env (issuesURL (owner s) (repo s)) = None ->
  exists k,
    Z.of_nat k <= maxRetries s
    /\ (forall j, (j < k)%nat ->
                  retryable (clientDo env (requests w + j)) = true)
    /\ let o := clientDo env (requests w + k) in
       let r := fetchLatestIssues env s w in
       events (fst r) = (events w ++ EvLimiterWait :: retryTrace k)%list
       /\ requests (fst r) = (requests w + S k)%nat
       /\ (retryable o = true -> Z.of_nat k = maxRetries s)
       /\ snd r = if retryable o
                  then ([], Some (exhaustedError (maxRetries s) o))
                  else settles o.
Proof.
  intros HM Hlim Hreq.
  unfold fetchLatestIssues, limiterWaitCall. rewrite Hlim, Hreq.
  unfold attemptRange.
  replace (Z.to_nat (maxRetries s + 1)) with (S (Z.to_nat (maxRetries s)))
    by lia.
  destruct (retryLoop_run env (maxRetries s) (Z.to_nat (maxRetries s)) 0
              (call env EvLimiterWait 0 w) ltac:(lia))
    as [k (Hk & Hbefore & Hrun)].
  cbv zeta in Hrun. destruct Hrun as (Hev & Hrq & Hlast & Hres).
  change (requests (call env EvLimiterWait 0 w)) with (requests w) in *.
  rewrite events_call, <- List.app_assoc in Hev.
  exists k. split; [lia|]. split; [exact Hbefore|]. cbv zeta.
  split; [exact Hev|]. split; [exact Hrq|]. split; [| exact Hres].
  intros Hr. specialize (Hlast Hr). lia.
Qed.

(** The attempt at which the fetch stops is the first one whose result is
    not retryable. *)
Lemma fetch_stops_at s w k :
  limiterWait env (List.length (events w)) = None ->
  newRequest env (issuesURL (owner s) (repo s)) = None ->
  Z.of_nat k <= maxRetries s ->
  (forall j, (j < k)%nat ->
             retryable (clientDo env (requests w + j)) = true) ->
  retryable (clientDo env (requests w + k)) = false ->
  let r := fetchLatestIssues env s w in
  events (fst r) = (events w ++ EvLimiterWait :: retryTrace k)%list
  /\ requests (fst r) = (requests w + S k)%nat
  /\ snd r = settles (clientDo env (requests w + k)).
Proof.
  intros Hlim Hreq Hk Hbefore Hstop.
  destruct (fetch_run s w ltac:(lia) Hlim Hreq)
    as [k' (Hk' & Hbefore' & Hrun)].
  cbv zeta in Hrun. destruct Hrun as (Hev & Hrq & Hlast & Hres).
  assert (k' = k) as ->.
  { destruct (Nat.lt_trichotomy k' k) as [Hlt | [Heq | Hgt]].
    - specialize (Hlast (Hbefore k' Hlt)). lia.
    - exact Heq.
    - rewrite (Hbefore' k Hgt) in Hstop. discriminate. }
  rewrite Hstop in Hres. cbv zeta. auto.
Qed.

(** The attempts are used up when the result of the iteration
    [maxRetries] is retryable, as the ones before it. *)
Lemma fetch_exhausted s w k :
  limiterWait env (List.length (events w)) = None ->
  newRequest env (issuesURL (owner s) (repo s)) = None ->
  Z.of_nat k = maxRetries s ->
  (forall j, (j <= k)%nat ->
             retryable (clientDo env (requests w + j)) = true) ->
  let r := fetchLatestIssues env s w in
  events (fst r) = (events w ++ EvLimiterWait :: retryTrace k)%list
  /\ requests (fst r) = (requests w + S k)%nat
  /\ snd r = ([], Some (exhaustedError (maxRetries s)
                          (clientDo env (requests w + k)))).
Proof.
  intros Hlim Hreq Hk Hall.
  destruct (fetch_run s w ltac:(lia) Hlim Hreq)
    as [k' (Hk' & Hbefore' & Hrun)].
  cbv zeta in Hrun. destruct Hrun as (Hev & Hrq & Hlast & Hres).
  assert (k' = k) as ->.
  { specialize (Hlast (Hall k' ltac:(lia))). lia. }
  rewrite (Hall k (le_n k)) in Hres. cbv zeta. auto.
Qed.

(** A fetch never sends more than [maxRetries + 1] requests. *)
Lemma fetch_requests_bound s w :
  0 <= maxRetries s ->
  Z.of_nat (requests (fst (fetchLatestIssues env s w)))
  <= Z.of_nat (requests w) + (maxRetries s + 1).
Proof.
  intros HM.
  destruct (limiterWait env (List.length (events w))) as [c|] eqn:Hlim.
  { unfold fetchLatestIssues, limiterWaitCall. rewrite Hlim. simpl. lia. }
  destruct (newRequest env (issuesURL (owner s) (repo s))) as [c|] eqn:Hreq.
  { unfold fetchLatestIssues, limiterWaitCall. rewrite Hlim, Hreq.
    simpl. lia. }
  destruct (fetch_run s w HM Hlim Hreq) as [k (Hk & _ & Hrun)].
  cbv zeta in Hrun. destruct Hrun as (_ & Hrq & _). rewrite Hrq. lia.
Qed.

End Fetch.

Lemma stoppedAfter_intro w k w' :
  events w' = (events w ++ EvLimiterWait :: retryTrace k)%list ->
  requests w' = (requests w + S k)%nat ->
  stoppedAfter w k w'.
Proof.
  intros Hev Hrq. unfold stoppedAfter.
  split; [exact Hev|]. split; [exact Hrq|]. split.
  - rewrite Hev.
    change (EvLimiterWait :: retryTrace k)
      with ([EvLimiterWait] ++ retrySteps 0 k)%list.
    rewrite List.app_assoc. apply retrySteps_last.
  - rewrite (newEvents_app _ _ _ Hev). unfold retryTrace. simpl.
    apply retrySteps_sleeps.
Qed.

(** C4.  A terminal failure is not retried.  When the results of the
    attempts before the attempt [k] are retryable and the attempt [k]
    receives the status 401, or the status 200 with a body that does not
    decode, [fetchLatestIssues] returns the authentication error, or the
    decoding error with its cause, and the attempt [k] is the last call it
    makes: no attempt and no sleep follow it, the only sleeps are the [k]
    ones between the attempts before.  When the failure comes at the first
    attempt no sleep is made at all. *)
Theorem terminal_failure_is_not_retried :
  forall env s w k,
    limiterWait env (List.length (events w)) = None ->
    newRequest env
      (issuesURL (Notification.owner s) (Notification.repo s)) = None ->
    Z.of_nat k <= Notification.maxRetries s ->
    (forall j, (j < k)%nat ->
               retryable (clientDo env (requests w + j)) = true) ->
    let o := clientDo env (requests w + k) in
    let r := Notification.fetchLatestIssues env s w in
    (forall body,
        o = Response Go.StatusUnauthorized body ->
        snd r = ([], Some Go.ErrAuthenticationFailed)
        /\ stoppedAfter w k (fst r))
    /\ (forall cause,
           o = Response Go.StatusOK (BadBody cause) ->
           snd r = ([], Some (Go.ErrDecoding cause))
           /\ stoppedAfter w k (fst r))
    /\ (k = 0%nat -> terminalError o <> None ->
        newEvents w (fst r) = [EvLimiterWait; EvHTTP 0]).
Proof.
  intros env s w k Hlim Hreq Hk Hbefore o r.
  assert (Hterm : forall err,
             terminalError o = Some err ->
             snd r = ([], Some err) /\ stoppedAfter w k (fst r)).
  { intros err Herr.
    destruct (fetch_stops_at env s w k Hlim Hreq Hk Hbefore
                (terminal_not_retryable _ _ Herr)) as (Hev & Hrq & Hres).
    split.
    - fold o in Hres. fold r in Hres. rewrite Hres. unfold settles.
      rewrite Herr. reflexivity.
    - now apply stoppedAfter_intro. }
  split; [| split].
  - intros body Ho. apply Hterm. rewrite Ho. reflexivity.
  - intros cause Ho. apply Hterm. rewrite Ho. reflexivity.
  - intros -> Hsome.
    destruct (terminalError o) as [err|] eqn:Herr; [| congruence].
    destruct (Hterm err eq_refl) as [_ (Hev & _)].
    now apply newEvents_app.
Qed.

Lemma terminal_failure_is_not_retried_witness :
  let env := Scenario.unauthorizedEnv in
  let s := Scenario.aService in
  let w := Scenario.startWorld in
  let r := Notification.fetchLatestIssues env s w in
  Z.of_nat 0 <= Notification.maxRetries s
  /\ clientDo env (requests w + 0) = Response Go.StatusUnauthorized (JSON [])
  /\ snd r = ([], Some Go.ErrAuthenticationFailed)
  /\ stoppedAfter w 0 (fst r)
  /\ events (fst r) = [EvLimiterWait; EvHTTP 0].
Proof.
  intros env s w r.
  assert (Hk : Z.of_nat 0 <= Notification.maxRetries s)
    by (vm_compute; discriminate).
  assert (Hbefore : forall j, (j < 0)%nat ->
             retryable (clientDo env (requests w + j)) = true)
    by (intros j Hj; inversion Hj).
  destruct (terminal_failure_is_not_retried env s w 0%nat eq_refl eq_refl
              Hk Hbefore) as [Hauth _].
  destruct (Hauth (JSON []) eq_refl) as [Hres Hstop].
  split; [exact Hk|]. split; [reflexivity|]. split; [exact Hres|].
  split; [exact Hstop|]. reflexivity.
Defined.

(** C5.  The retry loop of [fetchLatestIssues] sends at most
    [maxRetries + 1] requests, [maxRetries] being 3 in a service made by
    [NewService].  A fetch that gets to the loop makes the attempts [0] to
    [k], with [k] at most [maxRetries], sleeps [RetryDelay] once between two
    consecutive attempts and at no other time, and the results before [k]
    are retryable (no response, or a status that is neither 401 nor 200).
    When the result of [k] is retryable too, the attempts are used up
    ([k] is [maxRetries]) and the error returned carries the cause of that
    last result: the transport error or the status code.  In particular,
    with [maxRetries] 3, no response at the first two attempts and a good
    response at the third give the decoded issues, without error, after
    exactly two sleeps. *)
Theorem fetch_retries_are_bounded :
  (forall owner repo interval,
      Notification.maxRetries (Notification.NewService owner repo interval)
      = 3)
  /\ (forall env s w,
         0 <= Notification.maxRetries s ->
         Z.of_nat (requests (fst (Notification.fetchLatestIssues env s w)))
         <= Z.of_nat (requests w) + (Notification.maxRetries s + 1))
  /\ (forall env s w,
         0 <= Notification.maxRetries s ->
         limiterWait env (List.length (events w)) = None ->
         newRequest env
           (issuesURL (Notification.owner s) (Notification.repo s)) = None ->
         let r := Notification.fetchLatestIssues env s w in
         exists k,
           Z.of_nat k <= Notification.maxRetries s
           /\ (forall j, (j < k)%nat ->
                         retryable (clientDo env (requests w + j)) = true)
           /\ stoppedAfter w k (fst r)
           /\ let o := clientDo env (requests w + k) in
              (retryable o = true ->
               Z.of_nat k = Notification.maxRetries s
               /\ snd r = ([], Some (exhaustedError
                                       (Notification.maxRetries s) o)))
              /\ (retryable o = false -> snd r = settles o))
  /\ (forall env s w c1 c2 issues,
         Notification.maxRetries s = 3 ->
         limiterWait env (List.length (events w)) = None ->
         newRequest env
           (issuesURL (Notification.owner s) (Notification.repo s)) = None ->
         clientDo env (requests w) = TransportError c1 ->
         clientDo env (requests w + 1) = TransportError c2 ->
         clientDo env (requests w + 2) = Response Go.StatusOK (JSON issues) ->
         let r := Notification.fetchLatestIssues env s w in
         snd r = (issues, None)
         /\ newEvents w (fst r)
            = [EvLimiterWait; EvHTTP 0; EvSleep config.RetryDelay;
               EvHTTP 1; EvSleep config.RetryDelay; EvHTTP 2]
         /\ List.filter isSleep (newEvents w (fst r))
            = [EvSleep config.RetryDelay; EvSleep config.RetryDelay])
  /\ (forall env s w k,
         limiterWait env (List.length (events w)) = None ->
         newRequest env
           (issuesURL (Notification.owner s) (Notification.repo s)) = None ->
         Z.of_nat k = Notification.maxRetries s ->
         (forall j, (j <= k)%nat ->
                    retryable (clientDo env (requests w + j)) = true) ->
         let r := Notification.fetchLatestIssues env s w in
         stoppedAfter w k (fst r)
         /\ snd r
            = ([], Some (match clientDo env (requests w + k) with
                         | TransportError cause =>
                             Go.ErrFetchingAfter (Notification.maxRetries s)
                               cause
                         | Response code _ => Go.ErrStatusCode code
                         end))).
Proof.
  split; [| split; [| split; [| split]]]; cycle 4.
  { intros env s w k Hlim Hreq Hk Hall r.
    destruct (fetch_exhausted env s w k Hlim Hreq Hk Hall)
      as (Hev & Hrq & Hres).
    split; [now apply stoppedAfter_intro|]. exact Hres. }
  - reflexivity.
  - intros. now apply fetch_requests_bound.
  - intros env s w HM Hlim Hreq r.
    destruct (fetch_run env s w HM Hlim Hreq) as [k (Hk & Hbefore & Hrun)].
    cbv zeta in Hrun. destruct Hrun as (Hev & Hrq & Hlast & Hres).
    exists k. split; [exact Hk|]. split; [exact Hbefore|].
    split; [now apply stoppedAfter_intro|]. cbv zeta. split.
    + intros Hr. split; [now apply Hlast|].
      unfold r. rewrite Hres, Hr. reflexivity.
    + intros Hr. unfold r. rewrite Hres, Hr. reflexivity.
  - intros env s w c1 c2 issues HM Hlim Hreq H0 H1 H2 r.
    assert (Hbefore : forall j, (j < 2)%nat ->
               retryable (clientDo env (requests w + j)) = true).
    { intros j Hj.
      assert (j = 0 \/ j = 1)%nat as [-> | ->] by lia.
      - rewrite Nat.add_0_r, H0. reflexivity.
      - rewrite H1. reflexivity. }
    destruct (fetch_stops_at env s w 2%nat Hlim Hreq ltac:(lia) Hbefore)
      as (Hev & Hrq & Hres).
    { rewrite H2. reflexivity. }
    fold r in Hev, Hrq, Hres.
    split; [rewrite Hres, H2; reflexivity|].
    rewrite (newEvents_app _ _ _ Hev). split; reflexivity.
Qed.

Lemma fetch_retries_are_bounded_witness :
  let env := Scenario.flakyEnv in
  let s := Scenario.aService in
  let w := Scenario.startWorld in
  let r := Notification.fetchLatestIssues env s w in
  Notification.maxRetries s = 3
  /\ clientDo env (requests w) = TransportError "dial tcp: i/o timeout"
  /\ clientDo env (requests w + 1) = TransportError "dial tcp: i/o timeout"
  /\ snd r = ([Scenario.anIssue 31 "Crash on start"], None)
  /\ List.filter isSleep (newEvents w (fst r))
     = [EvSleep config.RetryDelay; EvSleep config.RetryDelay].
Proof.
  intros env s w r.
  destruct (proj1 (proj2 (proj2 (proj2 fetch_retries_are_bounded))) env s w
              "dial tcp: i/o timeout" "dial tcp: i/o timeout"
              [Scenario.anIssue 31 "Crash on start"]
              eq_refl eq_refl eq_refl eq_refl eq_refl eq_refl)
    as (Hres & _ & Hsleeps).
  split; [reflexivity|]. split; [reflexivity|]. split; [reflexivity|].
  split; [exact Hres | exact Hsleeps].
Defined.

(** ** The message of a notification *)

Lemma length_append (s1 s2 : string) :
  String.length (s1 ++ s2) = (String.length s1 + String.length s2)%nat.
Proof.
  induction s1 as [| c s1 IH]; simpl; [reflexivity | now rewrite IH].
Qed.

Lemma length_substring_0 : forall n s,
  (n <= String.length s)%nat -> String.length (String.substring 0 n s) = n.
Proof.
  induction n as [| n IH]; intros s Hn.
  - destruct s; reflexivity.
  - destruct s as [| c s]; simpl in *; [lia|].
    rewrite IH by lia. reflexivity.
Qed.


Lemma notificationMessage_short issue :
  Go.len (Notification.formatMessage issue) <= config.MaxNotificationLength ->
  Notification.notificationMessage issue = Notification.formatMessage issue.
Proof.
  intros Hshort. unfold Notification.notificationMessage.
  destruct (Z.gtb_spec (Go.len (Notification.formatMessage issue))
              config.MaxNotificationLength); [lia | reflexivity].
Qed.

Lemma notificationMessage_long issue :
  config.MaxNotificationLength < Go.len (Notification.formatMessage issue) ->
  Notification.notificationMessage issue
  = Go.slice_to (Notification.formatMessage issue) 97 ++ "..."
  /\ Go.len (Go.slice_to (Notification.formatMessage issue) 97) = 97
  /\ Go.len (Notification.notificationMessage issue) = 100.
Proof.
  intros Hlong. unfold Notification.notificationMessage.
  destruct (Z.gtb_spec (Go.len (Notification.formatMessage issue))
              config.MaxNotificationLength) as [_ | Hle]; [| lia].
  change (config.MaxNotificationLength - 3) with 97.
  assert (H97 : Go.len (Go.slice_to (Notification.formatMessage issue) 97)
                = 97).
  { unfold Go.len, Go.slice_to in *.
    rewrite length_substring_0; [reflexivity|].
    unfold config.MaxNotificationLength in Hlong. lia. }
  split; [reflexivity|]. split; [exact H97|].
  unfold Go.len in *. rewrite length_append.
  change (String.length "...") with 3%nat. lia.
Qed.

(** ** The dispatch of one notification *)

Section Dispatch.

Import Notification.
Variable env : Env.

Ltac sink_shape Hel :=
  split; [cbn; rewrite <- ?List.app_assoc; reflexivity|];
  split; [repeat constructor; cbn; auto|];
  split; [repeat constructor|];
  split; [intros Hel; cbn;
          repeat match goal with
                 | |- context [elapse env ?k] =>
                     let H := fresh "Hk" in
                     pose proof (Hel k) as H;
                     generalize dependent (elapse env k); intros
                 end;
          split; [lia | repeat constructor; lia]|].

(** What [sendNotification] does after the flood-prevention wait: it adds
    to the log the calls that display the notification, each of them
    carrying the message, and it records the time when it is done, unless
    it leaves by the early [return] of the case "darwin". *)
Lemma sendNotification_shape s w issue :
  let w0 := awaited env s w in
  let r := sendNotification env s w issue in
  exists sink,
    events (snd (fst r)) = (events w0 ++ sink)%list
    /\ List.Forall (carries (notificationMessage issue) (HTMLURL issue)) sink
    /\ List.Forall (fun ev => isSleep ev = false) sink
    /\ ((forall k, 0 <= elapse env k) ->
        now w0 <= now (snd (fst r))
        /\ List.Forall (fun t => now w0 <= t <= now (snd (fst r)))
             (handoffTimes sink))
    /\ (lastNotifyTime (fst (fst r)) = now (snd (fst r))
        \/ (GOOS env = "darwin" /\ fst (fst r) = s
            /\ exists msg,
                run env (List.length (events w0)) = RunExitError msg))
    /\ (GOOS env = "darwin" \/ GOOS env = "windows" \/ GOOS env = "linux" ->
        List.hd_error (handoffTimes sink) = Some (now w0)).
Proof.
  intros w0 r. unfold r, sendNotification. fold (awaited env s w). fold w0.
  destruct (String.eqb_spec (GOOS env) "darwin") as [Hd | Hd].
  { unfold cmdRun.
    destruct (run env (List.length (events w0))) as [| msg | msg] eqn:Hrun;
      eexists [_]; sink_shape Hel; (split; [| reflexivity]).
    - left. reflexivity.
    - right. eauto.
    - left. reflexivity. }
  destruct (String.eqb_spec (GOOS env) "windows") as [Hw | Hw].
  { unfold beeepNotifyCall. eexists [_]; sink_shape Hel.
    split; [left; reflexivity | reflexivity]. }
  destruct (String.eqb_spec (GOOS env) "linux") as [Hl | Hl].
  { unfold cmdRun, beeepNotifyCall.
    destruct (run env (List.length (events w0))) as [| msg | msg].
    - eexists [_]; sink_shape Hel.
      split; [left; reflexivity | reflexivity].
    - eexists [_; _]; sink_shape Hel.
      split; [left; reflexivity | reflexivity].
    - eexists [_; _]; sink_shape Hel.
      split; [left; reflexivity | reflexivity]. }
  exists []. split; [cbn; now rewrite List.app_nil_r|].
  split; [constructor|]. split; [constructor|].
  split; [intros _; cbn; split; [lia | constructor]|].
  split; [left; reflexivity|].
  intros [H | [H | H]]; contradiction.
Qed.

End Dispatch.





(** ** Pull requests *)

Lemma filterIssues_from acc issues :
  List.fold_left
    (fun filteredIssues issue =>
       match PullRequest_ issue with
       | None => (filteredIssues ++ [issue])%list
       | Some _ => filteredIssues
       end)
    issues acc
  = (acc ++ List.filter (fun issue => negb (isPullRequest issue)) issues)%list.
Proof.
  revert acc. induction issues as [| issue issues IH]; intros acc; simpl.
  - now rewrite List.app_nil_r.
  - rewrite IH. unfold isPullRequest.
    destruct (PullRequest_ issue); simpl; [reflexivity|].
    now rewrite <- List.app_assoc.
Qed.

Lemma filterIssues_filter issues :
  repository.filterIssues issues
  = List.filter (fun issue => negb (isPullRequest issue)) issues.
Proof. unfold repository.filterIssues. now rewrite filterIssues_from. Qed.

(** [Repository.FetchLatestIssues] returns no pull request: when it
    returns without error, the list is the decoded one without its pull
    requests, in the order received. *)
Lemma Repository_fetch_excludes_pull_requests env r w :
  let res := repository.Repository_FetchLatestIssues env r w in
  List.Forall (fun issue => PullRequest_ issue = None) (fst (snd res))
  /\ (snd (snd res) = None ->
      exists decoded,
        clientDo env (requests w) = Response Go.StatusOK (JSON decoded)
        /\ fst (snd res)
           = List.filter (fun issue => negb (isPullRequest issue)) decoded).
Proof.
  unfold repository.Repository_FetchLatestIssues.
  destruct (newRequest env _) as [cause|].
  { simpl. split; [constructor | discriminate]. }
  unfold clientDoCall.
  destruct (clientDo env (requests w)) as [cause | code body].
  { simpl. split; [constructor | discriminate]. }
  destruct (Z.eqb_spec code Go.StatusUnauthorized).
  { simpl. split; [constructor | discriminate]. }
  destruct (Z.eqb_spec code Go.StatusOK) as [-> | Hne]; simpl.
  - destruct body as [cause | decoded]; simpl.
    + split; [constructor | discriminate].
    + rewrite filterIssues_filter. split.
      * apply List.Forall_forall. intros issue Hin.
        apply List.filter_In in Hin. destruct Hin as [_ Hno].
        unfold isPullRequest in Hno.
        destruct (PullRequest_ issue); [discriminate | reflexivity].
      * intros _. exists decoded. split; reflexivity.
  - split; [constructor | discriminate].
Qed.

(** [Service.fetchLatestIssues] of the package notification, and
    [fetchLatestIssues] of main.go, return what was decoded as it is. *)
Lemma fetchLatestIssues_returns_decoded env s w decoded :
  0 <= Notification.maxRetries s ->
  limiterWait env (List.length (events w)) = None ->
  newRequest env
    (issuesURL (Notification.owner s) (Notification.repo s)) = None ->
  clientDo env (requests w) = Response Go.StatusOK (JSON decoded) ->
  snd (Notification.fetchLatestIssues env s w) = (decoded, None).
Proof.
  intros HM Hlim Hreq Hdo.
  destruct (fetch_stops_at env s w 0%nat Hlim Hreq HM) as (_ & _ & Hres).
  - intros j Hj. lia.
  - rewrite Nat.add_0_r, Hdo. reflexivity.
  - rewrite Hres, Nat.add_0_r, Hdo. reflexivity.
Qed.

(** C7.  The list that a fetch returns should hold no entry whose field
    [PullRequest] is not null.  This fails on [fetchLatestIssues] of the
    package notification and of main.go: when the API answers with an
    issue and a pull request, the fetch returns both, the second one with
    its field [PullRequest] not null.  On the same answer [Repository.FetchLatestIssues] returns the
    issue alone. *)
Theorem fetchLatestIssues_returns_pull_request :
  let env := Scenario.mixedEnv in
  let got :=
    snd (Notification.fetchLatestIssues env Scenario.aService
           Scenario.startWorld) in
  got = ([Scenario.anIssue 8 "Crash on start";
          Scenario.aPullRequest 9 "Fix the crash"], None)
  /\ List.existsb isPullRequest (fst got) = true
  /\ snd (repository.Repository_FetchLatestIssues env Scenario.aRepository
            Scenario.startWorld)
     = ([Scenario.anIssue 8 "Crash on start"], None).
Proof. repeat split; reflexivity. Qed.

(** ** Flood prevention *)

Section FloodPrevention.

Import Notification.
Variable env : Env.
Hypothesis elapse_nonneg : forall k, 0 <= elapse env k.

(** The wait brings the clock to [NotifyDelay] after [lastNotifyTime] at
    least, when the clock was not before [lastNotifyTime]. *)
Lemma awaited_after_delay s w :
  lastNotifyTime s <= now w ->
  lastNotifyTime s + config.NotifyDelay <= now (awaited env s w).
Proof.
  intros Hmono. unfold awaited.
  destruct (Z.ltb_spec (Go.Since (now w) (lastNotifyTime s))
              config.NotifyDelay) as [Hsoon | Hlate].
  - cbn. pose proof (elapse_nonneg (List.length (events w))). lia.
  - unfold Go.Since, Go.Sub in Hlate.
    destruct (Z.ltb_spec (now w - lastNotifyTime s) Go.minDuration).
    + unfold Go.minDuration, config.NotifyDelay, Go.Millisecond in *. lia.
    + destruct (Z.ltb_spec Go.maxDuration (now w - lastNotifyTime s)).
      * unfold Go.maxDuration, config.NotifyDelay, Go.Millisecond in *. lia.
      * lia.
Qed.

(** Two dispatches, the second one in a later world and with the
    [lastNotifyTime] that the first one has left.  When the first one has
    recorded the time at which it was done, every call by which the second
    one displays its notification comes [NotifyDelay] at least after every
    such call of the first. *)
Lemma flood_prevention_after_recorded_dispatch s w issue1 s2 w2 issue2 :
  let r1 := sendNotification env s w issue1 in
  let r2 := sendNotification env s2 w2 issue2 in
  lastNotifyTime (fst (fst r1)) = now (snd (fst r1)) ->
  lastNotifyTime s2 = lastNotifyTime (fst (fst r1)) ->
  now (snd (fst r1)) <= now w2 ->
  forall t1 t2,
    List.In t1 (handoffTimes (newEvents w (snd (fst r1)))) ->
    List.In t2 (handoffTimes (newEvents w2 (snd (fst r2)))) ->
    t1 + config.NotifyDelay <= t2.
Proof.
  intros r1 r2 Hrec Hkeep Hlater t1 t2 Hin1 Hin2.
  destruct (sendNotification_shape env s w issue1)
    as [sink1 (Hev1 & _ & Hns1 & Ht1 & _)].
  destruct (sendNotification_shape env s2 w2 issue2)
    as [sink2 (Hev2 & _ & Hns2 & Ht2 & _)].
  fold r1 in Hev1, Ht1. fold r2 in Hev2, Ht2.
  destruct (Ht1 elapse_nonneg) as [_ Hall1].
  destruct (Ht2 elapse_nonneg) as [_ Hall2].
  assert (Hsub : forall s0 w0 w' sink t,
             events w' = (events (awaited env s0 w0) ++ sink)%list ->
             List.In t (handoffTimes (newEvents w0 w')) ->
             List.In t (handoffTimes sink)).
  { intros s0 w0 w' sink t Hev Hin. unfold awaited in Hev.
    destruct (Go.Since (now w0) (lastNotifyTime s0) <? config.NotifyDelay).
    - unfold timeSleep in Hev.
      rewrite events_call, <- List.app_assoc in Hev.
      rewrite (newEvents_app _ _ _ Hev) in Hin. exact Hin.
    - rewrite (newEvents_app _ _ _ Hev) in Hin. exact Hin. }
  apply (Hsub _ _ _ _ _ Hev1) in Hin1.
  apply (Hsub _ _ _ _ _ Hev2) in Hin2.
  rewrite List.Forall_forall in Hall1, Hall2.
  specialize (Hall1 _ Hin1). specialize (Hall2 _ Hin2).
  pose proof (awaited_after_delay s2 w2 ltac:(lia)). lia.
Qed.

(** The flood-prevention wait is a sleep of the whole [NotifyDelay]. *)
Lemma sendNotification_waits_notifyDelay s w issue :
  Go.Since (now w) (lastNotifyTime s) < config.NotifyDelay ->
  exists sink,
    newEvents w (snd (fst (sendNotification env s w issue)))
    = EvSleep config.NotifyDelay :: sink
    /\ List.Forall (fun ev => isSleep ev = false) sink
    /\ List.Forall (fun t => now w + config.NotifyDelay <= t)
         (handoffTimes sink)
    /\ (GOOS env = "darwin" \/ GOOS env = "windows" \/ GOOS env = "linux" ->
        List.hd_error (handoffTimes sink)
        = Some (now w + config.NotifyDelay
                + elapse env (List.length (events w)))).
Proof.
  intros Hsoon.
  destruct (sendNotification_shape env s w issue)
    as [sink (Hev & _ & Hns & Ht & _ & Hhd)].
  assert (Hw0 : awaited env s w = timeSleep env config.NotifyDelay w).
  { unfold awaited.
    destruct (Z.ltb_spec (Go.Since (now w) (lastNotifyTime s))
                config.NotifyDelay); [reflexivity | lia]. }
  rewrite Hw0 in Hev, Ht, Hhd.
  exists sink. split; [| split; [exact Hns | split]].
  - apply newEvents_app.
    rewrite Hev. unfold timeSleep. rewrite events_call, <- List.app_assoc.
    reflexivity.
  - destruct (Ht elapse_nonneg) as [_ Hall].
    eapply List.Forall_impl; [| exact Hall].
    cbn. intros t [Hlo _].
    pose proof (elapse_nonneg (List.length (events w))). lia.
  - exact Hhd.
Qed.

(** Without the wait there is no sleep. *)
Lemma sendNotification_no_wait s w issue :
  config.NotifyDelay <= Go.Since (now w) (lastNotifyTime s) ->
  List.Forall (fun ev => isSleep ev = false)
    (newEvents w (snd (fst (sendNotification env s w issue)))).
Proof.
  intros Hlate.
  destruct (sendNotification_shape env s w issue)
    as [sink (Hev & _ & Hns & _)].
  assert (Hw0 : awaited env s w = w).
  { unfold awaited.
    destruct (Z.ltb_spec (Go.Since (now w) (lastNotifyTime s))
                config.NotifyDelay); [lia | reflexivity]. }
  rewrite Hw0 in Hev. rewrite (newEvents_app _ _ _ Hev). exact Hns.
Qed.

End FloodPrevention.

(** C8.  Two consecutive handoffs to the sink should be [NotifyDelay]
    apart at least.  This fails on the early [return] of the case "darwin"
    of [sendNotification], which leaves before [lastNotifyTime] is
    written.  On a Mac where the first run of [terminal-notifier] ends with a non-zero
    status after 10ms, a cycle that fetches two new issues runs
    [terminal-notifier] for the second one 10ms after it ran it for the
    first: no sleep is made, and the two handoffs are less than
    [NotifyDelay] apart. *)
Theorem early_return_skips_flood_prevention :
  let env := Scenario.brokenNotifierEnv in
  let fetched :=
    Notification.fetchLatestIssues env Scenario.aService
      Scenario.startWorld in
  let first :=
    Notification.sendNotification env Scenario.aService (fst fetched)
      (Scenario.anIssue 20 "Crash on save") in
  let r :=
    Notification.checkForNewIssues env Scenario.aService
      Scenario.startWorld in
  GOOS env = "darwin"
  /\ snd fetched
     = ([Scenario.anIssue 20 "Crash on save";
         Scenario.anIssue 10 "Typo in README"], None)
  /\ fst (fst first) = Scenario.aService
  /\ snd first = Some Go.ErrTerminalNotifierNotInstalled
  /\ handoffTimes (events (snd (fst r)))
     = [Scenario.startTime; Scenario.startTime + 10 * Go.Millisecond]
  /\ List.filter isSleep (events (snd (fst r))) = []
  /\ 10 * Go.Millisecond < config.NotifyDelay
  /\ snd r = None.
Proof. repeat split; reflexivity. Qed.

(** C9, as the spec states it: refuted.  A dispatch that comes 200ms after
    [lastNotifyTime] sleeps 500ms, the whole [NotifyDelay], and not the
    300ms that are left. *)
Lemma waits_remaining_delay_fails : ~ waits_remaining_delay.
Proof.
  intros Hclaim.
  destruct (Hclaim (Scenario.calmEnv "linux" []) Scenario.recentService
              Scenario.startWorld (Scenario.anIssue 3 "Typo")
              ltac:(reflexivity)) as [rest Hrest].
  vm_compute in Hrest. discriminate Hrest.
Qed.

(** C9, amended.  When [sendNotification] is called less than
    [NotifyDelay] after [lastNotifyTime], it sleeps once, for the whole
    [NotifyDelay], before it hands the notification over: the sleep is the
    first call that it makes and the only sleep, every call that displays
    the notification comes [NotifyDelay] at least after the time of the
    dispatch, and on the three supported systems the first of them comes
    when the sleep ends. *)
Theorem dispatch_waits_whole_notifyDelay :
  forall env s w issue,
    (forall k, 0 <= elapse env k) ->
    let elapsed := Go.Since (now w) (Notification.lastNotifyTime s) in
    let logged :=
      newEvents w (snd (fst (Notification.sendNotification env s w issue))) in
    (elapsed < config.NotifyDelay ->
     exists sink,
       logged = EvSleep config.NotifyDelay :: sink
       /\ List.Forall (fun ev => isSleep ev = false) sink
       /\ List.Forall (fun t => now w + config.NotifyDelay <= t)
            (handoffTimes sink)
       /\ (GOOS env = "darwin" \/ GOOS env = "windows"
           \/ GOOS env = "linux" ->
           List.hd_error (handoffTimes sink)
           = Some (now w + config.NotifyDelay
                   + elapse env (List.length (events w)))))
    /\ (config.NotifyDelay <= elapsed ->
        List.Forall (fun ev => isSleep ev = false) logged).
Proof.
  intros env s w issue Hel elapsed logged. split.
  - intros Hsoon. now apply sendNotification_waits_notifyDelay.
  - intros Hlate. now apply sendNotification_no_wait.
Qed.

Lemma dispatch_waits_whole_notifyDelay_witness :
  let env := Scenario.calmEnv "linux" [] in
  let s := Scenario.recentService in
  let w := Scenario.startWorld in
  let issue := Scenario.anIssue 3 "Typo" in
  Go.Since (now w) (Notification.lastNotifyTime s) = 200 * Go.Millisecond
  /\ exists sink,
      newEvents w (snd (fst (Notification.sendNotification env s w issue)))
      = EvSleep (500 * Go.Millisecond) :: sink
      /\ List.hd_error (handoffTimes sink)
         = Some (Scenario.startTime + 500 * Go.Millisecond).
Proof.
  intros env s w issue.
  split; [reflexivity|].
  assert (Hel : forall k, 0 <= elapse env k)
    by (intros k; vm_compute; discriminate).
  destruct (proj1 (dispatch_waits_whole_notifyDelay env s w issue Hel))
    as [sink (Hev & _ & _ & Hhd)].
  - reflexivity.
  - exists sink. split; [exact Hev|].
    rewrite Hhd; [reflexivity|]. right. right. reflexivity.
Defined.

(** * More of the code *)

(** ** Strings *)

Lemma append_nil_r (s : string) : s ++ EmptyString = s.
Proof. induction s as [| c s IH]; simpl; [reflexivity | now rewrite IH]. Qed.

Lemma append_assoc (a b c : string) : (a ++ b) ++ c = a ++ (b ++ c).
Proof. induction a as [| x a IH]; simpl; [reflexivity | now rewrite IH]. Qed.

Lemma append_cancel_l (p a b : string) : p ++ a = p ++ b -> a = b.
Proof.
  induction p as [| c p IH]; simpl; intros H; [exact H|].
  injection H as H. now apply IH.
Qed.

Lemma substring_0_length (s : string) :
  String.substring 0 (String.length s) s = s.
Proof. induction s as [| c s IH]; simpl; [reflexivity | now rewrite IH]. Qed.

Lemma substring_0_append (a b : string) :
  String.substring 0 (String.length a) (a ++ b) = a.
Proof.
  induction a as [| c a IH]; simpl.
  - destruct b; reflexivity.
  - now rewrite IH.
Qed.

Lemma substring_skip_append (a b : string) (n : nat) :
  String.substring (String.length a) n (a ++ b) = String.substring 0 n b.
Proof. induction a as [| c a IH]; simpl; [reflexivity | exact IH]. Qed.

Lemma substring_split : forall (n : nat) (s : string),
  (n <= String.length s)%nat ->
  s = String.substring 0 n s
      ++ String.substring n (String.length s - n) s.
Proof.
  induction n as [| n IH]; intros s Hn.
  - rewrite Nat.sub_0_r, substring_0_length.
    destruct s; reflexivity.
  - destruct s as [| c s]; simpl in *; [lia|].
    f_equal. apply IH. lia.
Qed.

Lemma HasPrefix_spec (s prefix : string) :
  strings.HasPrefix s prefix = true <-> exists rest, s = prefix ++ rest.
Proof.
  unfold strings.HasPrefix. rewrite Bool.andb_true_iff, Nat.leb_le.
  rewrite String.eqb_eq. split.
  - intros [Hlen Heq].
    exists (String.substring (String.length prefix)
              (String.length s - String.length prefix) s).
    rewrite <- Heq at 1. now apply substring_split.
  - intros [rest ->]. rewrite length_append, substring_0_append.
    split; [lia | reflexivity].
Qed.

Lemma TrimPrefix_append (prefix rest : string) :
  strings.TrimPrefix (prefix ++ rest) prefix = rest.
Proof.
  unfold strings.TrimPrefix.
  destruct (strings.HasPrefix (prefix ++ rest) prefix) eqn:Hp.
  - rewrite substring_skip_append, length_append.
    replace (String.length prefix + String.length rest
             - String.length prefix)%nat
      with (String.length rest) by lia.
    apply substring_0_length.
  - assert (strings.HasPrefix (prefix ++ rest) prefix = true)
      by (apply HasPrefix_spec; eauto).
    congruence.
Qed.

Lemma HasSuffix_spec (s suffix : string) :
  strings.HasSuffix s suffix = true <-> exists rest, s = rest ++ suffix.
Proof.
  unfold strings.HasSuffix. rewrite Bool.andb_true_iff, Nat.leb_le.
  rewrite String.eqb_eq. split.
  - intros [Hlen Heq].
    exists (String.substring 0 (String.length s - String.length suffix) s).
    pose proof (substring_split (String.length s - String.length suffix) s
                  ltac:(lia)) as Hsplit.
    replace (String.length s - (String.length s - String.length suffix))%nat
      with (String.length suffix) in Hsplit by lia.
    rewrite Heq in Hsplit. exact Hsplit.
  - intros [rest ->]. rewrite length_append.
    replace (String.length rest + String.length suffix
             - String.length suffix)%nat
      with (String.length rest) by lia.
    rewrite substring_skip_append, substring_0_length.
    split; [lia | reflexivity].
Qed.

Lemma TrimSuffix_append (rest suffix : string) :
  strings.TrimSuffix (rest ++ suffix) suffix = rest.
Proof.
  unfold strings.TrimSuffix.
  destruct (strings.HasSuffix (rest ++ suffix) suffix) eqn:Hs.
  - rewrite length_append.
    replace (String.length rest + String.length suffix
             - String.length suffix)%nat
      with (String.length rest) by lia.
    apply substring_0_append.
  - assert (strings.HasSuffix (rest ++ suffix) suffix = true)
      by (apply HasSuffix_spec; eauto).
    congruence.
Qed.

Lemma TrimSuffix_without (s suffix : string) :
  (forall rest, s <> rest ++ suffix) -> strings.TrimSuffix s suffix = s.
Proof.
  intros Hno. unfold strings.TrimSuffix.
  destruct (strings.HasSuffix s suffix) eqn:Hs; [| reflexivity].
  apply HasSuffix_spec in Hs. destruct Hs as [rest ->].
  now destruct (Hno rest).
Qed.

Lemma Split_not_nil (s : string) (sep : ascii) : strings.Split s sep <> [].
Proof.
  destruct s as [| c s]; simpl; [discriminate|].
  destruct (Ascii.eqb c sep); [discriminate|].
  destruct (strings.Split s sep); discriminate.
Qed.

Lemma Split_without (s : string) (sep : ascii) :
  without sep s = true -> strings.Split s sep = [s].
Proof.
  induction s as [| c s IH]; simpl; [reflexivity|].
  intros H. apply Bool.andb_true_iff in H. destruct H as [Hc Hs].
  apply Bool.negb_true_iff in Hc. rewrite Hc, (IH Hs). reflexivity.
Qed.

Lemma Split_append (a b : string) (sep : ascii) :
  without sep a = true ->
  strings.Split (a ++ String sep b) sep = a :: strings.Split b sep.
Proof.
  induction a as [| c a IH]; simpl.
  - intros _. now rewrite Ascii.eqb_refl.
  - intros H. apply Bool.andb_true_iff in H. destruct H as [Hc Ha].
    apply Bool.negb_true_iff in Hc. rewrite Hc, (IH Ha). reflexivity.
Qed.

Lemma Split_parts_without (s : string) (sep : ascii) :
  List.Forall (fun part => without sep part = true) (strings.Split s sep).
Proof.
  induction s as [| c s IH]; simpl.
  - repeat constructor.
  - destruct (Ascii.eqb c sep) eqn:Hc.
    + constructor; [reflexivity | exact IH].
    + destruct (strings.Split s sep) as [| part parts].
      * repeat constructor. simpl. now rewrite Hc.
      * inversion IH; subst. constructor; [| assumption].
        simpl. rewrite Hc. assumption.
Qed.

(** Joining the pieces with the separator gives the string back. *)
Lemma Split_join (s : string) (sep : ascii) :
  String.concat (String sep EmptyString) (strings.Split s sep) = s.
Proof.
  induction s as [| c s IH]; simpl; [reflexivity|].
  destruct (Ascii.eqb_spec c sep) as [-> | Hc].
  - pose proof (Split_not_nil s sep) as Hne.
    destruct (strings.Split s sep) as [| part parts]; [congruence|].
    simpl in *. now rewrite IH.
  - destruct (strings.Split s sep) as [| part parts] eqn:Hs.
    + now destruct (Split_not_nil s sep).
    + destruct parts as [| part2 parts]; simpl in *; now rewrite <- IH.
Qed.

Lemma Split_two (s a b : string) (sep : ascii) :
  strings.Split s sep = [a; b]
  <-> s = a ++ String sep b /\ without sep a = true /\ without sep b = true.
Proof.
  split.
  - intros Hs.
    pose proof (Split_join s sep) as Hj.
    pose proof (Split_parts_without s sep) as Hw.
    rewrite Hs in Hj, Hw. simpl in Hj.
    inversion Hw as [| ? ? Ha Hw']; subst.
    inversion Hw' as [| ? ? Hb _]; subst.
    split; [now symmetry | split; assumption].
  - intros (-> & Ha & Hb). now rewrite Split_append, Split_without.
Qed.

(** Two ways to cut a string at a separator after which no separator
    comes are the same. *)
Lemma last_separator_unique (sep : ascii) : forall a a' b b' : string,
  a ++ String sep b = a' ++ String sep b' ->
  without sep b = true -> without sep b' = true ->
  a = a' /\ b = b'.
Proof.
  assert (Hin : forall x y, without sep (x ++ String sep y) = false).
  { induction x as [| c x IH]; intros y; simpl.
    - now rewrite Ascii.eqb_refl.
    - rewrite IH. apply Bool.andb_false_r. }
  induction a as [| c a IH]; intros a' b b' Heq Hb Hb'.
  - destruct a' as [| c' a']; simpl in Heq.
    + split; [reflexivity | congruence].
    + injection Heq as _ Heq. rewrite Heq, Hin in Hb. discriminate.
  - destruct a' as [| c' a']; simpl in Heq.
    + injection Heq as _ Heq. rewrite <- Heq, Hin in Hb'. discriminate.
    + injection Heq as -> Heq.
      destruct (IH a' b b' Heq Hb Hb') as [-> ->]. split; reflexivity.
Qed.

(** ** The parsers of the repository URL *)

Lemma ownerAndRepo_ok parts invalid owner repo :
  github.ownerAndRepo parts invalid = (owner, repo, None)
  <-> parts = [owner; repo] /\ owner <> EmptyString /\ repo <> EmptyString.
Proof.
  unfold github.ownerAndRepo.
  destruct parts as [| p0 [| p1 [| p2 parts]]]; simpl;
    try (split; [discriminate | intros [H _]; discriminate]).
  destruct (String.eqb_spec p0 EmptyString) as [-> | H0]; simpl.
  - split; [discriminate|]. intros (H & Ho & _). congruence.
  - destruct (String.eqb_spec p1 EmptyString) as [-> | H1]; simpl.
    + split; [discriminate|]. intros (H & _ & Hr). congruence.
    + split.
      * intros H. injection H as -> ->. auto.
      * intros (H & _ & _). injection H as -> ->. reflexivity.
Qed.

Lemma ownerAndRepo_error parts invalid owner repo err :
  github.ownerAndRepo parts invalid = (owner, repo, Some err) ->
  owner = EmptyString /\ repo = EmptyString
  /\ (err = invalid \/ err = github.errEmpty).
Proof.
  unfold github.ownerAndRepo.
  destruct (negb (Nat.eqb (List.length parts) 2)).
  - intros H. injection H as <- <- <-. auto.
  - destruct (_ || _); intros H; [| discriminate].
    injection H as <- <- <-. auto.
Qed.

(** A path [owner/repo] of two names does not start with the prefix. *)
Lemma names_without_prefix owner repo :
  without "/"%char owner = true -> without "/"%char repo = true ->
  strings.HasPrefix (owner ++ String "/"%char repo) github.gitHubPrefix
  = false.
Proof.
  intros Ho Hr.
  destruct (strings.HasPrefix _ _) eqn:Hp; [| reflexivity].
  apply HasPrefix_spec in Hp. destruct Hp as [rest Hrest].
  assert (Hs : strings.Split (owner ++ String "/"%char repo) "/"%char
               = [owner; repo])
    by (apply Split_two; auto).
  rewrite Hrest in Hs.
  change (github.gitHubPrefix ++ rest)
    with ("https:" ++ String "/"%char
            (EmptyString ++ String "/"%char
               ("github.com" ++ String "/"%char rest))) in Hs.
  rewrite !Split_append in Hs by reflexivity.
  pose proof (Split_not_nil rest "/"%char).
  destruct (strings.Split rest "/"%char); [congruence | discriminate].
Qed.

Lemma repoURL_trim_slash owner repo :
  isName repo ->
  strings.TrimSuffix (repoURL owner repo) "/" = repoURL owner repo.
Proof.
  intros [Hne Hw]. apply TrimSuffix_without. intros rest Heq.
  unfold repoURL in Heq. rewrite <- append_assoc in Heq.
  change ((github.gitHubPrefix ++ owner) ++ "/" ++ repo)
    with ((github.gitHubPrefix ++ owner) ++ String "/"%char repo) in Heq.
  change (rest ++ "/") with (rest ++ String "/"%char EmptyString) in Heq.
  destruct (last_separator_unique _ _ _ _ _ Heq Hw eq_refl) as [_ ->].
  now apply Hne.
Qed.

Lemma repoURL_trim_issues owner repo :
  isName repo -> repo <> "issues" ->
  strings.TrimSuffix (repoURL owner repo) "/issues" = repoURL owner repo.
Proof.
  intros [Hne Hw] Hnot. apply TrimSuffix_without. intros rest Heq.
  unfold repoURL in Heq. rewrite <- append_assoc in Heq.
  change ((github.gitHubPrefix ++ owner) ++ "/" ++ repo)
    with ((github.gitHubPrefix ++ owner) ++ String "/"%char repo) in Heq.
  change (rest ++ "/issues") with (rest ++ String "/"%char "issues") in Heq.
  destruct (last_separator_unique _ _ _ _ _ Heq Hw eq_refl) as [_ ->].
  now apply Hnot.
Qed.

Lemma issues_trim_slash (s : string) :
  strings.TrimSuffix (s ++ "/issues") "/" = s ++ "/issues".
Proof.
  apply TrimSuffix_without. intros rest Heq.
  change (s ++ "/issues") with (s ++ String "/"%char "issues") in Heq.
  change (rest ++ "/") with (rest ++ String "/"%char EmptyString) in Heq.
  destruct (last_separator_unique _ _ _ _ _ Heq eq_refl eq_refl) as [_ H].
  discriminate H.
Qed.

(** The parser of internal/github/parser.go succeeds exactly on the URLs
    that, once trimmed, are the prefix, a name, [/] and a name; it
    returns the two names then. *)
Lemma ParseGitHubURL_ok url owner repo :
  github.ParseGitHubURL url = (owner, repo, None)
  <-> trimmedURL url = repoURL owner repo /\ isName owner /\ isName repo.
Proof.
  unfold github.ParseGitHubURL. fold (trimmedURL url). unfold repoURL, isName.
  destruct (strings.HasPrefix (trimmedURL url) github.gitHubPrefix) eqn:Hp;
    cbn [negb].
  - apply HasPrefix_spec in Hp. destruct Hp as [path Hpath].
    rewrite Hpath, TrimPrefix_append, ownerAndRepo_ok, Split_two.
    split.
    + intros ((-> & Ho & Hr) & Hone & Hrne). auto.
    + intros (Heq & (Hone & Ho) & (Hrne & Hr)).
      rewrite ?Hpath in Heq. apply append_cancel_l in Heq. subst path.
      auto.
  - split; [discriminate|]. intros (Heq & _).
    assert (strings.HasPrefix (trimmedURL url) github.gitHubPrefix = true)
      by (apply HasPrefix_spec; rewrite Heq; eauto).
    congruence.
Qed.

(** The parser of main.go succeeds exactly on the URLs that, once trimmed,
    are a name, [/] and a name, with or without the prefix before. *)
Lemma parseGitHubURL_ok url owner repo :
  github.parseGitHubURL url = (owner, repo, None)
  <-> (trimmedURL url = repoURL owner repo
       \/ trimmedURL url = owner ++ "/" ++ repo)
      /\ isName owner /\ isName repo.
Proof.
  unfold github.parseGitHubURL. fold (trimmedURL url). unfold repoURL, isName.
  destruct (strings.HasPrefix (trimmedURL url) github.gitHubPrefix) eqn:Hp.
  - pose proof Hp as Hp'.
    apply HasPrefix_spec in Hp. destruct Hp as [path Hpath].
    rewrite Hpath, TrimPrefix_append, ownerAndRepo_ok, Split_two.
    split.
    + intros ((-> & Ho & Hr) & Hone & Hrne). auto.
    + intros ([Heq | Heq] & (Hone & Ho) & (Hrne & Hr)).
      * rewrite ?Hpath in Heq. apply append_cancel_l in Heq. subst path.
        auto.
      * rewrite Hpath, Heq in Hp'.
        change (owner ++ "/" ++ repo)
          with (owner ++ String "/"%char repo) in Hp'.
        rewrite names_without_prefix in Hp' by assumption. discriminate.
  - rewrite ownerAndRepo_ok, Split_two. split.
    + intros ((Heq & Ho & Hr) & Hone & Hrne). auto.
    + intros ([Heq | Heq] & (Hone & Ho) & (Hrne & Hr)).
      * assert (strings.HasPrefix (trimmedURL url) github.gitHubPrefix
                = true)
          by (apply HasPrefix_spec; rewrite Heq; eauto).
        congruence.
      * auto.
Qed.

Lemma trimmedURL_tails url owner repo tail :
  isName repo -> repo <> "issues" ->
  strings.TrimSpace url = repoURL owner repo ++ tail ->
  List.In tail [EmptyString; "/"; "/issues"; "/issues/"] ->
  trimmedURL url = repoURL owner repo.
Proof.
  intros Hrepo Hnot Htrim Htail. unfold trimmedURL. rewrite Htrim.
  simpl in Htail.
  destruct Htail as [<- | [<- | [<- | [<- | []]]]].
  - rewrite append_nil_r, repoURL_trim_slash by assumption.
    now apply repoURL_trim_issues.
  - rewrite TrimSuffix_append. now apply repoURL_trim_issues.
  - rewrite issues_trim_slash. apply TrimSuffix_append.
  - change "/issues/" with ("/issues" ++ "/").
    rewrite <- append_assoc, TrimSuffix_append. apply TrimSuffix_append.
Qed.

Lemma trimmedURL_named_issues url owner :
  strings.TrimSpace url = repoURL owner "issues"
  \/ strings.TrimSpace url = repoURL owner "issues" ++ "/" ->
  trimmedURL url = github.gitHubPrefix ++ owner.
Proof.
  assert (Hshape : repoURL owner "issues"
                   = (github.gitHubPrefix ++ owner) ++ "/issues")
    by (unfold repoURL; now rewrite <- append_assoc).
  intros [Htrim | Htrim]; unfold trimmedURL; rewrite Htrim.
  - rewrite Hshape, issues_trim_slash. apply TrimSuffix_append.
  - rewrite TrimSuffix_append, Hshape. apply TrimSuffix_append.
Qed.

(** X1.  [ParseGitHubURL] of internal/github/parser.go returns an owner
    and a repository without error exactly when the URL, once its
    surrounding white space, one final [/] and then one final [/issues] are
    removed, is [https://github.com/], a name, [/] and a name, the names
    being not empty and without [/]; the two names are what it returns.
    When it returns an error the owner and the repository are empty and the
    error is one of its three messages. *)
Theorem ParseGitHubURL_accepts_exactly :
  forall url owner repo,
    (github.ParseGitHubURL url = (owner, repo, None)
     <-> trimmedURL url = repoURL owner repo /\ isName owner /\ isName repo)
    /\ forall err,
        github.ParseGitHubURL url = (owner, repo, Some err) ->
        owner = EmptyString /\ repo = EmptyString
        /\ List.In err [github.errMustStartWith; github.errExpectedFull;
                        github.errEmpty].
Proof.
  intros url owner repo. split; [apply ParseGitHubURL_ok|].
  intros err. unfold github.ParseGitHubURL.
  destruct (negb _).
  - intros H. injection H as <- <- <-.
    split; [reflexivity | split; [reflexivity | left; reflexivity]].
  - intros H. apply ownerAndRepo_error in H.
    destruct H as (-> & -> & [-> | ->]);
      (split; [reflexivity | split; [reflexivity|]]).
    + right. left. reflexivity.
    + right. right. left. reflexivity.
Qed.

Lemma ParseGitHubURL_accepts_exactly_witness :
  let url :=
    String " "%char "https://github.com/golang/go/issues/" ++ Go.nl in
  trimmedURL url = repoURL "golang" "go"
  /\ isName "golang" /\ isName "go"
  /\ github.ParseGitHubURL url = ("golang", "go", None).
Proof.
  intros url.
  assert (Htrim : trimmedURL url = repoURL "golang" "go") by reflexivity.
  assert (Ho : isName "golang") by (split; [discriminate | reflexivity]).
  assert (Hr : isName "go") by (split; [discriminate | reflexivity]).
  split; [exact Htrim|]. split; [exact Ho|]. split; [exact Hr|].
  exact (proj2 (proj1 (ParseGitHubURL_accepts_exactly url "golang" "go"))
           (conj Htrim (conj Ho Hr))).
Defined.

(** X2.  [parseGitHubURL] of main.go (and the copy of it in the package
    github) returns an owner and a repository without error exactly when
    the URL, once trimmed in the same way, is a name, [/] and a name, with
    or without [https://github.com/] before them.  When it returns an error
    the owner and the repository are empty and the error is one of its two
    messages. *)
Theorem parseGitHubURL_accepts_exactly :
  forall url owner repo,
    (github.parseGitHubURL url = (owner, repo, None)
     <-> (trimmedURL url = repoURL owner repo
          \/ trimmedURL url = owner ++ "/" ++ repo)
         /\ isName owner /\ isName repo)
    /\ forall err,
        github.parseGitHubURL url = (owner, repo, Some err) ->
        owner = EmptyString /\ repo = EmptyString
        /\ List.In err [github.errExpectedEither; github.errEmpty].
Proof.
  intros url owner repo. split; [apply parseGitHubURL_ok|].
  intros err H. unfold github.parseGitHubURL in H.
  apply ownerAndRepo_error in H.
  destruct H as (-> & -> & [-> | ->]);
    (split; [reflexivity | split; [reflexivity|]]).
  - left. reflexivity.
  - right. left. reflexivity.
Qed.

Lemma parseGitHubURL_accepts_exactly_witness :
  let url := "golang/go/" in
  trimmedURL url = "golang" ++ "/" ++ "go"
  /\ isName "golang" /\ isName "go"
  /\ github.parseGitHubURL url = ("golang", "go", None).
Proof.
  intros url.
  assert (Htrim : trimmedURL url = "golang" ++ "/" ++ "go") by reflexivity.
  assert (Ho : isName "golang") by (split; [discriminate | reflexivity]).
  assert (Hr : isName "go") by (split; [discriminate | reflexivity]).
  split; [exact Htrim|]. split; [exact Ho|]. split; [exact Hr|].
  exact (proj2 (proj1 (parseGitHubURL_accepts_exactly url "golang" "go"))
           (conj (or_intror Htrim) (conj Ho Hr))).
Defined.

(** X3.  Whatever the parser of parser.go accepts, the parser of main.go
    accepts with the same owner and repository.  The converse fails on the
    short form: a URL that is trimmed to [owner/repo] is accepted by the
    parser of main.go and refused by the one of parser.go, with the error
    that asks for the prefix. *)
Theorem lenient_parser_extends_strict :
  (forall url owner repo,
      github.ParseGitHubURL url = (owner, repo, None) ->
      github.parseGitHubURL url = (owner, repo, None))
  /\ (forall url owner repo,
         isName owner -> isName repo ->
         trimmedURL url = owner ++ "/" ++ repo ->
         github.parseGitHubURL url = (owner, repo, None)
         /\ github.ParseGitHubURL url
            = (EmptyString, EmptyString, Some github.errMustStartWith)).
Proof.
  split.
  - intros url owner repo H. apply ParseGitHubURL_ok in H.
    apply parseGitHubURL_ok. tauto.
  - intros url owner repo Ho Hr Htrim. split.
    + apply parseGitHubURL_ok. tauto.
    + unfold github.ParseGitHubURL. fold (trimmedURL url). rewrite Htrim.
      change (owner ++ "/" ++ repo) with (owner ++ String "/"%char repo).
      rewrite names_without_prefix; [reflexivity | apply Ho | apply Hr].
Qed.

Lemma lenient_parser_extends_strict_witness :
  isName "golang" /\ isName "go"
  /\ trimmedURL "golang/go" = "golang" ++ "/" ++ "go"
  /\ github.parseGitHubURL "golang/go" = ("golang", "go", None)
  /\ github.ParseGitHubURL "golang/go"
     = (EmptyString, EmptyString, Some github.errMustStartWith).
Proof.
  assert (Ho : isName "golang") by (split; [discriminate | reflexivity]).
  assert (Hr : isName "go") by (split; [discriminate | reflexivity]).
  split; [exact Ho|]. split; [exact Hr|]. split; [reflexivity|].
  exact (proj2 lenient_parser_extends_strict "golang/go" "golang" "go"
           Ho Hr eq_refl).
Defined.

(** X4.  Both parsers accept the full URL of a repository, followed or not
    by [/], by [/issues] or by [/issues/], and return its owner and its
    name, when the name of the repository is not [issues]. *)
Theorem parsers_accept_repository_url :
  forall url owner repo tail,
    isName owner -> isName repo -> repo <> "issues" ->
    strings.TrimSpace url = repoURL owner repo ++ tail ->
    List.In tail [EmptyString; "/"; "/issues"; "/issues/"] ->
    github.ParseGitHubURL url = (owner, repo, None)
    /\ github.parseGitHubURL url = (owner, repo, None).
Proof.
  intros url owner repo tail Ho Hr Hnot Htrim Htail.
  pose proof (trimmedURL_tails url owner repo tail Hr Hnot Htrim Htail).
  split.
  - apply ParseGitHubURL_ok. tauto.
  - apply parseGitHubURL_ok. tauto.
Qed.

Lemma parsers_accept_repository_url_witness :
  let url := "https://github.com/Vedant-Gandhi/Github-Notifier/issues/" in
  isName "Vedant-Gandhi" /\ isName "Github-Notifier"
  /\ github.ParseGitHubURL url = ("Vedant-Gandhi", "Github-Notifier", None)
  /\ github.parseGitHubURL url = ("Vedant-Gandhi", "Github-Notifier", None).
Proof.
  intros url.
  assert (Ho : isName "Vedant-Gandhi")
    by (split; [discriminate | reflexivity]).
  assert (Hr : isName "Github-Notifier")
    by (split; [discriminate | reflexivity]).
  split; [exact Ho|]. split; [exact Hr|].
  apply (parsers_accept_repository_url url "Vedant-Gandhi" "Github-Notifier"
           "/issues/" Ho Hr).
  - discriminate.
  - reflexivity.
  - simpl. auto.
Defined.

(** X5.  A repository whose name is [issues] cannot be given by its URL:
    the final [/issues] is taken for the path of the issue list, and both
    parsers refuse what is left, with their error on the format. *)
Theorem repository_named_issues_is_refused :
  forall url owner,
    isName owner ->
    strings.TrimSpace url = repoURL owner "issues"
    \/ strings.TrimSpace url = repoURL owner "issues" ++ "/" ->
    github.ParseGitHubURL url
    = (EmptyString, EmptyString, Some github.errExpectedFull)
    /\ github.parseGitHubURL url
       = (EmptyString, EmptyString, Some github.errExpectedEither).
Proof.
  intros url owner [_ Ho] Htrim.
  pose proof (trimmedURL_named_issues url owner Htrim) as Ht.
  assert (Hp : strings.HasPrefix (github.gitHubPrefix ++ owner)
                 github.gitHubPrefix = true)
    by (apply HasPrefix_spec; eauto).
  unfold github.ParseGitHubURL, github.parseGitHubURL.
  fold (trimmedURL url). rewrite Ht, Hp, TrimPrefix_append.
  rewrite (Split_without _ _ Ho). split; reflexivity.
Qed.

Lemma repository_named_issues_is_refused_witness :
  let url := "https://github.com/octocat/issues" in
  isName "octocat"
  /\ strings.TrimSpace url = repoURL "octocat" "issues"
  /\ github.parseGitHubURL url
     = (EmptyString, EmptyString, Some github.errExpectedEither).
Proof.
  intros url.
  assert (Ho : isName "octocat") by (split; [discriminate | reflexivity]).
  split; [exact Ho|]. split; [reflexivity|].
  exact (proj2 (repository_named_issues_is_refused url "octocat" Ho
                  (or_introl eq_refl))).
Defined.

(** ** Start-up *)

Lemma pollIntervalOf_cases p :
  let envInterval := startup.Getenv p "POLL_INTERVAL" in
  (envInterval = EmptyString ->
   startup.pollIntervalOf p = config.DefaultPollInterval)
  /\ (envInterval <> EmptyString ->
      startup.ParseDuration p envInterval = None ->
      startup.pollIntervalOf p = config.DefaultPollInterval)
  /\ (forall d,
         envInterval <> EmptyString ->
         startup.ParseDuration p envInterval = Some d ->
         startup.pollIntervalOf p = Z.max d config.MinPollInterval).
Proof.
  cbv zeta. unfold startup.pollIntervalOf.
  destruct (String.eqb_spec (startup.Getenv p "POLL_INTERVAL") EmptyString)
    as [Hempty | Hset]; cbn [negb].
  - split; [reflexivity|]. split; [intros H; now destruct H|].
    intros d H. now destruct H.
  - split; [intros H; now destruct Hset|]. split.
    + intros _ ->. reflexivity.
    + intros d _ ->.
      destruct (Z.ltb_spec d config.MinPollInterval); lia.
Qed.

Lemma pollIntervalOf_floor p :
  config.MinPollInterval <= startup.pollIntervalOf p.
Proof.
  destruct (pollIntervalOf_cases p) as (Hempty & Hbad & Hgood).
  cbv zeta in *.
  destruct (String.eqb_spec (startup.Getenv p "POLL_INTERVAL") EmptyString)
    as [He | Hs].
  - rewrite (Hempty He). discriminate.
  - destruct (startup.ParseDuration p (startup.Getenv p "POLL_INTERVAL"))
      as [d|] eqn:Hp.
    + rewrite (Hgood d Hs eq_refl). lia.
    + rewrite (Hbad Hs eq_refl). discriminate.
Qed.

(** X6.  A service never polls more often than once a minute: the
    [pollInterval] of the service that [NewNotificationService] of main.go
    builds, and of the one that [main] builds with the package
    notification, is [MinPollInterval] at least, whatever [POLL_INTERVAL]
    holds.  It is the default of five minutes when [POLL_INTERVAL] is
    empty or does not parse, and otherwise the larger of the duration
    parsed from it and of one minute. *)
Theorem poll_interval_has_a_floor :
  forall p s,
    (startup.NewNotificationService p = (Some s, None)
     \/ startup.mainService p = inl s) ->
    let envInterval := startup.Getenv p "POLL_INTERVAL" in
    config.MinPollInterval = 60 * Go.Second
    /\ config.DefaultPollInterval = 300 * Go.Second
    /\ config.MinPollInterval <= Notification.pollInterval s
    /\ (envInterval = EmptyString ->
        Notification.pollInterval s = config.DefaultPollInterval)
    /\ (envInterval <> EmptyString ->
        startup.ParseDuration p envInterval = None ->
        Notification.pollInterval s = config.DefaultPollInterval)
    /\ (forall d,
           envInterval <> EmptyString ->
           startup.ParseDuration p envInterval = Some d ->
           Notification.pollInterval s = Z.max d config.MinPollInterval).
Proof.
  intros p s Hbuilt envInterval.
  split; [reflexivity|]. split; [reflexivity|].
  assert (Notification.pollInterval s = startup.pollIntervalOf p) as ->.
  { destruct Hbuilt as [H | H].
    - unfold startup.NewNotificationService in H.
      destruct (String.eqb _ _); [discriminate|].
      destruct (github.parseGitHubURL _) as [[owner repo] [err|]];
        [discriminate|].
      injection H as <-. reflexivity.
    - unfold startup.mainService in H.
      destruct (String.eqb _ _); [discriminate|].
      destruct (github.ParseGitHubURL _) as [[owner repo] [err|]];
        [discriminate|].
      injection H as <-. reflexivity. }
  split; [apply pollIntervalOf_floor | apply pollIntervalOf_cases].
Qed.

Lemma poll_interval_has_a_floor_witness :
  exists hasty patient,
    startup.NewNotificationService hastyProcess = (Some hasty, None)
    /\ startup.NewNotificationService patientProcess = (Some patient, None)
    /\ startup.ParseDuration hastyProcess
         (startup.Getenv hastyProcess "POLL_INTERVAL") = Some (10 * Go.Second)
    /\ startup.ParseDuration patientProcess
         (startup.Getenv patientProcess "POLL_INTERVAL")
       = Some (600 * Go.Second)
    /\ Notification.pollInterval hasty = Z.max (10 * Go.Second) (60 * Go.Second)
    /\ Notification.pollInterval patient
       = Z.max (600 * Go.Second) (60 * Go.Second)
    /\ Notification.pollInterval patient = 600 * Go.Second.
Proof.
  eexists. eexists.
  split; [reflexivity|]. split; [reflexivity|].
  split; [reflexivity|]. split; [reflexivity|].
  split; [| split; [| reflexivity]].
  - apply (proj2 (proj2 (proj2 (proj2 (proj2
             (poll_interval_has_a_floor hastyProcess _
                (or_introl eq_refl))))))); [discriminate | reflexivity].
  - apply (proj2 (proj2 (proj2 (proj2 (proj2
             (poll_interval_has_a_floor patientProcess _
                (or_introl eq_refl))))))); [discriminate | reflexivity].
Defined.

(** X7.  [NewNotificationService] returns either a service or an error,
    never both and never neither.  The service that it returns watches an
    owner and a repository that are not empty and hold no [/], the ones that
    [parseGitHubURL] finds in [GITHUB_REPO_URL]; it starts with
    [lastCheckID] 0 and has three retries.  The error is that the variable
    is not set, or the error of the parser after
    [invalid repository URL: ]. *)
Theorem NewNotificationService_result :
  forall p,
    let url := startup.Getenv p "GITHUB_REPO_URL" in
    (exists s,
        startup.NewNotificationService p = (Some s, None)
        /\ url <> EmptyString
        /\ github.parseGitHubURL url
           = (Notification.owner s, Notification.repo s, None)
        /\ isName (Notification.owner s) /\ isName (Notification.repo s)
        /\ Notification.lastCheckID s = 0
        /\ Notification.maxRetries s = 3
        /\ Notification.lastNotifyTime s = Go.zeroTime)
    \/ (startup.NewNotificationService p
        = (None, Some startup.errRepoURLNotSet)
        /\ url = EmptyString)
    \/ (exists err,
           startup.NewNotificationService p
           = (None, Some ("invalid repository URL: " ++ err))
           /\ url <> EmptyString
           /\ github.parseGitHubURL url
              = (EmptyString, EmptyString, Some err)).
Proof.
  intros p url. unfold startup.NewNotificationService. fold url.
  destruct (String.eqb_spec url EmptyString) as [Hempty | Hset].
  - right. left. auto.
  - destruct (github.parseGitHubURL url) as [[owner repo] [err|]] eqn:Hparse.
    + right. right. exists err.
      unfold github.parseGitHubURL in Hparse.
      apply ownerAndRepo_error in Hparse.
      destruct Hparse as (-> & -> & _). auto.
    + left. eexists. split; [reflexivity|]. simpl.
      apply parseGitHubURL_ok in Hparse.
      destruct Hparse as (_ & Ho & Hr). auto 10.
Qed.

(** ** More on the fetch with retries *)

Lemma sleepTotal_retrySteps : forall k a,
  sleepTotal (retrySteps a k) = Z.of_nat k * config.RetryDelay.
Proof.
  induction k as [| k IH]; intros a; [reflexivity|].
  cbn [retrySteps sleepTotal List.fold_right].
  fold (sleepTotal (retrySteps (S a) k)). rewrite IH. lia.
Qed.

Lemma settles_ok o issues :
  retryable o = false ->
  (settles o = (issues, None)
   <-> o = Response Go.StatusOK (JSON issues)).
Proof.
  unfold settles, retryable, terminalError.
  destruct o as [cause | code body]; [discriminate|].
  destruct (Z.eqb_spec code Go.StatusUnauthorized) as [-> | Hne]; simpl.
  - intros _. split; discriminate.
  - destruct (Z.eqb_spec code Go.StatusOK) as [-> | Hne2];
      [| discriminate].
    intros _. destruct body as [cause | decoded].
    + split; discriminate.
    + split; intros H; injection H as ->; reflexivity.
Qed.

(** X8.  [fetchLatestIssues] returns a list without error exactly when the
    rate limiter and the construction of the request succeed and one of
    the attempts [0] to [maxRetries] gets the status 200 with a body that
    decodes, every attempt before it having got no response or a status
    that is neither 401 nor 200; the list is the decoded one. *)
Theorem fetch_succeeds_exactly :
  forall env s w issues,
    0 <= Notification.maxRetries s ->
    (snd (Notification.fetchLatestIssues env s w) = (issues, None)
     <-> limiterWait env (List.length (events w)) = None
         /\ newRequest env
              (issuesURL (Notification.owner s) (Notification.repo s))
            = None
         /\ exists k,
             Z.of_nat k <= Notification.maxRetries s
             /\ (forall j, (j < k)%nat ->
                           retryable (clientDo env (requests w + j)) = true)
             /\ clientDo env (requests w + k)
                = Response Go.StatusOK (JSON issues)).
Proof.
  intros env s w issues HM. split.
  - intros Hok.
    destruct (limiterWait env (List.length (events w))) as [c|] eqn:Hlim.
    { unfold Notification.fetchLatestIssues, limiterWaitCall in Hok.
      rewrite Hlim in Hok. discriminate. }
    destruct (newRequest env _) as [c|] eqn:Hreq.
    { unfold Notification.fetchLatestIssues, limiterWaitCall in Hok.
      rewrite Hlim, Hreq in Hok. discriminate. }
    split; [reflexivity|]. split; [reflexivity|].
    destruct (fetch_run env s w HM Hlim Hreq) as [k (Hk & Hbefore & Hrun)].
    cbv zeta in Hrun. destruct Hrun as (_ & _ & _ & Hres).
    exists k. split; [exact Hk|]. split; [exact Hbefore|].
    rewrite Hok in Hres.
    destruct (retryable (clientDo env (requests w + k))) eqn:Hr;
      [discriminate|].
    apply (settles_ok _ _ Hr). now symmetry.
  - intros (Hlim & Hreq & k & Hk & Hbefore & Hdo).
    destruct (fetch_stops_at env s w k Hlim Hreq Hk Hbefore)
      as (_ & _ & Hres).
    + rewrite Hdo. reflexivity.
    + rewrite Hres. apply settles_ok; [rewrite Hdo; reflexivity | exact Hdo].
Qed.

Lemma fetch_succeeds_exactly_witness :
  let env := Scenario.flakyEnv in
  let s := Scenario.aService in
  let w := Scenario.startWorld in
  0 <= Notification.maxRetries s
  /\ snd (Notification.fetchLatestIssues env s w)
     = ([Scenario.anIssue 31 "Crash on start"], None)
  /\ exists k,
      Z.of_nat k <= Notification.maxRetries s
      /\ clientDo env (requests w + k)
         = Response Go.StatusOK (JSON [Scenario.anIssue 31 "Crash on start"]).
Proof.
  intros env s w.
  assert (HM : 0 <= Notification.maxRetries s) by (vm_compute; discriminate).
  assert (Hok : snd (Notification.fetchLatestIssues env s w)
                = ([Scenario.anIssue 31 "Crash on start"], None))
    by reflexivity.
  split; [exact HM|]. split; [exact Hok|].
  destruct (proj1 (fetch_succeeds_exactly env s w _ HM) Hok)
    as (_ & _ & k & Hk & _ & Hdo).
  exists k. split; assumption.
Defined.

(** X9.  The sleeps of one [fetchLatestIssues] add up to [maxRetries]
    times [RetryDelay] at most: fifteen seconds for a service built by
    [NewService].  When the API does not answer at all they add up to
    exactly that. *)
Theorem fetch_sleeps_are_bounded :
  forall env s w,
    0 <= Notification.maxRetries s ->
    let w' := fst (Notification.fetchLatestIssues env s w) in
    0 <= sleepTotal (newEvents w w')
         <= Notification.maxRetries s * config.RetryDelay
    /\ (Notification.maxRetries s = config.MaxRetries ->
        sleepTotal (newEvents w w') <= 15 * Go.Second)
    /\ (limiterWait env (List.length (events w)) = None ->
        newRequest env
          (issuesURL (Notification.owner s) (Notification.repo s)) = None ->
        (forall j, exists cause, clientDo env j = TransportError cause) ->
        sleepTotal (newEvents w w')
        = Notification.maxRetries s * config.RetryDelay).
Proof.
  intros env s w HM w'.
  assert (Hcases :
    sleepTotal (newEvents w w') = 0
    \/ exists k,
        Z.of_nat k <= Notification.maxRetries s
        /\ newEvents w w' = EvLimiterWait :: retryTrace k
        /\ (retryable (clientDo env (requests w + k)) = true ->
            Z.of_nat k = Notification.maxRetries s)
        /\ limiterWait env (List.length (events w)) = None
        /\ newRequest env
             (issuesURL (Notification.owner s) (Notification.repo s))
           = None).
  { unfold w'.
    destruct (limiterWait env (List.length (events w))) as [c|] eqn:Hlim.
    { left. unfold Notification.fetchLatestIssues, limiterWaitCall.
      rewrite Hlim. cbn [fst].
      now rewrite (newEvents_app w _ [EvLimiterWait]). }
    destruct (newRequest env _) as [c|] eqn:Hreq.
    { left. unfold Notification.fetchLatestIssues, limiterWaitCall.
      rewrite Hlim, Hreq. cbn [fst].
      now rewrite (newEvents_app w _ [EvLimiterWait]). }
    right.
    destruct (fetch_run env s w HM Hlim Hreq) as [k (Hk & _ & Hrun)].
    cbv zeta in Hrun. destruct Hrun as (Hev & _ & Hlast & _).
    exists k. split; [exact Hk|].
    split; [now apply newEvents_app|]. auto. }
  assert (Htotal : forall k,
             sleepTotal (EvLimiterWait :: retryTrace k)
             = Z.of_nat k * config.RetryDelay).
  { intros k. unfold retryTrace. cbn [sleepTotal List.fold_right].
    apply sleepTotal_retrySteps. }
  assert (Hdelay : 0 <= config.RetryDelay) by discriminate.
  split; [| split].
  - destruct Hcases as [-> | (k & Hk & -> & _)]; [nia|].
    rewrite Htotal. nia.
  - intros Hmax.
    change (15 * Go.Second) with (3 * config.RetryDelay).
    destruct Hcases as [-> | (k & Hk & -> & _)]; [discriminate|].
    rewrite Htotal. rewrite Hmax in Hk. unfold config.MaxRetries in Hk. nia.
  - intros Hlim Hreq Hdown. clear Hcases. unfold w'.
    destruct (fetch_run env s w HM Hlim Hreq) as [k (Hk & _ & Hrun)].
    cbv zeta in Hrun. destruct Hrun as (Hev & _ & Hlast & _).
    rewrite (newEvents_app _ _ _ Hev), Htotal.
    destruct (Hdown (requests w + k)%nat) as [cause Hc].
    rewrite Hc in Hlast. specialize (Hlast eq_refl).
    now rewrite Hlast.
Qed.

Lemma fetch_sleeps_are_bounded_witness :
  let env := downEnv in
  let s := Scenario.aService in
  let w := Scenario.startWorld in
  let w' := fst (Notification.fetchLatestIssues env s w) in
  0 <= Notification.maxRetries s
  /\ sleepTotal (newEvents w w') = 15 * Go.Second
  /\ sleepTotal (newEvents w w')
     <= Notification.maxRetries s * config.RetryDelay.
Proof.
  intros env s w w'.
  assert (HM : 0 <= Notification.maxRetries s) by (vm_compute; discriminate).
  split; [exact HM|]. split.
  - apply (proj2 (proj2 (fetch_sleeps_are_bounded env s w HM)));
      [reflexivity | reflexivity |].
    intros j. eexists. reflexivity.
  - exact (proj2 (proj1 (fetch_sleeps_are_bounded env s w HM))).
Defined.

(** ** The fetch of the package repository *)

Lemma Repository_fetch_one_request env r w :
  newRequest env
    (issuesURL (repository.owner r) (repository.repo r) ++ "&is=issue")
  = None ->
  let res := repository.Repository_FetchLatestIssues env r w in
  let o := clientDo env (requests w) in
  events (fst res) = (events w ++ [EvHTTP 0])%list
  /\ requests (fst res) = S (requests w)
  /\ snd res
     = if retryable o
       then ([], Some (match o with
                       | TransportError cause => Go.ErrFetching cause
                       | Response code _ => Go.ErrStatusCode code
                       end))
       else match settles o with
            | (issues, err) =>
                (List.filter (fun issue => negb (isPullRequest issue)) issues,
                 err)
            end.
Proof.
  intros Hreq. unfold repository.Repository_FetchLatestIssues.
  rewrite Hreq. unfold clientDoCall, settles, retryable, terminalError.
  destruct (clientDo env (requests w)) as [cause | code body].
  { repeat split. }
  destruct (code =? Go.StatusUnauthorized); [repeat split|].
  destruct (code =? Go.StatusOK); cbn [negb andb]; [| repeat split].
  destruct body as [cause | decoded]; [repeat split|].
  rewrite filterIssues_filter. repeat split.
Qed.

(** X10.  [Repository.FetchLatestIssues] returns no pull request.  On a
    response of status 200 whose body decodes it returns, without error, the
    decoded entries whose field [pull_request] is null, in the order
    received: all of them when none is a pull request.  It returns without
    error in no other case. *)
Theorem Repository_returns_issues_only :
  forall env r w,
    let res := repository.Repository_FetchLatestIssues env r w in
    List.Forall (fun issue => PullRequest_ issue = None) (fst (snd res))
    /\ (snd (snd res) = None ->
        exists decoded,
          clientDo env (requests w) = Response Go.StatusOK (JSON decoded)
          /\ fst (snd res)
             = List.filter (fun issue => negb (isPullRequest issue)) decoded)
    /\ (forall decoded,
           newRequest env
             (issuesURL (repository.owner r) (repository.repo r)
              ++ "&is=issue") = None ->
           clientDo env (requests w) = Response Go.StatusOK (JSON decoded) ->
           snd res
           = (List.filter (fun issue => negb (isPullRequest issue)) decoded,
              None)
           /\ (List.Forall (fun issue => PullRequest_ issue = None) decoded ->
               snd res = (decoded, None))).
Proof.
  intros env r w res.
  destruct (Repository_fetch_excludes_pull_requests env r w) as [Hno Hok].
  split; [exact Hno|]. split; [exact Hok|].
  intros decoded Hreq Hdo.
  destruct (Repository_fetch_one_request env r w Hreq) as (_ & _ & Hres).
  fold res in Hres. rewrite Hdo in Hres. cbn in Hres.
  split; [exact Hres|].
  intros Hall. rewrite Hres. f_equal.
  clear -Hall. induction Hall as [| issue l Hi _ IH]; [reflexivity|].
  simpl. unfold isPullRequest at 1. rewrite Hi. simpl. now rewrite IH.
Qed.

Lemma Repository_returns_issues_only_witness :
  let env := Scenario.mixedEnv in
  let res :=
    repository.Repository_FetchLatestIssues env Scenario.aRepository
      Scenario.startWorld in
  clientDo env (requests Scenario.startWorld)
  = Response Go.StatusOK
      (JSON [Scenario.anIssue 8 "Crash on start";
             Scenario.aPullRequest 9 "Fix the crash"])
  /\ snd res = ([Scenario.anIssue 8 "Crash on start"], None).
Proof.
  intros env res. split; [reflexivity|].
  exact (proj1 (proj2 (proj2 (Repository_returns_issues_only env
                                Scenario.aRepository Scenario.startWorld))
                  _ eq_refl eq_refl)).
Defined.

(** X11.  [Repository.FetchLatestIssues] never retries and never sleeps:
    once the request is built it sends exactly one request, whatever the
    answer.  When no response comes, or when the status is neither 401 nor
    200, which the fetch of the package notification retries, it returns
    the error of that one attempt. *)
Theorem Repository_fetch_never_retries :
  forall env r w,
    newRequest env
      (issuesURL (repository.owner r) (repository.repo r) ++ "&is=issue")
    = None ->
    let res := repository.Repository_FetchLatestIssues env r w in
    let o := clientDo env (requests w) in
    newEvents w (fst res) = [EvHTTP 0]
    /\ requests (fst res) = S (requests w)
    /\ (retryable o = true ->
        snd res = ([], Some (match o with
                             | TransportError cause => Go.ErrFetching cause
                             | Response code _ => Go.ErrStatusCode code
                             end))).
Proof.
  intros env r w Hreq res o.
  destruct (Repository_fetch_one_request env r w Hreq) as (Hev & Hrq & Hres).
  split; [now apply newEvents_app|]. split; [exact Hrq|].
  intros Hr. fold res o in Hres. now rewrite Hr in Hres.
Qed.

Lemma Repository_fetch_never_retries_witness :
  let env := downEnv in
  let res :=
    repository.Repository_FetchLatestIssues env Scenario.aRepository
      Scenario.startWorld in
  retryable (clientDo env (requests Scenario.startWorld)) = true
  /\ newEvents Scenario.startWorld (fst res) = [EvHTTP 0]
  /\ snd res = ([], Some (Go.ErrFetching "connection refused")).
Proof.
  intros env res.
  destruct (Repository_fetch_never_retries env Scenario.aRepository
              Scenario.startWorld eq_refl) as (Hev & _ & Hres).
  split; [reflexivity|]. split; [exact Hev|]. exact (Hres eq_refl).
Defined.

(** X12.  On a first answer that is not retryable the two fetchers agree:
    [Repository.FetchLatestIssues] returns the same error as
    [fetchLatestIssues] of the package notification, and its list is the
    list of the other one without the pull requests. *)
Theorem fetchers_agree_up_to_pull_requests :
  forall env s r w w2,
    0 <= Notification.maxRetries s ->
    limiterWait env (List.length (events w)) = None ->
    newRequest env
      (issuesURL (Notification.owner s) (Notification.repo s)) = None ->
    newRequest env
      (issuesURL (repository.owner r) (repository.repo r) ++ "&is=issue")
    = None ->
    requests w2 = requests w ->
    retryable (clientDo env (requests w)) = false ->
    let old := snd (Notification.fetchLatestIssues env s w) in
    let new := snd (repository.Repository_FetchLatestIssues env r w2) in
    snd new = snd old
    /\ fst new
       = List.filter (fun issue => negb (isPullRequest issue)) (fst old).
Proof.
  intros env s r w w2 HM Hlim Hreq Hreq2 Hsame Hstop old new.
  destruct (fetch_stops_at env s w 0%nat Hlim Hreq HM) as (_ & _ & Hold).
  { intros j Hj. lia. }
  { now rewrite Nat.add_0_r. }
  rewrite Nat.add_0_r in Hold.
  destruct (Repository_fetch_one_request env r w2 Hreq2) as (_ & _ & Hnew).
  rewrite Hsame, Hstop in Hnew.
  unfold old, new. rewrite Hold, Hnew.
  destruct (settles (clientDo env (requests w))) as [issues err].
  split; reflexivity.
Qed.

Lemma fetchers_agree_up_to_pull_requests_witness :
  let env := Scenario.mixedEnv in
  let w := Scenario.startWorld in
  0 <= Notification.maxRetries Scenario.aService
  /\ retryable (clientDo env (requests w)) = false
  /\ fst (snd (repository.Repository_FetchLatestIssues env
                 Scenario.aRepository w))
     = List.filter (fun issue => negb (isPullRequest issue))
         (fst (snd (Notification.fetchLatestIssues env Scenario.aService w))).
Proof.
  intros env w.
  assert (HM : 0 <= Notification.maxRetries Scenario.aService)
    by (vm_compute; discriminate).
  split; [exact HM|]. split; [reflexivity|].
  exact (proj2 (fetchers_agree_up_to_pull_requests env Scenario.aService
                  Scenario.aRepository w w HM eq_refl eq_refl eq_refl
                  eq_refl eq_refl)).
Defined.

(** ** What the operations add to the log *)

Lemma adds_refl kinds w : adds kinds w w.
Proof. exists []. split; [now rewrite List.app_nil_r | reflexivity]. Qed.

Lemma adds_same kinds w w' : events w' = events w -> adds kinds w w'.
Proof.
  intros E. exists []. split; [now rewrite List.app_nil_r | reflexivity].
Qed.

Lemma adds_trans kinds w1 w2 w3 :
  adds kinds w1 w2 -> adds kinds w2 w3 -> adds kinds w1 w3.
Proof.
  intros [e1 [E1 F1]] [e2 [E2 F2]]. exists (e1 ++ e2)%list. split.
  - now rewrite E2, E1, List.app_assoc.
  - rewrite List.forallb_app, F1, F2. reflexivity.
Qed.

Lemma adds_weaken (k1 k2 : Event -> bool) w w' :
  (forall ev, k1 ev = true -> k2 ev = true) ->
  adds k1 w w' -> adds k2 w w'.
Proof.
  intros Himp [evs [E F]]. exists evs. split; [exact E|].
  rewrite List.forallb_forall in *. auto.
Qed.

Lemma adds_call (kinds : Event -> bool) env ev d w :
  kinds ev = true -> adds kinds w (call env ev d w).
Proof.
  intros Hk. exists [ev]. split; [reflexivity|]. simpl. now rewrite Hk.
Qed.

Lemma adds_newEvents kinds w w' :
  adds kinds w w' -> List.forallb kinds (newEvents w w') = true.
Proof. intros [evs [E F]]. now rewrite (newEvents_app _ _ _ E). Qed.

Lemma retryLoop_adds env M : forall attempts w,
  adds httpOrSleep w (fst (Notification.retryLoop env M attempts w)).
Proof.
  induction attempts as [| attempt rest IH]; intros w.
  - apply adds_refl.
  - cbn [Notification.retryLoop clientDoCall].
    set (w1 := {| now := now (call env (EvHTTP attempt) 0 w);
                  events := events (call env (EvHTTP attempt) 0 w);
                  requests := S (requests w) |}).
    assert (H1 : adds httpOrSleep w w1)
      by (exists [EvHTTP attempt]; split; reflexivity).
    assert (H2 : adds httpOrSleep w
                   (fst (Notification.retryLoop env M rest
                           (timeSleep env config.RetryDelay w1)))).
    { eapply adds_trans; [exact H1|].
      eapply adds_trans; [| apply IH].
      apply adds_call. reflexivity. }
    destruct (clientDo env (requests w)) as [cause | code body].
    + destruct (attempt =? M); [exact H1 | exact H2].
    + destruct (code =? Go.StatusUnauthorized); [exact H1|].
      destruct (negb (code =? Go.StatusOK)).
      * destruct (attempt =? M); [exact H1 | exact H2].
      * destruct body; exact H1.
Qed.

(** A fetch passes the rate limiter once, then makes requests and
    sleeps. *)
Lemma fetchLatestIssues_adds env s w :
  adds httpOrSleep (call env EvLimiterWait 0 w)
    (fst (Notification.fetchLatestIssues env s w)).
Proof.
  unfold Notification.fetchLatestIssues, limiterWaitCall.
  destruct (limiterWait env _); [apply adds_refl|].
  destruct (newRequest env _); [apply adds_refl|].
  apply retryLoop_adds.
Qed.

(** A dispatch sleeps and displays. *)
Lemma sendNotification_adds env s w issue :
  adds sleepOrDisplay w
    (snd (fst (Notification.sendNotification env s w issue))).
Proof.
  assert (H0 : adds sleepOrDisplay w (awaited env s w)).
  { unfold awaited. destruct (_ <? _); [| apply adds_refl].
    apply adds_call. reflexivity. }
  unfold Notification.sendNotification. fold (awaited env s w).
  eapply adds_trans; [exact H0|].
  generalize (awaited env s w). intros w0.
  unfold cmdRun, beeepNotifyCall.
  destruct (String.eqb (GOOS env) "darwin").
  { destruct (run env _); apply adds_call; reflexivity. }
  destruct (String.eqb (GOOS env) "windows").
  { apply adds_call; reflexivity. }
  destruct (String.eqb (GOOS env) "linux"); [| apply adds_refl].
  destruct (run env _); cbn [fst snd].
  - apply adds_call; reflexivity.
  - eapply adds_trans; apply adds_call; reflexivity.
  - eapply adds_trans; apply adds_call; reflexivity.
Qed.

Lemma processIssue_adds env s w issue :
  adds sleepOrDisplay w (snd (Notification.processIssue env (s, w) issue)).
Proof.
  unfold Notification.processIssue.
  destruct (ID issue >? Notification.lastCheckID s); [| apply adds_refl].
  pose proof (sendNotification_adds env s w issue) as H.
  destruct (Notification.sendNotification env s w issue)
    as [[s1 w1] [e|]]; [exact H|].
  destruct (ID issue >? Notification.lastCheckID s1); exact H.
Qed.

Lemma processIssues_adds env issues : forall s w,
  adds sleepOrDisplay w (snd (Notification.processIssues env issues (s, w))).
Proof.
  induction issues as [| issue issues IH]; intros s w.
  - apply adds_refl.
  - rewrite processIssues_cons.
    pose proof (processIssue_adds env s w issue) as H.
    destruct (Notification.processIssue env (s, w) issue) as [s1 w1].
    eapply adds_trans; [exact H | apply IH].
Qed.

(** A cycle passes the rate limiter once and never waits for a tick. *)
Lemma cycle_adds env s w :
  adds anyButTickOrWait (call env EvLimiterWait 0 w)
    (snd (Notification.cycle env (s, w))).
Proof.
  unfold Notification.cycle, Notification.checkForNewIssues. cbn [fst snd].
  pose proof (fetchLatestIssues_adds env s w) as Hf.
  apply (adds_weaken _ anyButTickOrWait) in Hf;
    [| intros [] H; try reflexivity; discriminate].
  destruct (Notification.fetchLatestIssues env s w)
    as [w1 [issues [err|]]]; [exact Hf|].
  pose proof (processIssues_adds env issues s w1) as Hp.
  apply (adds_weaken _ anyButTickOrWait) in Hp;
    [| intros [] H; try reflexivity; discriminate].
  destruct (Notification.processIssues env issues (s, w1)) as [s2 w2].
  eapply adds_trans; [exact Hf | exact Hp].
Qed.

(** ** The scheduler *)

Lemma filter_none (p k : Event -> bool) (evs : list Event) :
  List.forallb k evs = true ->
  (forall ev, k ev = true -> p ev = false) ->
  List.filter p evs = [].
Proof.
  intros Hk Himp. induction evs as [| ev evs IH]; [reflexivity|].
  simpl in *. apply Bool.andb_true_iff in Hk. destruct Hk as [H1 H2].
  rewrite (Himp ev H1). now apply IH.
Qed.

Lemma anyButTickOrWait_no_tick ev :
  anyButTickOrWait ev = true -> isTick ev = false.
Proof. destruct ev; cbv; intros H; first [reflexivity | discriminate H]. Qed.

Lemma anyButTickOrWait_no_wait ev :
  anyButTickOrWait ev = true -> isLimiterWait ev = false.
Proof. destruct ev; cbv; intros H; first [reflexivity | discriminate H]. Qed.

(** The log of one cycle: the pass through the rate limiter first, then
    calls that are neither such a pass nor a wait for a tick. *)
Lemma cycle_log env s w :
  exists evs,
    events (snd (Notification.cycle env (s, w)))
    = (events w ++ EvLimiterWait :: evs)%list
    /\ List.filter isLimiterWait evs = []
    /\ List.filter isTick evs = [].
Proof.
  destruct (cycle_adds env s w) as [evs [E F]].
  exists evs. split.
  - rewrite E, events_call, <- List.app_assoc. reflexivity.
  - split; apply (filter_none _ _ _ F).
    + apply anyButTickOrWait_no_wait.
    + apply anyButTickOrWait_no_tick.
Qed.

Lemma onTicks_log env n : forall s w,
  exists evs,
    events (snd (Notification.onTicks env n (s, w)))
    = (events w ++ evs)%list
    /\ List.length (List.filter isLimiterWait evs) = n
    /\ List.length (List.filter isTick evs) = n.
Proof.
  induction n as [| n IH]; intros s w.
  - exists []. split; [now rewrite List.app_nil_r | split; reflexivity].
  - cbn [Notification.onTicks].
    destruct (cycle_log env s (call env EvTick 0 w)) as [e1 (E1 & W1 & T1)].
    destruct (Notification.cycle env (s, call env EvTick 0 w))
      as [s1 w1] eqn:Hc.
    cbn [snd] in E1.
    destruct (IH s1 w1) as [e2 (E2 & W2 & T2)].
    exists (EvTick :: EvLimiterWait :: e1 ++ e2)%list. split.
    + rewrite E2, E1, events_call, <- !List.app_assoc. reflexivity.
    + cbn [List.filter isLimiterWait isTick].
      rewrite !List.filter_app, W1, T1. cbn [List.length List.app].
      rewrite W2, T2. split; reflexivity.
Qed.

(** X13.  [Start] checks at once and then once per tick, whatever goes
    wrong in the checks: the first call of a run is the pass through the
    rate limiter of the first check, and a run that sees [n] ticks waits [n]
    times for the ticker and passes the rate limiter [n + 1] times. *)
Theorem Start_checks_once_per_tick :
  forall env n s w,
    let logged := newEvents w (snd (Notification.Start env n s w)) in
    List.hd_error logged = Some EvLimiterWait
    /\ List.length (List.filter isLimiterWait logged) = S n
    /\ List.length (List.filter isTick logged) = n.
Proof.
  intros env n s w logged. unfold logged, Notification.Start.
  destruct (cycle_log env s w) as [e1 (E1 & W1 & T1)].
  destruct (Notification.cycle env (s, w)) as [s1 w1]. cbn [snd] in E1.
  destruct (onTicks_log env n s1 w1) as [e2 (E2 & W2 & T2)].
  assert (E : events (snd (Notification.onTicks env n (s1, w1)))
              = (events w ++ EvLimiterWait :: e1 ++ e2)%list).
  { rewrite E2, E1, <- List.app_assoc. reflexivity. }
  rewrite (newEvents_app _ _ _ E).
  split; [reflexivity|].
  cbn [List.filter isLimiterWait isTick].
  rewrite !List.filter_app, W1, T1. cbn [List.length List.app].
  rewrite W2, T2. split; reflexivity.
Qed.

(** ** One check *)

Lemma fetch_displays_nothing env s w :
  List.filter isDisplay
    (newEvents w (fst (Notification.fetchLatestIssues env s w))) = [].
Proof.
  destruct (fetchLatestIssues_adds env s w) as [evs [E F]].
  rewrite events_call, <- List.app_assoc in E.
  rewrite (newEvents_app _ _ _ E). cbn [List.app List.filter isDisplay
                                         handoffTime].
  apply (filter_none _ _ _ F).
  intros [] H; first [reflexivity | discriminate H].
Qed.

(** X14.  [checkForNewIssues] of main.go and of the package notification
    returns the error of the fetch and no other: the errors of the
    dispatches are logged and dropped.  When the fetch fails the service is
    left as it was and nothing is displayed; when the fetch succeeds the
    whole batch goes through the loop and the result is [nil]. *)
Theorem check_returns_the_fetch_error_only :
  forall env s w,
    let fetched := Notification.fetchLatestIssues env s w in
    let checked := Notification.checkForNewIssues env s w in
    snd checked = snd (snd fetched)
    /\ (snd (snd fetched) <> None ->
        fst checked = (s, fst fetched)
        /\ List.filter isDisplay (newEvents w (snd (fst checked))) = [])
    /\ (snd (snd fetched) = None ->
        fst checked
        = Notification.processIssues env (fst (snd fetched)) (s, fst fetched)).
Proof.
  intros env s w fetched checked.
  pose proof (fetch_displays_nothing env s w) as Hnone. fold fetched in Hnone.
  unfold checked, Notification.checkForNewIssues. fold fetched.
  destruct fetched as [w1 [issues [err|]]]; cbn [fst snd] in *.
  - split; [reflexivity|]. split; [| discriminate].
    intros _. split; [reflexivity | exact Hnone].
  - destruct (Notification.processIssues env issues (s, w1)) as [s2 w2].
    split; [reflexivity|]. split; [congruence | reflexivity].
Qed.

Lemma check_returns_the_fetch_error_only_witness :
  let env := Scenario.unauthorizedEnv in
  let checked :=
    Notification.checkForNewIssues env Scenario.aService
      Scenario.startWorld in
  snd (snd (Notification.fetchLatestIssues env Scenario.aService
              Scenario.startWorld)) <> None
  /\ snd checked = Some Go.ErrAuthenticationFailed
  /\ fst (fst checked) = Scenario.aService
  /\ List.filter isDisplay (newEvents Scenario.startWorld (snd (fst checked)))
     = [].
Proof.
  intros env checked.
  assert (Herr : snd (snd (Notification.fetchLatestIssues env
                             Scenario.aService Scenario.startWorld))
                 <> None) by discriminate.
  destruct (check_returns_the_fetch_error_only env Scenario.aService
              Scenario.startWorld) as (Hsame & Hfail & _).
  destruct (Hfail Herr) as [Hleft Hnone].
  split; [exact Herr|]. split; [reflexivity|]. split.
  - fold checked in Hleft. now rewrite Hleft.
  - exact Hnone.
Defined.

(** ** More on the tracker *)

Lemma processIssues_all_old env issues s w :
  (forall issue, List.In issue issues ->
                 ID issue <= Notification.lastCheckID s) ->
  Notification.processIssues env issues (s, w) = (s, w).
Proof.
  induction issues as [| issue issues IH]; intros Hold; [reflexivity|].
  rewrite processIssues_cons, processIssue_old by (apply Hold; now left).
  apply IH. intros other Hin. apply Hold. now right.
Qed.

Lemma svc_processIssues_all_old {R N : Type}
  `{repository.IssueRepository R} `{notifier.Notifier N}
  env issues (s : Service.Service R N) w :
  (forall issue, List.In issue issues ->
                 ID issue <= Service.lastCheckID s) ->
  Service.processIssues env issues (s, w) = (s, w).
Proof.
  induction issues as [| issue issues IH]; intros Hold; [reflexivity|].
  rewrite svc_processIssues_cons, svc_processIssue_old
    by (apply Hold; now left).
  apply IH. intros other Hin. apply Hold. now right.
Qed.

(** X15.  When the first issue of a batch is new, has the largest ID of
    the batch and is dispatched without error, it is the only issue of the
    batch that is dispatched: the loop does nothing for the others, new or
    not, and [lastCheckID] ends at the ID of the first.  So it is for a
    batch that comes newest first with IDs that grow with time.  Both for
    main.go and the package notification, and for the package service. *)
Theorem only_the_head_of_a_descending_batch_is_dispatched :
  (forall env s w issue others,
      Notification.lastCheckID s < ID issue ->
      snd (Notification.sendNotification env s w issue) = None ->
      (forall other, List.In other others -> ID other <= ID issue) ->
      Notification.processIssues env (issue :: others) (s, w)
      = Notification.processIssue env (s, w) issue
      /\ Notification.lastCheckID
           (fst (Notification.processIssues env (issue :: others) (s, w)))
         = ID issue)
  /\ (forall (R N : Type) (HR : repository.IssueRepository R)
             (HN : notifier.Notifier N) env (s : Service.Service R N) w
             issue others,
         Service.lastCheckID s < ID issue ->
         snd (notifier.NotifyNewIssue env (Service.issueNotifier s) issue w)
         = None ->
         (forall other, List.In other others -> ID other <= ID issue) ->
         Service.processIssues env (issue :: others) (s, w)
         = Service.processIssue env (s, w) issue
         /\ Service.lastCheckID
              (fst (Service.processIssues env (issue :: others) (s, w)))
            = ID issue).
Proof.
  split.
  - intros env s w issue others Hnew Hok Hmax.
    pose proof (processIssue_sent_id env s w issue Hnew Hok) as Hid.
    rewrite processIssues_cons.
    destruct (Notification.processIssue env (s, w) issue) as [s1 w1].
    cbn [fst] in Hid.
    rewrite processIssues_all_old.
    + split; [reflexivity | exact Hid].
    + intros other Hin. rewrite Hid. now apply Hmax.
  - intros R N HR HN env s w issue others Hnew Hok Hmax.
    pose proof (svc_processIssue_sent_id env s w issue Hnew Hok) as Hid.
    rewrite svc_processIssues_cons.
    destruct (Service.processIssue env (s, w) issue) as [s1 w1].
    cbn [fst] in Hid.
    rewrite svc_processIssues_all_old.
    + split; [reflexivity | exact Hid].
    + intros other Hin. rewrite Hid. now apply Hmax.
Qed.

Lemma only_the_head_of_a_descending_batch_is_dispatched_witness :
  let env := Scenario.calmEnv "linux" [] in
  let s := Scenario.aService in
  let w := Scenario.startWorld in
  let batch :=
    [Scenario.anIssue 30 "c"; Scenario.anIssue 20 "b";
     Scenario.anIssue 10 "a"] in
  let done := Notification.processIssues env batch (s, w) in
  Notification.lastCheckID s < 30
  /\ Notification.lastCheckID (fst done) = 30
  /\ List.length (List.filter isDisplay (events (snd done))) = 1%nat.
Proof.
  intros env s w batch done.
  assert (Hnew : Notification.lastCheckID s < ID (Scenario.anIssue 30 "c"))
    by reflexivity.
  split; [exact Hnew|]. split; [| reflexivity].
  apply (proj1 only_the_head_of_a_descending_batch_is_dispatched env s w
           (Scenario.anIssue 30 "c")
           [Scenario.anIssue 20 "b"; Scenario.anIssue 10 "a"] Hnew eq_refl).
  intros other [<- | [<- | []]]; vm_compute; discriminate.
Defined.

Lemma maxID_mono issues : forall b b',
  b <= b' -> maxID b issues <= maxID b' issues.
Proof.
  induction issues as [| issue issues IH]; intros b b' Hb; simpl; [exact Hb|].
  apply IH. lia.
Qed.

Lemma processIssue_value env s w issue :
  let s' := fst (Notification.processIssue env (s, w) issue) in
  Notification.lastCheckID s' = Notification.lastCheckID s
  \/ (Notification.lastCheckID s < ID issue
      /\ Notification.lastCheckID s' = ID issue).
Proof.
  cbv zeta.
  destruct (Z_lt_le_dec (Notification.lastCheckID s) (ID issue))
    as [Hnew | Hold].
  - rewrite (processIssue_new env _ _ _ Hnew).
    pose proof (sendNotification_lastCheckID env s w issue) as Hid.
    destruct (Notification.sendNotification env s w issue)
      as [[s1 w1] [e|]]; cbn [fst] in *; auto.
  - rewrite (processIssue_old env _ _ _ Hold). now left.
Qed.

(** X16.  After the loop over a batch, [lastCheckID] is its former value or
    the ID of an issue of the batch that was above it; it lies between its
    former value and the largest ID of the batch; and it is the larger of
    its former value and of the largest ID of the batch when every dispatch
    succeeds. *)
Theorem tracker_after_a_batch :
  forall env issues s w,
    let after :=
      Notification.lastCheckID
        (fst (Notification.processIssues env issues (s, w))) in
    (after = Notification.lastCheckID s
     \/ exists issue,
         List.In issue issues
         /\ Notification.lastCheckID s < ID issue /\ after = ID issue)
    /\ Notification.lastCheckID s <= after
       <= maxID (Notification.lastCheckID s) issues
    /\ ((forall s0 w0 issue,
            snd (Notification.sendNotification env s0 w0 issue) = None) ->
        after = maxID (Notification.lastCheckID s) issues).
Proof.
  intros env issues. induction issues as [| issue issues IH]; intros s w.
  - cbn. split; [now left|]. split; [lia | reflexivity].
  - rewrite processIssues_cons.
    pose proof (processIssue_value env s w issue) as Hv.
    pose proof (processIssue_sent_id env s w issue) as Hsent.
    destruct (Notification.processIssue env (s, w) issue) as [s1 w1].
    cbn [fst] in Hv, Hsent.
    destruct (IH s1 w1) as (Hin & Hbounds & Hall). cbv zeta in *.
    cbn [maxID List.fold_left].
    fold (maxID (Z.max (Notification.lastCheckID s) (ID issue)) issues).
    split; [| split].
    + destruct Hin as [Heq | (other & Ho & Hlt & Heq)].
      * rewrite Heq. destruct Hv as [Hv | [Hlt Hv]]; [now left|].
        right. exists issue. split; [now left | auto].
      * right. exists other. split; [now right|].
        split; [| exact Heq]. destruct Hv as [Hv | [Hlt' Hv]]; lia.
    + split; [destruct Hv as [Hv | [Hlt Hv]]; lia|].
      etransitivity; [apply Hbounds|].
      apply maxID_mono. destruct Hv as [Hv | [Hlt Hv]]; lia.
    + intros Hok. rewrite (Hall Hok). f_equal.
      destruct (Z_lt_le_dec (Notification.lastCheckID s) (ID issue))
        as [Hnew | Hold].
      * rewrite (Hsent Hnew (Hok _ _ _)). lia.
      * destruct Hv as [Hv | [Hlt Hv]]; lia.
Qed.

Lemma tracker_after_a_batch_witness :
  let env := Scenario.calmEnv "windows" [] in
  let batch :=
    [Scenario.anIssue 50 "a"; Scenario.anIssue 70 "b";
     Scenario.anIssue 60 "c"] in
  (forall s0 w0 issue,
      snd (Notification.sendNotification env s0 w0 issue) = None)
  /\ maxID (Notification.lastCheckID Scenario.aService) batch = 70
  /\ Notification.lastCheckID
       (fst (Notification.processIssues env batch
               (Scenario.aService, Scenario.startWorld))) = 70.
Proof.
  intros env batch.
  assert (Hok : forall s0 w0 issue,
             snd (Notification.sendNotification env s0 w0 issue) = None).
  { intros s0 w0 issue. unfold Notification.sendNotification. simpl.
    destruct (Go.Since (now w0) (Notification.lastNotifyTime s0)
              <? config.NotifyDelay); reflexivity. }
  split; [exact Hok|]. split; [reflexivity|].
  exact (proj2 (proj2 (tracker_after_a_batch env batch Scenario.aService
                         Scenario.startWorld)) Hok).
Defined.

(** X17.  A notification that failed is lost once a later issue of the
    batch with an ID at least as large is dispatched: after the batch the
    failed issue is not above [lastCheckID], and it stays so through all
    the checks that [Start] makes afterwards, so the loop never dispatches
    it again. *)
Theorem failed_issue_is_lost_once_overtaken :
  forall env s w failed later,
    Notification.lastCheckID s < ID failed ->
    ID failed <= ID later ->
    snd (Notification.sendNotification env s w failed) <> None ->
    (let sw := Notification.processIssue env (s, w) failed in
     snd (Notification.sendNotification env (fst sw) (snd sw) later) = None) ->
    let done := Notification.processIssues env [failed; later] (s, w) in
    Notification.lastCheckID (fst done) = ID later
    /\ forall n w2 w3,
        let s3 := fst (Notification.Start env n (fst done) w2) in
        ID failed <= Notification.lastCheckID s3
        /\ Notification.processIssue env (s3, w3) failed = (s3, w3).
Proof.
  intros env s w failed later Hnew Hle Hfail Hok done.
  unfold done. rewrite !processIssues_cons.
  destruct (Notification.sendNotification env s w failed)
    as [[s1 w1] [e|]] eqn:Hsend; [| now destruct Hfail].
  destruct (processIssue_failed env s w failed s1 w1 e Hnew Hsend)
    as [Hstep Hid].
  rewrite Hstep in Hok |- *. cbn [fst snd] in Hok.
  assert (Hlater : Notification.lastCheckID s1 < ID later) by lia.
  pose proof (processIssue_sent_id env s1 w1 later Hlater Hok) as Hend.
  cbn [Notification.processIssues List.fold_left].
  split; [exact Hend|].
  intros n w2 w3. cbv zeta.
  set (s2 := fst (Notification.processIssue env (s1, w1) later)) in *.
  set (s3 := fst (Notification.Start env n s2 w2)).
  assert (Hle3 : ID failed <= Notification.lastCheckID s3).
  { unfold s3, Notification.Start.
    pose proof (cycle_monotone env (s2, w2)) as H1.
    pose proof (onTicks_monotone env n (Notification.cycle env (s2, w2))).
    cbn [fst] in H1. lia. }
  split; [exact Hle3 | now apply processIssue_old].
Qed.

Lemma failed_issue_is_lost_once_overtaken_witness :
  let env := Scenario.brokenNotifierEnv in
  let w :=
    fst (Notification.fetchLatestIssues env Scenario.aService
           Scenario.startWorld) in
  let failed := Scenario.anIssue 20 "Crash on save" in
  let later := Scenario.anIssue 25 "Crash on load" in
  let done :=
    Notification.processIssues env [failed; later] (Scenario.aService, w) in
  snd (Notification.sendNotification env Scenario.aService w failed) <> None
  /\ Notification.lastCheckID (fst done) = 25
  /\ Notification.processIssue env (fst done, Scenario.startWorld) failed
     = (fst done, Scenario.startWorld).
Proof.
  intros env w failed later done.
  assert (Hfail : snd (Notification.sendNotification env Scenario.aService
                         w failed) <> None) by discriminate.
  destruct (failed_issue_is_lost_once_overtaken env Scenario.aService w
              failed later) as [Hend Hlost];
    [reflexivity | vm_compute; discriminate | exact Hfail | reflexivity |].
  split; [exact Hfail|]. split; [exact Hend|].
  pose proof (Hlost 0%nat Scenario.startWorld Scenario.startWorld) as H0.
  cbv zeta in H0. destruct H0 as [H0 _].
  apply processIssue_old.
  fold done in Hend. rewrite Hend. vm_compute. discriminate.
Defined.

(** ** More on the dispatch *)

(** The early [return] of the case "darwin" is the only way out of
    [sendNotification] that does not record the time, and the only one
    with its error. *)
Lemma sendNotification_records_time env s w issue :
  let r := Notification.sendNotification env s w issue in
  (snd r <> Some Go.ErrTerminalNotifierNotInstalled ->
   Notification.lastNotifyTime (fst (fst r)) = now (snd (fst r)))
  /\ (snd r = Some Go.ErrTerminalNotifierNotInstalled ->
      fst (fst r) = s /\ GOOS env = "darwin").
Proof.
  cbv zeta. unfold Notification.sendNotification.
  generalize (if Go.Since (now w) (Notification.lastNotifyTime s)
                 <? config.NotifyDelay
              then timeSleep env config.NotifyDelay w else w).
  intros w0. unfold cmdRun, beeepNotifyCall.
  destruct (String.eqb_spec (GOOS env) "darwin") as [Hd | Hd].
  { destruct (run env _); cbn [fst snd runError];
      (split; [intros H; first [reflexivity | now destruct H]
              | intros H; first [discriminate H | auto]]). }
  destruct (String.eqb (GOOS env) "windows").
  { cbn [fst snd]. split; [reflexivity|].
    destruct (beeepNotify env _); discriminate. }
  destruct (String.eqb (GOOS env) "linux").
  { destruct (run env _); cbn [fst snd];
      (split; [reflexivity|]); try discriminate;
      destruct (beeepNotify env _); discriminate. }
  cbn [fst snd]. split; [reflexivity | discriminate].
Qed.

(** X18.  Flood prevention.  When a dispatch ends otherwise than by the
    error on [terminal-notifier] of the case "darwin", the next dispatch,
    whenever it comes, displays its notification [NotifyDelay] at least
    after every display of the first one, provided that the clock does not
    go back. *)
Theorem displays_are_a_notifyDelay_apart :
  forall env s w issue1 s2 w2 issue2,
    (forall k, 0 <= elapse env k) ->
    let r1 := Notification.sendNotification env s w issue1 in
    let r2 := Notification.sendNotification env s2 w2 issue2 in
    snd r1 <> Some Go.ErrTerminalNotifierNotInstalled ->
    Notification.lastNotifyTime s2
    = Notification.lastNotifyTime (fst (fst r1)) ->
    now (snd (fst r1)) <= now w2 ->
    forall t1 t2,
      List.In t1 (handoffTimes (newEvents w (snd (fst r1)))) ->
      List.In t2 (handoffTimes (newEvents w2 (snd (fst r2)))) ->
      t1 + config.NotifyDelay <= t2.
Proof.
  intros env s w issue1 s2 w2 issue2 Hel r1 r2 Hend Hkeep Hlater.
  apply (flood_prevention_after_recorded_dispatch env Hel s w issue1 s2 w2
           issue2); try assumption.
  now apply (proj1 (sendNotification_records_time env s w issue1)).
Qed.

Lemma displays_are_a_notifyDelay_apart_witness :
  let env := Scenario.calmEnv "darwin" [] in
  let s := Scenario.aService in
  let w := Scenario.startWorld in
  let i1 := Scenario.anIssue 1 "One" in
  let i2 := Scenario.anIssue 2 "Two" in
  let r1 := Notification.sendNotification env s w i1 in
  let r2 := Notification.sendNotification env (fst (fst r1)) (snd (fst r1))
              i2 in
  handoffTimes (newEvents w (snd (fst r1))) = [Scenario.startTime]
  /\ handoffTimes (newEvents (snd (fst r1)) (snd (fst r2)))
     = [Scenario.startTime + config.NotifyDelay]
  /\ Scenario.startTime + config.NotifyDelay
     <= Scenario.startTime + config.NotifyDelay.
Proof.
  intros env s w i1 i2 r1 r2.
  split; [reflexivity|]. split; [reflexivity|].
  apply (displays_are_a_notifyDelay_apart env s w i1 (fst (fst r1))
           (snd (fst r1)) i2).
  - intros k. vm_compute. discriminate.
  - discriminate.
  - reflexivity.
  - vm_compute. discriminate.
  - left. reflexivity.
  - left. reflexivity.
Defined.

(** X19.  On Linux [sendNotification] runs [notify-send] and, when and
    only when that fails, falls back on [beeep.Notify], whose body is the
    message, two line feeds, [Click to open: ] and the link of the issue.
    The dispatch fails only when both fail, and the error is then the one
    of the fallback: the error of [notify-send] is never returned. *)
Theorem linux_dispatch_falls_back :
  forall env s w issue,
    GOOS env = "linux" ->
    let w0 := awaited env s w in
    let first := List.length (events w0) in
    let r := Notification.sendNotification env s w issue in
    let message := Notification.notificationMessage issue in
    let command :=
      EvExec (now w0) "notify-send" ["New GitHub Issue"; message] in
    (run env first = RunOk ->
     newEvents w0 (snd (fst r)) = [command] /\ snd r = None)
    /\ (run env first <> RunOk ->
        newEvents w0 (snd (fst r))
        = [command;
           EvBeeep (now w0 + elapse env first) "New GitHub Issue"
             (message ++ String "010"%char (String "010"%char
                ("Click to open: " ++ HTMLURL issue)))]
        /\ snd r = option_map Go.ErrForeign (beeepNotify env (S first)))
    /\ (snd r = None
        <-> run env first = RunOk \/ beeepNotify env (S first) = None).
Proof.
  intros env s w issue Hos. cbv zeta.
  unfold Notification.sendNotification. fold (awaited env s w).
  generalize (awaited env s w). intros w0.
  rewrite Hos. cbn [String.eqb Ascii.eqb Bool.eqb].
  unfold cmdRun, beeepNotifyCall. cbv beta iota zeta.
  rewrite !events_call, List.length_app. cbn [List.length].
  rewrite Nat.add_1_r.
  destruct (run env (List.length (events w0))) as [| msg | msg];
    cbn [fst snd].
  - split; [intros _; split; [| reflexivity]|].
    + apply newEvents_app. reflexivity.
    + split; [intros H; now destruct H|]. split; auto.
  - split; [discriminate|]. split.
    + intros _. split; [| reflexivity].
      apply newEvents_app. rewrite !events_call, <- List.app_assoc.
      cbn. repeat f_equal. lia.
    + destruct (beeepNotify env (S (List.length (events w0)))); cbn; split;
        first [discriminate | intros [H | H]; discriminate H | auto].
  - split; [discriminate|]. split.
    + intros _. split; [| reflexivity].
      apply newEvents_app. rewrite !events_call, <- List.app_assoc.
      cbn. repeat f_equal. lia.
    + destruct (beeepNotify env (S (List.length (events w0)))); cbn; split;
        first [discriminate | intros [H | H]; discriminate H | auto].
Qed.

Lemma linux_dispatch_falls_back_witness :
  let env := Scenario.noDisplayEnv in
  let s := Scenario.aService in
  let w := Scenario.startWorld in
  let issue := Scenario.anIssue 12 "No sound on Linux" in
  let r := Notification.sendNotification env s w issue in
  GOOS env = "linux"
  /\ run env (List.length (events (awaited env s w))) <> RunOk
  /\ newEvents (awaited env s w) (snd (fst r))
     = [EvExec Scenario.startTime "notify-send"
          ["New GitHub Issue"; "#12: No sound on Linux"];
        EvBeeep Scenario.startTime "New GitHub Issue"
          ("#12: No sound on Linux"
           ++ String "010"%char (String "010"%char
                "Click to open: https://github.com/o/r/issues/12"))]
  /\ snd r = Some (Go.ErrForeign "dbus: no session bus").
Proof.
  intros env s w issue r.
  assert (Hos : GOOS env = "linux") by reflexivity.
  assert (Hrun : run env (List.length (events (awaited env s w))) <> RunOk)
    by discriminate.
  destruct (linux_dispatch_falls_back env s w issue Hos) as (_ & Hfall & _).
  destruct (Hfall Hrun) as [Hev Herr].
  split; [exact Hos|]. split; [exact Hrun|]. split.
  - fold r in Hev. rewrite Hev. reflexivity.
  - exact Herr.
Defined.

Section UnsupportedOS.

Import Notification.
Variable env : Env.
Hypothesis unsupported : supportedOS (GOOS env) = false.

Lemma sendNotification_unsupported s w issue :
  let r := sendNotification env s w issue in
  snd r = Some (Go.ErrUnsupportedOS (GOOS env))
  /\ adds notDisplay w (snd (fst r)).
Proof.
  cbv zeta. unfold sendNotification. fold (awaited env s w).
  unfold supportedOS in unsupported.
  apply Bool.orb_false_iff in unsupported.
  destruct unsupported as [H12 H3].
  apply Bool.orb_false_iff in H12. destruct H12 as [H1 H2].
  rewrite H1, H2, H3. cbn [fst snd]. split; [reflexivity|].
  unfold awaited. destruct (_ <? _); [| apply adds_refl].
  apply adds_call. reflexivity.
Qed.

Lemma processIssue_unsupported s w issue :
  let sw := processIssue env (s, w) issue in
  lastCheckID (fst sw) = lastCheckID s /\ adds notDisplay w (snd sw).
Proof.
  cbv zeta. unfold processIssue.
  destruct (ID issue >? lastCheckID s);
    [| split; [reflexivity | apply adds_refl]].
  destruct (sendNotification_unsupported s w issue) as [Herr Hadds].
  pose proof (sendNotification_lastCheckID env s w issue) as Hid.
  destruct (sendNotification env s w issue) as [[s1 w1] r].
  cbn [fst snd] in *. subst r. auto.
Qed.

Lemma processIssues_unsupported issues : forall s w,
  let sw := processIssues env issues (s, w) in
  lastCheckID (fst sw) = lastCheckID s /\ adds notDisplay w (snd sw).
Proof.
  induction issues as [| issue issues IH]; intros s w; cbv zeta.
  - split; [reflexivity | apply adds_refl].
  - rewrite processIssues_cons.
    destruct (processIssue_unsupported s w issue) as [Hid Hadds].
    destruct (processIssue env (s, w) issue) as [s1 w1].
    cbn [fst snd] in *.
    destruct (IH s1 w1) as [Hid2 Hadds2].
    split; [congruence | eapply adds_trans; eassumption].
Qed.

Lemma cycle_unsupported s w :
  let sw := cycle env (s, w) in
  lastCheckID (fst sw) = lastCheckID s /\ adds notDisplay w (snd sw).
Proof.
  cbv zeta. unfold cycle, checkForNewIssues. cbn [fst snd].
  assert (Hf : adds notDisplay w (fst (fetchLatestIssues env s w))).
  { eapply adds_trans;
      [apply (adds_call notDisplay env EvLimiterWait 0 w); reflexivity|].
    eapply adds_weaken; [| apply fetchLatestIssues_adds].
    intros [] H; first [reflexivity | discriminate H]. }
  destruct (fetchLatestIssues env s w) as [w1 [issues [err|]]];
    cbn [fst snd] in *.
  - auto.
  - destruct (processIssues_unsupported issues s w1) as [Hid Hadds].
    destruct (processIssues env issues (s, w1)) as [s2 w2].
    cbn [fst snd] in *.
    split; [exact Hid | eapply adds_trans; eassumption].
Qed.

Lemma onTicks_unsupported n : forall s w,
  let sw := onTicks env n (s, w) in
  lastCheckID (fst sw) = lastCheckID s /\ adds notDisplay w (snd sw).
Proof.
  induction n as [| n IH]; intros s w; cbv zeta.
  - split; [reflexivity | apply adds_refl].
  - cbn [onTicks].
    destruct (cycle_unsupported s (call env EvTick 0 w)) as [Hid Hadds].
    destruct (cycle env (s, call env EvTick 0 w)) as [s1 w1].
    cbn [fst snd] in *.
    destruct (IH s1 w1) as [Hid2 Hadds2].
    split; [congruence|].
    eapply adds_trans;
      [apply (adds_call notDisplay env EvTick 0 w); reflexivity|].
    eapply adds_trans; eassumption.
Qed.

End UnsupportedOS.

(** X20.  On a system that is neither "darwin", "windows" nor "linux",
    [sendNotification] displays nothing and returns the error on the
    unsupported system, so that no issue is ever marked as seen: through a
    whole run of [Start], however long, [lastCheckID] keeps the value that
    it had and nothing is displayed. *)
Theorem unsupported_os_never_notifies :
  forall env,
    supportedOS (GOOS env) = false ->
    (forall s w issue,
        let r := Notification.sendNotification env s w issue in
        snd r = Some (Go.ErrUnsupportedOS (GOOS env))
        /\ List.filter isDisplay (newEvents w (snd (fst r))) = [])
    /\ (forall n s w,
           let sw := Notification.Start env n s w in
           Notification.lastCheckID (fst sw) = Notification.lastCheckID s
           /\ List.filter isDisplay (newEvents w (snd sw)) = []).
Proof.
  intros env Hos.
  assert (Hnone : forall w w',
             adds notDisplay w w' ->
             List.filter isDisplay (newEvents w w') = []).
  { intros w w' [evs [E F]]. rewrite (newEvents_app _ _ _ E).
    apply (filter_none _ _ _ F). intros ev H.
    unfold notDisplay in H. now apply Bool.negb_true_iff in H. }
  split.
  - intros s w issue r.
    destruct (sendNotification_unsupported env Hos s w issue) as [Herr Ha].
    split; [exact Herr | now apply Hnone].
  - intros n s w sw. unfold sw, Notification.Start.
    destruct (cycle_unsupported env Hos s w) as [Hid Hadds].
    destruct (Notification.cycle env (s, w)) as [s1 w1]. cbn [fst snd] in *.
    destruct (onTicks_unsupported env Hos n s1 w1) as [Hid2 Hadds2].
    split; [congruence|].
    apply Hnone. eapply adds_trans; eassumption.
Qed.

Lemma unsupported_os_never_notifies_witness :
  let sw :=
    Notification.Start plan9Env 3 Scenario.aService Scenario.startWorld in
  supportedOS (GOOS plan9Env) = false
  /\ Notification.lastCheckID (fst sw) = 0
  /\ List.filter isDisplay (newEvents Scenario.startWorld (snd sw)) = []
  /\ List.length (List.filter isHTTP (events (snd sw))) = 4%nat.
Proof.
  intros sw.
  assert (Hos : supportedOS (GOOS plan9Env) = false) by reflexivity.
  destruct (proj2 (unsupported_os_never_notifies plan9Env Hos) 3%nat
              Scenario.aService Scenario.startWorld) as [Hid Hnone].
  split; [exact Hos|]. split; [exact Hid|]. split; [exact Hnone|].
  reflexivity.
Defined.

(** ** The packages notifier, platform and service *)

Section Refactoring.

Import repository platform platformNotifier.

(** X21.  [IssueNotifier.NotifyNewIssue] does not truncate: the message
    that it hands to the notifier is the whole ["#<number>: <title>"].  It
    is the message that [sendNotification] hands over exactly when that
    text is at most 100 bytes long. *)
Theorem NotifyNewIssue_does_not_truncate :
  forall issue,
    let whole := "#" ++ Go.itoa (Number issue) ++ ": " ++ Title issue in
    (forall env w,
        notifier.NotifyNewIssue env
          (notifier.NewIssueNotifier platform.mkMacOSNotifier) issue w
        = platform.MacOSNotifier_Notify env platform.mkMacOSNotifier
            "New GitHub Issue" whole (HTMLURL issue) w)
    /\ (forall env w,
           newEvents w
             (fst (notifier.NotifyNewIssue env
                     (notifier.NewIssueNotifier platform.mkMacOSNotifier)
                     issue w))
           = [EvExec (now w) "terminal-notifier"
                ["-title"; "New GitHub Issue"; "-message"; whole;
                 "-open"; HTMLURL issue; "-sound"; "default"]])
    /\ (Notification.notificationMessage issue = whole
        <-> Go.len whole <= config.MaxNotificationLength).
Proof.
  intros issue whole. split; [reflexivity|]. split.
  - intros env w. apply newEvents_app.
    unfold notifier.NotifyNewIssue. cbn. unfold platform.MacOSNotifier_Notify.
    unfold cmdRun. destruct (run env _); reflexivity.
  - change whole with (Notification.formatMessage issue). split.
    + intros Heq.
      destruct (Z_le_gt_dec (Go.len (Notification.formatMessage issue))
                  config.MaxNotificationLength) as [Hle | Hgt];
        [exact Hle|].
      destruct (notificationMessage_long issue ltac:(lia)) as (_ & _ & Hlen).
      rewrite Heq in Hlen. unfold config.MaxNotificationLength in Hgt. lia.
    + apply notificationMessage_short.
Qed.

Lemma NotifyNewIssue_does_not_truncate_witness :
  let issue := Scenario.anIssue 4821 Scenario.longTitle in
  let whole := "#" ++ Go.itoa (Number issue) ++ ": " ++ Title issue in
  Go.len whole = 120
  /\ Notification.notificationMessage issue <> whole.
Proof.
  intros issue whole. split; [reflexivity|]. intros Heq.
  pose proof (proj1 (proj2 (proj2 (NotifyNewIssue_does_not_truncate issue)))
                Heq) as Hle.
  revert Hle. vm_compute. intros H. now apply H.
Defined.

Lemma PlatformNotifier_Notify_adds env n title message url w :
  adds isDisplay w
    (fst (platformNotifier.PlatformNotifier_Notify env n title message url w)).
Proof.
  destruct n as [n | n | n]; cbn [platformNotifier.PlatformNotifier_Notify].
  - unfold platform.MacOSNotifier_Notify, cmdRun.
    destruct (run env _); apply adds_call; reflexivity.
  - unfold platform.WindowsNotifier_Notify, beeepNotifyCall.
    apply adds_call; reflexivity.
  - unfold platform.LinuxNotifier_Notify, cmdRun, beeepNotifyCall.
    destruct (run env _); cbn [fst].
    + apply adds_call; reflexivity.
    + eapply adds_trans; apply adds_call; reflexivity.
    + eapply adds_trans; apply adds_call; reflexivity.
Qed.

(** X22.  [NewPlatformNotifier] returns a notifier exactly for "darwin",
    "windows" and "linux", and for any other system the error that
    [sendNotification] returns there.  On "darwin" and on "windows", for a
    message of at most 100 bytes and when no flood-prevention wait is due,
    [NotifyNewIssue] through that notifier makes the same calls and returns
    the same error as [sendNotification]. *)
Theorem platform_notifier_matches_the_switch :
  (forall goos,
      (supportedOS goos = true ->
       exists n,
         platformNotifier.NewPlatformNotifier goos = (Some n, None))
      /\ (supportedOS goos = false ->
          platformNotifier.NewPlatformNotifier goos
          = (None, Some (Go.ErrUnsupportedOS goos))))
  /\ (forall env s w issue n,
         GOOS env = "darwin" \/ GOOS env = "windows" ->
         platformNotifier.NewPlatformNotifier (GOOS env) = (Some n, None) ->
         Go.len (Notification.formatMessage issue)
         <= config.MaxNotificationLength ->
         config.NotifyDelay
         <= Go.Since (now w) (Notification.lastNotifyTime s) ->
         let old := Notification.sendNotification env s w issue in
         let new :=
           notifier.NotifyNewIssue env (notifier.NewIssueNotifier n)
             issue w in
         snd (fst old) = fst new /\ snd old = snd new).
Proof.
  split.
  - intros goos. unfold supportedOS, platformNotifier.NewPlatformNotifier.
    destruct (String.eqb goos "darwin"); [split; [eauto | discriminate]|].
    destruct (String.eqb goos "windows"); [split; [eauto | discriminate]|].
    destruct (String.eqb goos "linux"); [split; [eauto | discriminate]|].
    split; [discriminate | reflexivity].
  - intros env s w issue n Hos Hnew Hshort Hlate old new.
    unfold old, new, Notification.sendNotification, notifier.NotifyNewIssue.
    rewrite (notificationMessage_short issue Hshort).
    destruct (Z.ltb_spec (Go.Since (now w) (Notification.lastNotifyTime s))
                config.NotifyDelay) as [Hsoon | _]; [lia|].
    destruct Hos as [Hos | Hos]; rewrite Hos in Hnew |- *;
      injection Hnew as <-; cbn.
    + unfold platform.MacOSNotifier_Notify, cmdRun.
      destruct (run env _); split; reflexivity.
    + unfold platform.WindowsNotifier_Notify, beeepNotifyCall.
      split; reflexivity.
Qed.

Lemma platform_notifier_matches_the_switch_witness :
  let env := Scenario.calmEnv "windows" [] in
  let s := Scenario.aService in
  let w := Scenario.startWorld in
  let issue := Scenario.anIssue 7 "Seven" in
  exists n,
    platformNotifier.NewPlatformNotifier (GOOS env) = (Some n, None)
    /\ snd (fst (Notification.sendNotification env s w issue))
       = fst (notifier.NotifyNewIssue env (notifier.NewIssueNotifier n)
                issue w)
    /\ List.length (events (snd (fst (Notification.sendNotification env s w
                                        issue)))) = 1%nat.
Proof.
  intros env s w issue.
  exists (platformNotifier.Windows platform.mkWindowsNotifier).
  split; [reflexivity|]. split; [| reflexivity].
  apply (proj2 platform_notifier_matches_the_switch env s w issue).
  - right. reflexivity.
  - reflexivity.
  - vm_compute. discriminate.
  - vm_compute. discriminate.
Defined.

(** X23.  The service built on [Repository] never dispatches a pull
    request: when the API answers with the status 200 and a body that
    decodes, [checkForNewIssues] of the package service runs its loop on
    the decoded entries that are not pull requests, and on no other; it
    dispatches nothing when all the entries are pull requests. *)
Theorem service_skips_pull_requests :
  forall (N : Type) (HN : notifier.Notifier N) env
         (s : Service.Service repository.Repository N) w decoded,
    limiterWait env (List.length (events w)) = None ->
    newRequest env
      (issuesURL (repository.owner (Service.repo s))
         (repository.repo (Service.repo s)) ++ "&is=issue") = None ->
    clientDo env (requests w) = Response Go.StatusOK (JSON decoded) ->
    let checked := Service.checkForNewIssues env s w in
    let w1 :=
      fst (repository.Repository_FetchLatestIssues env (Service.repo s)
             (call env EvLimiterWait 0 w)) in
    snd checked = None
    /\ fst checked
       = Service.processIssues env
           (List.filter (fun issue => negb (isPullRequest issue)) decoded)
           (s, w1)
    /\ (List.forallb isPullRequest decoded = true ->
        fst checked = (s, w1)).
Proof.
  intros N HN env s w decoded Hlim Hreq Hdo checked w1.
  destruct (Repository_fetch_one_request env (Service.repo s)
              (call env EvLimiterWait 0 w) Hreq) as (_ & _ & Hres).
  change (requests (call env EvLimiterWait 0 w)) with (requests w) in Hres.
  rewrite Hdo in Hres. cbn in Hres.
  assert (Hchecked :
    checked
    = let (s', w') :=
        Service.processIssues env
          (List.filter (fun issue => negb (isPullRequest issue)) decoded)
          (s, w1) in
      (s', w', None)).
  { unfold checked, Service.checkForNewIssues, limiterWaitCall.
    rewrite Hlim. cbn [repository.FetchLatestIssues
                         repository.Repository_IssueRepository].
    fold w1 in Hres |- *.
    destruct (repository.Repository_FetchLatestIssues env (Service.repo s)
                (call env EvLimiterWait 0 w)) as [w' res].
    cbn [fst snd] in *. subst res w1. reflexivity. }
  rewrite Hchecked.
  destruct (Service.processIssues env _ (s, w1)) as [s' w'] eqn:Hp.
  split; [reflexivity|]. split; [reflexivity|].
  intros Hall. cbn [fst]. rewrite <- Hp.
  replace (List.filter (fun issue => negb (isPullRequest issue)) decoded)
    with (@nil Issue); [reflexivity|].
  clear -Hall. induction decoded as [| issue decoded IH]; [reflexivity|].
  simpl in *. apply Bool.andb_true_iff in Hall. destruct Hall as [H1 H2].
  rewrite H1. simpl. now apply IH.
Qed.

Lemma service_skips_pull_requests_witness :
  let env := Scenario.mixedEnv in
  let s :=
    Service.NewService Scenario.aRepository mkMacOSNotifier
      config.DefaultPollInterval in
  let checked := Service.checkForNewIssues env s Scenario.startWorld in
  clientDo env (requests Scenario.startWorld)
  = Response Go.StatusOK
      (JSON [Scenario.anIssue 8 "Crash on start";
             Scenario.aPullRequest 9 "Fix the crash"])
  /\ snd checked = None
  /\ Service.lastCheckID (fst (fst checked)) = 8
  /\ List.length (List.filter isDisplay (events (snd (fst checked))))
     = 1%nat.
Proof.
  intros env s checked. split; [reflexivity|]. split.
  - exact (proj1 (service_skips_pull_requests _ _ env s Scenario.startWorld
                    _ eq_refl eq_refl eq_refl)).
  - split; reflexivity.
Defined.

Lemma svc_processIssue_keeps_lastNotifyTime {R N : Type}
  `{repository.IssueRepository R} `{notifier.Notifier N}
  env (sw : Service.Service R N * World) issue :
  Service.lastNotifyTime (fst (Service.processIssue env sw issue))
  = Service.lastNotifyTime (fst sw).
Proof.
  destruct sw as [s w]. unfold Service.processIssue.
  destruct (ID issue >? Service.lastCheckID s); [| reflexivity].
  destruct (notifier.NotifyNewIssue env (Service.issueNotifier s) issue w)
    as [w1 [e|]]; reflexivity.
Qed.

Lemma svc_cycle_keeps_lastNotifyTime {R N : Type}
  `{repository.IssueRepository R} `{notifier.Notifier N}
  env (sw : Service.Service R N * World) :
  Service.lastNotifyTime (fst (Service.cycle env sw))
  = Service.lastNotifyTime (fst sw).
Proof.
  unfold Service.cycle, Service.checkForNewIssues.
  destruct (limiterWaitCall env (snd sw)) as [w0 [c|]]; [reflexivity|].
  destruct (repository.FetchLatestIssues env (Service.repo (fst sw)) w0)
    as [w1 [issues [err|]]]; [reflexivity|].
  assert (Hloop : forall l (sw0 : Service.Service R N * World),
             Service.lastNotifyTime (fst (Service.processIssues env l sw0))
             = Service.lastNotifyTime (fst sw0)).
  { induction l as [| issue l IH]; intros sw0; [reflexivity|].
    rewrite svc_processIssues_cons, IH.
    apply svc_processIssue_keeps_lastNotifyTime. }
  specialize (Hloop issues (fst sw, w1)).
  destruct (Service.processIssues env issues (fst sw, w1)) as [s2 w2].
  exact Hloop.
Qed.

Lemma svc_NotifyNewIssue_adds env (n : notifier.IssueNotifier PlatformNotifier)
  issue w :
  adds isDisplay w (fst (notifier.NotifyNewIssue env n issue w)).
Proof. apply PlatformNotifier_Notify_adds. Qed.

(** X24.  The package service has no flood prevention.  Its field
    [lastNotifyTime] is never written: it keeps its value through a whole
    run of [Start], whatever the repository and the notifier.  And with a
    notifier of the package platform the loop over a batch never sleeps:
    it only makes the calls that display the notifications. *)
Theorem service_has_no_flood_prevention :
  (forall (R N : Type) (HR : repository.IssueRepository R)
          (HN : notifier.Notifier N) env n (s : Service.Service R N) w,
      Service.lastNotifyTime (fst (Service.Start env n s w))
      = Service.lastNotifyTime s)
  /\ (forall (R : Type) (HR : repository.IssueRepository R) env issues
             (s : Service.Service R PlatformNotifier) w,
         List.forallb isDisplay
           (newEvents w (snd (Service.processIssues env issues (s, w))))
         = true
         /\ List.filter isSleep
              (newEvents w (snd (Service.processIssues env issues (s, w))))
            = []).
Proof.
  split.
  - intros R N HR HN env n s w. unfold Service.Start.
    assert (Hticks : forall k (sw : Service.Service R N * World),
               Service.lastNotifyTime (fst (Service.onTicks env k sw))
               = Service.lastNotifyTime (fst sw)).
    { induction k as [| k IH]; intros [s0 w0]; [reflexivity|].
      cbn [Service.onTicks]. rewrite IH.
      apply (svc_cycle_keeps_lastNotifyTime env
               (s0, call env EvTick 0 w0)). }
    rewrite Hticks. apply (svc_cycle_keeps_lastNotifyTime env (s, w)).
  - intros R HR env issues.
    assert (Hadds : forall (s : Service.Service R PlatformNotifier) w,
               adds isDisplay w
                 (snd (Service.processIssues env issues (s, w)))).
    { induction issues as [| issue issues IH]; intros s w.
      - apply adds_refl.
      - rewrite svc_processIssues_cons.
        assert (H1 : adds isDisplay w
                       (snd (Service.processIssue env (s, w) issue))).
        { unfold Service.processIssue.
          destruct (ID issue >? Service.lastCheckID s); [| apply adds_refl].
          pose proof (svc_NotifyNewIssue_adds env (Service.issueNotifier s)
                        issue w) as Ha.
          destruct (notifier.NotifyNewIssue env (Service.issueNotifier s)
                      issue w) as [w1 [e|]]; exact Ha. }
        destruct (Service.processIssue env (s, w) issue) as [s1 w1].
        eapply adds_trans; [exact H1 | apply IH]. }
    intros s w. destruct (Hadds s w) as [evs [E F]].
    rewrite (newEvents_app _ _ _ E). split; [exact F|].
    apply (filter_none _ _ _ F).
    intros [] H; first [reflexivity | discriminate H].
Qed.

(** X25.  [LinuxNotifier.Notify] runs [notify-send] with the message, a
    line feed and the link as body and, when and only when that fails,
    falls back on [beeep.Notify].  It fails only when both fail, with the
    error of the fallback. *)
Theorem LinuxNotifier_falls_back :
  forall env n title message url w,
    let first := List.length (events w) in
    let r := LinuxNotifier_Notify env n title message url w in
    let command :=
      EvExec (now w) "notify-send" [title; message ++ Go.nl ++ url] in
    (run env first = RunOk ->
     newEvents w (fst r) = [command] /\ snd r = None)
    /\ (run env first <> RunOk ->
        newEvents w (fst r)
        = [command;
           EvBeeep (now w + elapse env first) title
             (message ++ Go.nl ++ Go.nl ++ "Click to open: " ++ url)]
        /\ snd r = option_map Go.ErrForeign (beeepNotify env (S first)))
    /\ (snd r = None
        <-> run env first = RunOk \/ beeepNotify env (S first) = None).
Proof.
  intros env n title message url w. cbv zeta.
  unfold LinuxNotifier_Notify, cmdRun, beeepNotifyCall. cbv beta iota zeta.
  rewrite !events_call, List.length_app. cbn [List.length].
  rewrite Nat.add_1_r.
  destruct (run env (List.length (events w))) as [| msg | msg];
    cbn [fst snd].
  - split; [intros _; split; [| reflexivity]|].
    + apply newEvents_app. reflexivity.
    + split; [intros H; now destruct H|]. split; auto.
  - split; [discriminate|]. split.
    + intros _. split; [| reflexivity].
      apply newEvents_app. rewrite !events_call, <- List.app_assoc.
      cbn. repeat f_equal. lia.
    + destruct (beeepNotify env (S (List.length (events w)))); cbn; split;
        first [discriminate | intros [H | H]; discriminate H | auto].
  - split; [discriminate|]. split.
    + intros _. split; [| reflexivity].
      apply newEvents_app. rewrite !events_call, <- List.app_assoc.
      cbn. repeat f_equal. lia.
    + destruct (beeepNotify env (S (List.length (events w)))); cbn; split;
        first [discriminate | intros [H | H]; discriminate H | auto].
Qed.

Lemma LinuxNotifier_falls_back_witness :
  let env := Scenario.noDisplayEnv in
  let w := Scenario.startWorld in
  let r :=
    LinuxNotifier_Notify env mkLinuxNotifier "New GitHub Issue" "#1: Bug"
      "https://github.com/o/r/issues/1" w in
  run env (List.length (events w)) <> RunOk
  /\ List.length (newEvents w (fst r)) = 2%nat
  /\ snd r = Some (Go.ErrForeign "dbus: no session bus").
Proof.
  intros env w r.
  assert (Hrun : run env (List.length (events w)) <> RunOk) by discriminate.
  destruct (LinuxNotifier_falls_back env mkLinuxNotifier "New GitHub Issue"
              "#1: Bug" "https://github.com/o/r/issues/1" w)
    as (_ & Hfall & _).
  destruct (Hfall Hrun) as [Hev Herr].
  split; [exact Hrun|]. split; [| exact Herr].
  fold r in Hev. now rewrite Hev.
Defined.

End Refactoring.
